(** * Heap files over a buffer pool: a shallow embedding of heapfile.C

    The development follows the source file function by function.
    C [int] values are integers of [Z] with the 32-bit wrap-around written
    out where the code does arithmetic on them; a pointer to a page frame
    is an [option] of the page number the frame holds ([None] is NULL);
    the buffer pool and the page frames it owns are an explicit [World]
    threaded through every call.  A call either returns ([Done]), runs
    into undefined behaviour of C ([Undefined], e.g. a NULL dereference),
    or exhausts the fuel given to one of its [while (true)] loops. *)

From Stdlib Require Import ZArith Lia List Bool.
From Stdlib.Strings Require Import Byte.
From stdpp Require Import base option list gmap.
Import ListNotations.
Local Open Scope Z_scope.

(** ** Machine integers *)

Definition INT_MIN : Z := - 2 ^ 31.
Definition INT_MAX : Z := 2 ^ 31 - 1.

(** [is_int z]: [z] is a value of the C type [int]. *)
Definition is_int (z : Z) : Prop := INT_MIN <= z <= INT_MAX.

(** Result of an [int] operation, reduced to 32 bits two's complement. *)
Definition wrap32 (z : Z) : Z := (z + 2 ^ 31) mod 2 ^ 32 - 2 ^ 31.

(** The cast [(unsigned int) z]. *)
Definition to_unsigned (z : Z) : Z := z mod 2 ^ 32.

(** The conversion of an [int] to [size_t] (64 bits). *)
Definition to_size_t (z : Z) : Z := z mod 2 ^ 64.

Definition sizeof_int : Z := 4.
Definition sizeof_float : Z := 4.

(** ** Outcomes of a call *)

Inductive Outcome (A : Type) : Type :=
| Done (a : A)
| Undefined
| OutOfFuel.
Arguments Done {A} a.
Arguments Undefined {A}.
Arguments OutOfFuel {A}.

(** ** Status codes *)

(** Modelled from the spec: error.h is not part of the sources.  The
    constructors named in heapfile.C are kept; [BADPAGENO], [PAGENOTPINNED]
    and [INVALIDSLOTNO] are the failures the buffer pool and the page layer
    report for a missing page, an unpinned page and an empty slot, and
    [OtherError] stands for every other code of error.h. *)
Inductive Status : Type :=
| OK | FILEEXISTS | FILEEOF | BADSCANPARM | INVALIDRECLEN
| NOSPACE | NORECORDS | ENDOFPAGE
| BADPAGENO | PAGENOTPINNED | INVALIDSLOTNO
| OtherError (code : nat).

Global Instance Status_eq_dec : EqDecision Status.
Proof. solve_decision. Defined.

(** ** Record identifiers and records *)

Record RID : Type := mkRID { pageNo : Z; slotNo : Z }.

Global Instance RID_eq_dec : EqDecision RID.
Proof. solve_decision. Defined.

(** Modelled from the spec: the reserved sentinel "no current record"; its
    declaration is in a header that is not part of the sources. *)
Definition NULLRID : RID := {| pageNo := -1; slotNo := -1 |}.

(** The test [curRec.pageNo == NULLRID.pageNo && curRec.slotNo ==
    NULLRID.slotNo] of scanNext. *)
Definition is_NULLRID (r : RID) : bool :=
  (pageNo r =? pageNo NULLRID) && (slotNo r =? slotNo NULLRID).

Module Rec.
(** [struct Record { void* data; int length; }]: the bytes [data]
    points to, and the declared length. *)
Record t : Type := mk { data : list byte; length : Z }.
End Rec.

(** ** Platform parameters *)

(** The sign class of a [float] compared with [0.0]. *)
Inductive FloatClass : Type := FNeg | FZero | FPos | FNaN.

(** What the headers and the page layer, which are not part of the
    sources, fix: the constants of page.h; the capacity of the [fileName]
    array of the header page (heapfile.h); the freed slot, if any, that
    the page layer would give the next record (the specification leaves
    the placement of a record on its page open); and the one
    floating-point operation of the file, the class of the
    single-precision difference of two 4-byte patterns. *)
Class Platform : Type := {
  PAGESIZE : Z;
  DPFIXED : Z;
  MAXNAMESIZE : Z;
  pickSlot : list (option Rec.t) -> Rec.t -> option nat;
  float_diff : list byte -> list byte -> FloatClass
}.

(** [(float) z] for an [int] [z]: rounding to single precision keeps the
    sign, and no non-zero [int] rounds to zero. *)
Definition float_of_int (z : Z) : FloatClass :=
  if z <? 0 then FNeg else if z =? 0 then FZero else FPos.

(** ** The slotted page layer *)

Module Page.
Section WithPlatform.
Context `{Platform}.

(** Modelled from the spec: class Page (page.h, page.C) is not part of
    the sources.  A data page holds zero or more slotted records and a
    forward link; a slot is either live ([Some]) or freed ([None]), and
    the slot number of a record is its index. *)
Record t : Type := mk {
  curPage : Z;                      (* the page's own number *)
  nextPage : Z;                     (* forward link, -1 for none *)
  slots : list (option Rec.t)
}.

Definition usedSpace (p : t) : Z :=
  foldr (fun s acc => match s with Some r => Rec.length r + acc | None => acc end)
        0 (slots p).

(** Modelled from the spec: the payload left on a page, out of the page
    capacity minus the fixed page overhead. *)
Definition freeSpace (p : t) : Z := (PAGESIZE - DPFIXED) - usedSpace p.

(** Modelled from the spec: [init(pageNumber)]. *)
Definition init (pageNo : Z) : t :=
  {| curPage := pageNo; nextPage := -1; slots := [] |}.

(** Modelled from the spec: [getNextPage() -> pageNumber]. *)
Definition getNextPage (p : t) : Status * Z := (OK, nextPage p).

(** Modelled from the spec: [setNextPage(pageNumber)]. *)
Definition setNextPage (p : t) (n : Z) : t :=
  {| curPage := curPage p; nextPage := n; slots := slots p |}.

Definition slotAt (p : t) (i : Z) : option Rec.t :=
  if i <? 0 then None else mjoin (slots p !! Z.to_nat i).

(** Modelled from the spec: [getRecord(RID) -> bytes | InvalidSlot]. *)
Definition getRecord (p : t) (rid : RID) : Status * option Rec.t :=
  match slotAt p (slotNo rid) with
  | Some r => (OK, Some r)
  | None => (INVALIDSLOTNO, None)
  end.

(** The first live slot among [l], whose first element has index [i]. *)
Fixpoint findLive (l : list (option Rec.t)) (i : Z) : option Z :=
  match l with
  | [] => None
  | Some _ :: _ => Some i
  | None :: l' => findLive l' (i + 1)
  end.

(** Modelled from the spec: [firstRecord() -> RID | NoRecords]. *)
Definition firstRecord (p : t) : Status * option RID :=
  match findLive (slots p) 0 with
  | Some i => (OK, Some {| pageNo := curPage p; slotNo := i |})
  | None => (NORECORDS, None)
  end.

(** Modelled from the spec: [nextRecord(RID) -> RID | EndOfPage]: the
    first live slot after the slot of [cur]. *)
Definition nextRecord (p : t) (cur : RID) : Status * option RID :=
  let i := Z.max 0 (slotNo cur + 1) in
  match findLive (drop (Z.to_nat i) (slots p)) i with
  | Some j => (OK, Some {| pageNo := curPage p; slotNo := j |})
  | None => (ENDOFPAGE, None)
  end.

(** The slot a new record gets: the freed slot [pickSlot] names, if it
    names one, and a new slot after the existing ones otherwise. *)
Definition slotFor (l : list (option Rec.t)) (rec : Rec.t) : nat :=
  match pickSlot l rec with
  | Some j => match l !! j with Some None => j | _ => List.length l end
  | None => List.length l
  end.

Definition putSlot (l : list (option Rec.t)) (j : nat) (rec : Rec.t)
  : list (option Rec.t) :=
  if (j <? List.length l)%nat then <[j := Some rec]> l else l ++ [Some rec].

(** Modelled from the spec: [insertRecord(bytes) -> RID | NoSpace].  The
    specification does not say where on the page the record goes, so the
    slot is the platform's choice. *)
Definition insertRecord (p : t) (rec : Rec.t) : Status * option RID * t :=
  if Rec.length rec <=? freeSpace p
  then (OK,
        Some {| pageNo := curPage p; slotNo := Z.of_nat (slotFor (slots p) rec) |},
        {| curPage := curPage p; nextPage := nextPage p;
           slots := putSlot (slots p) (slotFor (slots p) rec) rec |})
  else (NOSPACE, None, p).

(** Modelled from the spec: [deleteRecord(RID) -> status]. *)
Definition deleteRecord (p : t) (rid : RID) : Status * t :=
  match slotAt p (slotNo rid) with
  | Some _ =>
      (OK, {| curPage := curPage p; nextPage := nextPage p;
              slots := <[Z.to_nat (slotNo rid) := None]> (slots p) |})
  | None => (INVALIDSLOTNO, p)
  end.

(** The live records of a page, in slot order. *)
Fixpoint liveFrom (l : list (option Rec.t)) (pno i : Z) : list RID :=
  match l with
  | [] => []
  | Some _ :: l' => {| pageNo := pno; slotNo := i |} :: liveFrom l' pno (i + 1)
  | None :: l' => liveFrom l' pno (i + 1)
  end.

Definition liveRids (p : t) : list RID := liveFrom (slots p) (curPage p) 0.

End WithPlatform.
End Page.

(** ** The file header page *)

Record FileHdrPage : Type := mkHdr {
  fileName : list byte;
  firstPage : Z;
  lastPage : Z;
  pageCnt : Z;
  recCnt : Z
}.

Definition zeroHdr : FileHdrPage :=
  {| fileName := []; firstPage := 0; lastPage := 0; pageCnt := 0; recCnt := 0 |}.

(** ** The world: one file of the storage layer and the buffer pool *)

(** What a frame of the pool holds: a freshly allocated (zero-filled)
    page, a page written through a [FileHdrPage*], or a page written
    through a [Page*]. *)
Inductive Frame : Type :=
| Raw
| Hdr (h : FileHdrPage)
| Data (p : Page.t).

Inductive Call : Type :=
| ReadPage (p : Z)
| AllocPage
| UnPinPage (p : Z) (dirty : bool).

(** One entry of the log per buffer-pool call: the call, the status it
    returned and the pins held right after it. *)
Record Event : Type := mkEvent {
  ev_call : Call;
  ev_status : Status;
  ev_pins : list Z
}.

(** Modelled from the spec: the storage layer ([db], class File) and the
    buffer pool ([bufMgr]) are not part of the sources.  The world is the
    part of them that belongs to the file a call names: whether the file
    exists, the number of its first page, its pages as the pool's frames
    hold them, the pins held (one entry per pin), the statuses the next
    calls into the two layers are going to fail with ([OK] or none: the
    call runs normally), and the log of the buffer-pool calls made, newest
    first. *)
Record World : Type := mkWorld {
  fileExists : bool;
  fileFirstPage : option Z;
  frames : gmap Z Frame;
  pinned : list Z;
  faults : list Status;
  log : list Event
}.

Definition setFrames (f : gmap Z Frame) (w : World) : World :=
  mkWorld (fileExists w) (fileFirstPage w) f (pinned w) (faults w) (log w).

Definition setFrame (p : Z) (fr : Frame) (w : World) : World :=
  setFrames (<[p := fr]> (frames w)) w.

Definition setPinned (l : list Z) (w : World) : World :=
  mkWorld (fileExists w) (fileFirstPage w) (frames w) l (faults w) (log w).

(** The status the next call into a collaborator fails with, if any. *)
Definition nextFault (w : World) : Status * World :=
  match faults w with
  | [] => (OK, w)
  | s :: fs =>
      (s, mkWorld (fileExists w) (fileFirstPage w) (frames w) (pinned w) fs (log w))
  end.

Definition logCall (c : Call) (s : Status) (w : World) : World :=
  mkWorld (fileExists w) (fileFirstPage w) (frames w) (pinned w) (faults w)
          (mkEvent c s (pinned w) :: log w).

(** Dereferencing a [Page*]. *)
Definition derefPage (ptr : option Z) (w : World) : option Page.t :=
  match ptr with
  | None => None
  | Some p => match frames w !! p with Some (Data pg) => Some pg | _ => None end
  end.

(** Dereferencing a [FileHdrPage*]. *)
Definition derefHdr (ptr : option Z) (w : World) : option FileHdrPage :=
  match ptr with
  | None => None
  | Some p =>
      match frames w !! p with
      | Some (Hdr h) => Some h
      | Some Raw => Some zeroHdr
      | _ => None
      end
  end.

Module BufMgr.

(** Releases one pin of [p]; [None] when [p] holds no pin. *)
Fixpoint unpin1 (p : Z) (l : list Z) : option (list Z) :=
  match l with
  | [] => None
  | q :: l' => if q =? p then Some l' else option_map (cons q) (unpin1 p l')
  end.

(** The number of the page [allocPage] hands out: one past the largest
    page number of the file, and at least 1. *)
Definition freshPageNo (f : gmap Z Frame) : Z :=
  Z.of_nat (S (max_list (Z.to_nat <$> (map_to_list f).*1))).

(** Modelled from the spec: [readPage(file, pageNumber) -> pinnedPage]. *)
Definition readPage (p : Z) (w : World) : Status * option Z * World :=
  let '(s, w1) := nextFault w in
  match s with
  | OK =>
      match frames w1 !! p with
      | Some _ => (OK, Some p, logCall (ReadPage p) OK (setPinned (p :: pinned w1) w1))
      | None => (BADPAGENO, None, logCall (ReadPage p) BADPAGENO w1)
      end
  | _ => (s, None, logCall (ReadPage p) s w1)
  end.

(** Modelled from the spec: [unPinPage(file, pageNumber, isDirty) -> status]. *)
Definition unPinPage (p : Z) (dirty : bool) (w : World) : Status * World :=
  let '(s, w1) := nextFault w in
  match s with
  | OK =>
      match unpin1 p (pinned w1) with
      | Some l => (OK, logCall (UnPinPage p dirty) OK (setPinned l w1))
      | None => (PAGENOTPINNED, logCall (UnPinPage p dirty) PAGENOTPINNED w1)
      end
  | _ => (s, logCall (UnPinPage p dirty) s w1)
  end.

(** Modelled from the spec: [allocPage(file) -> (pageNumber,
    pinnedPage)]. *)
Definition allocPage (w : World) : Status * option Z * World :=
  let '(s, w1) := nextFault w in
  match s with
  | OK =>
      let n := freshPageNo (frames w1) in
      let first := match fileFirstPage w1 with Some f => Some f | None => Some n end in
      (OK, Some n,
       logCall AllocPage OK
         (mkWorld (fileExists w1) first (<[n := Raw]> (frames w1))
                  (n :: pinned w1) (faults w1) (log w1)))
  | _ => (s, None, logCall AllocPage s w1)
  end.

End BufMgr.

Module DB.

(** Modelled from the spec: [openFile(name) -> handle | FileNotFound]. *)
Definition openFile (w : World) : Status * World :=
  let '(s, w1) := nextFault w in
  match s with
  | OK => if fileExists w1 then (OK, w1) else (OtherError 0, w1)
  | _ => (s, w1)
  end.

(** Modelled from the spec: [createFile(name)]. *)
Definition createFile (w : World) : Status * World :=
  let '(s, w1) := nextFault w in
  match s with
  | OK =>
      if fileExists w1 then (FILEEXISTS, w1)
      else (OK, mkWorld true None ∅ (pinned w1) (faults w1) (log w1))
  | _ => (s, w1)
  end.

(** Modelled from the spec: [closeFile(handle)]. *)
Definition closeFile (w : World) : Status * World := nextFault w.

(** Modelled from the spec: [getFirstPageNumber(handle) -> pageNumber]. *)
Definition getFirstPage (w : World) : Status * option Z * World :=
  let '(s, w1) := nextFault w in
  match s with
  | OK =>
      match fileFirstPage w1 with
      | Some p => (OK, Some p, w1)
      | None => (OtherError 0, None, w1)
      end
  | _ => (s, None, w1)
  end.

End DB.

(** ** createHeapFile (heapfile.C, lines 23-76) *)

(** [s.c_str()] as [strcpy] reads it: the bytes before the first NUL. *)
Fixpoint c_str (s : list byte) : list byte :=
  match s with
  | [] => []
  | b :: s' => if Z.of_N (Byte.to_N b) =? 0 then [] else b :: c_str s'
  end.

(** [strcpy(dst, src)] into a [char] array of [cap] elements: the string
    stored; [None] when the string and its terminator do not fit, which
    is a write past the end of the array. *)
Definition strcpy (cap : Z) (src : list byte) : option (list byte) :=
  if Z.of_nat (List.length (c_str src)) <? cap then Some (c_str src) else None.

Definition createHeapFile `{Platform} (name : list byte) (w : World)
  : Outcome (Status * World) :=
  let '(status, w) := DB.openFile w in
  match status with
  | OK => Done (FILEEXISTS, w)
  | _ =>
      let '(status, w) := DB.createFile w in
      match status with
      | OK =>
      let '(status, w) := DB.openFile w in
      match status with
      | OK =>
      let '(status, newPage, w) := BufMgr.allocPage w in
      match status, newPage with
      | OK, Some hdrPageNo =>
          (* strcpy(hdrPage->fileName, ...) through the cast pointer *)
          match derefHdr (Some hdrPageNo) w, strcpy MAXNAMESIZE name with
          | None, _ | _, None => Undefined
          | Some hp, Some stored =>
          let hp := mkHdr stored (firstPage hp) (lastPage hp) (pageCnt hp) (recCnt hp) in
          let w := setFrame hdrPageNo (Hdr hp) w in
          let '(status, newPage, w) := BufMgr.allocPage w in
          match status, newPage with
          | OK, Some newPageNo =>
              let w := setFrame newPageNo (Data (Page.init newPageNo)) w in
              match derefHdr (Some hdrPageNo) w with
              | None => Undefined
              | Some hp =>
              let hp := mkHdr (fileName hp) newPageNo newPageNo 1 0 in
              let w := setFrame hdrPageNo (Hdr hp) w in
              let '(status, w) := BufMgr.unPinPage hdrPageNo true w in
              match status with
              | OK =>
              let '(status, w) := BufMgr.unPinPage newPageNo true w in
              match status with
              | OK =>
              let '(status, w) := DB.closeFile w in
              match status with
              | OK => Done (OK, w)
              | _ => Done (status, w)
              end
              | _ => Done (status, w)
              end
              | _ => Done (status, w)
              end
              end
          | OK, None => Undefined
          | _, _ => Done (status, w)
          end
          end
      | OK, None => Undefined
      | _, _ => Done (status, w)
      end
      | _ => Done (status, w)
      end
      | _ => Done (status, w)
      end
  end.

(** ** class HeapFile *)

Module HeapFile.

(** The data members of class HeapFile.  [filePtr] is left out: the
    world holds the one file of the handle. *)
Record t : Type := mk {
  headerPage : option Z;     (* FileHdrPage*: the pinned header frame *)
  headerPageNo : Z;
  hdrDirtyFlag : bool;
  curPage : option Z;        (* Page*: the pinned data frame, or NULL *)
  curPageNo : Z;
  curDirtyFlag : bool;
  curRec : RID
}.

Definition setCur (ptr : option Z) (no : Z) (dirty : bool) (h : t) : t :=
  mk (headerPage h) (headerPageNo h) (hdrDirtyFlag h) ptr no dirty (curRec h).

Definition setCurPage (ptr : option Z) (h : t) : t :=
  setCur ptr (curPageNo h) (curDirtyFlag h) h.

Definition setCurPageNo (no : Z) (h : t) : t :=
  setCur (curPage h) no (curDirtyFlag h) h.

Definition setCurDirtyFlag (dirty : bool) (h : t) : t :=
  setCur (curPage h) (curPageNo h) dirty h.

Definition setCurRec (r : RID) (h : t) : t :=
  mk (headerPage h) (headerPageNo h) (hdrDirtyFlag h)
     (curPage h) (curPageNo h) (curDirtyFlag h) r.

Definition setHdrDirtyFlag (dirty : bool) (h : t) : t :=
  mk (headerPage h) (headerPageNo h) dirty
     (curPage h) (curPageNo h) (curDirtyFlag h) (curRec h).

Definition setHeader (ptr : option Z) (no : Z) (h : t) : t :=
  mk ptr no (hdrDirtyFlag h) (curPage h) (curPageNo h) (curDirtyFlag h) (curRec h).

(** A write through [headerPage]. *)
Definition updHeader (f : FileHdrPage -> FileHdrPage) (h : t) (w : World)
  : option World :=
  match headerPage h, derefHdr (headerPage h) w with
  | Some p, Some hp => Some (setFrame p (Hdr (f hp)) w)
  | _, _ => None
  end.

(** A write through [curPage]. *)
Definition storeCurPage (pg : Page.t) (h : t) (w : World) : World :=
  match curPage h with
  | Some p => setFrame p (Data pg) w
  | None => w
  end.

(** HeapFile::HeapFile (lines 99-143).  [h] holds the indeterminate
    values of the members before construction; the result is the
    [returnStatus] and the object. *)
Definition ctor (h : t) (w : World) : Outcome (Status * t * World) :=
  let '(status, w) := DB.openFile w in
  match status with
  | OK =>
      let '(status, first, w) := DB.getFirstPage w in
      let h := match first with
               | Some p => setHeader (headerPage h) p h
               | None => h
               end in
      match status with
      | OK =>
          let '(status, pagePtr, w) := BufMgr.readPage (headerPageNo h) w in
          match status with
          | OK =>
              let h := setHeader pagePtr (headerPageNo h) h in
              let h := setHdrDirtyFlag false h in
              match derefHdr (headerPage h) w with
              | None => Undefined
              | Some hp =>
                  let h := setCurPageNo (firstPage hp) h in
                  let '(status, ptr, w) := BufMgr.readPage (curPageNo h) w in
                  match status with
                  | OK =>
                      let h := setCurPage ptr h in
                      let h := setCurDirtyFlag false h in
                      let h := setCurRec NULLRID h in
                      Done (OK, h, w)
                  | _ => Done (status, h, w)
                  end
              end
          | _ => Done (status, h, w)
          end
      | _ => Done (status, h, w)
      end
  | _ => Done (status, h, w)
  end.

(** HeapFile::~HeapFile (lines 152-179). *)
Definition dtor (h : t) (w : World) : Outcome (t * World) :=
  match derefHdr (headerPage h) w with     (* headerPage->fileName *)
  | None => Undefined
  | Some _ =>
      let '(h, w) :=
        match curPage h with
        | Some _ =>
            let '(_, w) := BufMgr.unPinPage (curPageNo h) (curDirtyFlag h) w in
            (setCur None 0 false h, w)
        | None => (h, w)
        end in
      let '(_, w) := BufMgr.unPinPage (headerPageNo h) (hdrDirtyFlag h) w in
      let '(_, w) := DB.closeFile w in
      Done (h, w)
  end.

(** HeapFile::getRecCnt (lines 186-189). *)
Definition getRecCnt (h : t) (w : World) : Outcome Z :=
  match derefHdr (headerPage h) w with
  | None => Undefined
  | Some hp => Done (recCnt hp)
  end.

(** HeapFile::getRecord (lines 201-234). *)
Definition getRecord (rid : RID) (h : t) (w : World)
  : Outcome (Status * option Rec.t * t * World) :=
  let fetch (h : t) (w : World) :=
    match derefPage (curPage h) w with
    | None => Undefined
    | Some pg =>
        let '(status, rec) := Page.getRecord pg rid in
        match status with
        | OK => Done (OK, rec, setCurRec rid h, w)
        | _ => Done (status, rec, h, w)
        end
    end in
  if bool_decide (curPage h = None) || negb (pageNo rid =? curPageNo h) then
    let '(status, w) :=
      match curPage h with
      | Some _ => BufMgr.unPinPage (curPageNo h) (curDirtyFlag h) w
      | None => (OK, w)
      end in
    match status with
    | OK =>
        let h := setCurPageNo (pageNo rid) h in
        let '(status, ptr, w) := BufMgr.readPage (curPageNo h) w in
        match status with
        | OK =>
            let h := setCurPage ptr h in
            let h := setCurDirtyFlag false h in
            fetch h w
        | _ => Done (status, None, h, w)
        end
    | _ => Done (status, None, h, w)
    end
  else fetch h w.

End HeapFile.

(** ** Scan predicates *)

(** Modelled from the spec: the enumerations Datatype and Operator are
    declared in a header that is not part of the sources; as C
    enumerations they are [int]s, numbered here in the order in which
    heapfile.C lists them. *)
Definition Datatype : Type := Z.
Definition STRING : Datatype := 0.
Definition INTEGER : Datatype := 1.
Definition FLOAT : Datatype := 2.

Definition Operator : Type := Z.
Definition LT : Operator := 0.
Definition LTE : Operator := 1.
Definition EQ : Operator := 2.
Definition GTE : Operator := 3.
Definition GT : Operator := 4.
Definition NE : Operator := 5.

(** The [len] bytes at [buf + off]; [None] when they are not all inside
    the buffer. *)
Definition readBytes (buf : list byte) (off len : Z) : option (list byte) :=
  if (off <? 0) || (len <? 0) || (Z.of_nat (List.length buf) <? off + len)
  then None
  else Some (take (Z.to_nat len) (drop (Z.to_nat off) buf)).

Definition unsigned_of_bytes (bs : list byte) : Z :=
  foldr (fun b acc => Z.of_N (Byte.to_N b) + 256 * acc) 0 bs.

(** The [int] whose object representation is [bs] (little-endian, two's
    complement). *)
Definition int_of_bytes (bs : list byte) : Z := wrap32 (unsigned_of_bytes bs).

(** [memcpy(&x, buf + off, len)] into an [int] or [float] [x] of [size]
    bytes: defined when exactly the object is filled from inside the
    buffer. *)
Definition loadObject (size : Z) (buf : list byte) (off len : Z)
  : option (list byte) :=
  if len =? size then readBytes buf off len else None.

(** [strncmp(s1, s2, n)]; [None] when the comparison runs off the end of
    one of the buffers. *)
Fixpoint strncmp (s1 s2 : list byte) (n : Z) : option Z :=
  if n <=? 0 then Some 0
  else match s1, s2 with
       | c1 :: t1, c2 :: t2 =>
           let u1 := Z.of_N (Byte.to_N c1) in
           let u2 := Z.of_N (Byte.to_N c2) in
           if negb (u1 =? u2) then Some (u1 - u2)
           else if u1 =? 0 then Some 0
           else strncmp t1 t2 (n - 1)
       | _, _ => None
       end.

(** ** class HeapFileScan *)

Module HeapFileScan.
Section WithPlatform.
Context `{Platform}.

Record t : Type := mk {
  base : HeapFile.t;
  offset : Z;
  length : Z;
  type : Datatype;
  filter : option (list byte);   (* const char*: NULL or the literal *)
  op : Operator;
  markedPageNo : Z;
  markedRec : RID
}.

Definition setBase (b : HeapFile.t) (s : t) : t :=
  mk b (offset s) (length s) (type s) (filter s) (op s)
     (markedPageNo s) (markedRec s).

Definition setFilter (f : option (list byte)) (s : t) : t :=
  mk (base s) (offset s) (length s) (type s) f (op s)
     (markedPageNo s) (markedRec s).

Definition setPredicate (o l : Z) (ty : Datatype) (f : option (list byte))
    (o' : Operator) (s : t) : t :=
  mk (base s) o l ty f o' (markedPageNo s) (markedRec s).

Definition setMark (p : Z) (r : RID) (s : t) : t :=
  mk (base s) (offset s) (length s) (type s) (filter s) (op s) p r.

(** HeapFileScan::HeapFileScan (lines 237-241). *)
Definition ctor (s : t) (w : World) : Outcome (Status * t * World) :=
  match HeapFile.ctor (base s) w with
  | Done (status, b, w) => Done (status, setFilter None (setBase b s), w)
  | Undefined => Undefined
  | OutOfFuel => OutOfFuel
  end.

(** HeapFileScan::startScan (lines 243-270). *)
Definition startScan (offset_ length_ : Z) (type_ : Datatype)
    (filter_ : option (list byte)) (op_ : Operator) (s : t) : Status * t :=
  match filter_ with
  | None => (OK, setFilter None s)
  | Some _ =>
      if ((offset_ <? 0) || (length_ <? 1))
         || (negb (type_ =? STRING) && negb (type_ =? INTEGER)
             && negb (type_ =? FLOAT))
         || (((type_ =? INTEGER) && negb (to_size_t length_ =? sizeof_int))
             || ((type_ =? FLOAT) && negb (to_size_t length_ =? sizeof_float)))
         || (negb (op_ =? LT) && negb (op_ =? LTE) && negb (op_ =? EQ)
             && negb (op_ =? GTE) && negb (op_ =? GT) && negb (op_ =? NE))
      then (BADSCANPARM, s)
      else (OK, setPredicate offset_ length_ type_ filter_ op_ s)
  end.

(** HeapFileScan::endScan (lines 273-286). *)
Definition endScan (s : t) (w : World) : Status * t * World :=
  let h := base s in
  match HeapFile.curPage h with
  | Some _ =>
      let '(status, w) :=
        BufMgr.unPinPage (HeapFile.curPageNo h) (HeapFile.curDirtyFlag h) w in
      (status, setBase (HeapFile.setCur None 0 false h) s, w)
  | None => (OK, s, w)
  end.

(** HeapFileScan::~HeapFileScan (lines 288-291), followed by the
    destructor of the base class. *)
Definition dtor (s : t) (w : World) : Outcome (t * World) :=
  let '(_, s, w) := endScan s w in
  match HeapFile.dtor (base s) w with
  | Done (b, w) => Done (setBase b s, w)
  | Undefined => Undefined
  | OutOfFuel => OutOfFuel
  end.

(** HeapFileScan::markScan (lines 293-299). *)
Definition markScan (s : t) : Status * t :=
  (OK, setMark (HeapFile.curPageNo (base s)) (HeapFile.curRec (base s)) s).

(** HeapFileScan::resetScan (lines 301-321). *)
Definition resetScan (s : t) (w : World) : Status * t * World :=
  let h := base s in
  if negb (markedPageNo s =? HeapFile.curPageNo h) then
    let '(status, w) :=
      match HeapFile.curPage h with
      | Some _ => BufMgr.unPinPage (HeapFile.curPageNo h) (HeapFile.curDirtyFlag h) w
      | None => (OK, w)
      end in
    match status with
    | OK =>
        let h := HeapFile.setCurPageNo (markedPageNo s) h in
        let h := HeapFile.setCurRec (markedRec s) h in
        let '(status, ptr, w) := BufMgr.readPage (HeapFile.curPageNo h) w in
        match status with
        | OK =>
            let h := HeapFile.setCurPage ptr h in
            let h := HeapFile.setCurDirtyFlag false h in
            (OK, setBase h s, w)
        | _ => (status, setBase h s, w)
        end
    | _ => (status, s, w)
    end
  else (OK, setBase (HeapFile.setCurRec (markedRec s) h) s, w).

(** The [switch (op)] of matchRec on the [float] [diff]. *)
Definition applyOp (o : Operator) (diff : FloatClass) : bool :=
  if o =? LT then match diff with FNeg => true | _ => false end
  else if o =? LTE then match diff with FNeg | FZero => true | _ => false end
  else if o =? EQ then match diff with FZero => true | _ => false end
  else if o =? GTE then match diff with FPos | FZero => true | _ => false end
  else if o =? GT then match diff with FPos => true | _ => false end
  else if o =? NE then match diff with FZero => false | _ => true end
  else false.

(** HeapFileScan::matchRec (lines 453-505); [None] is undefined
    behaviour (a [memcpy] or [strncmp] outside its buffers). *)
Definition matchRec (s : t) (rec : Rec.t) : option bool :=
  match filter s with
  | None => Some true
  | Some flt =>
      if wrap32 (wrap32 (offset s + length s) - 1) >=? Rec.length rec
      then Some false
      else
        let diff : option FloatClass :=
          if type s =? INTEGER then
            match loadObject sizeof_int (Rec.data rec) (offset s) (to_size_t (length s)),
                  loadObject sizeof_int flt 0 (to_size_t (length s)) with
            | Some a, Some f =>
                let iattr := int_of_bytes a in
                let ifltr := int_of_bytes f in
                Some (float_of_int (wrap32 (iattr - ifltr)))
            | _, _ => None
            end
          else if type s =? FLOAT then
            match loadObject sizeof_float (Rec.data rec) (offset s) (to_size_t (length s)),
                  loadObject sizeof_float flt 0 (to_size_t (length s)) with
            | Some a, Some f => Some (float_diff a f)
            | _, _ => None
            end
          else if type s =? STRING then
            if offset s <? 0 then None
            else
              float_of_int <$>
                strncmp (drop (Z.to_nat (offset s)) (Rec.data rec)) flt
                        (to_size_t (length s))
          else Some FZero in
        match diff with
        | Some d => Some (applyOp (op s) d)
        | None => None
        end
  end.

(** How the inner loop of scanNext (lines 387-408) leaves a page. *)
Inductive PageScan : Type :=
| Found (rid : RID)          (* return OK with outRid = rid *)
| Failed (status : Status)   (* return status *)
| EndOfPage.                 (* break: go on with the next page *)

Fixpoint scanPage (fuel : nat) (s : t) (pg : Page.t) (nextRid : RID)
    (h : HeapFile.t) : Outcome (PageScan * HeapFile.t) :=
  match fuel with
  | O => OutOfFuel
  | S fuel =>
      let '(status, rec) := Page.getRecord pg nextRid in
      match status, rec with
      | OK, Some rec =>
          let h := HeapFile.setCurRec nextRid h in
          match matchRec s rec with
          | None => Undefined
          | Some true => Done (Found nextRid, h)
          | Some false =>
              let tmpRid := nextRid in
              let '(status, next) := Page.nextRecord pg tmpRid in
              match status with
              | ENDOFPAGE => Done (EndOfPage, HeapFile.setCurRec NULLRID h)
              | _ =>
                  match next with
                  | Some r => scanPage fuel s pg r h
                  | None => scanPage fuel s pg nextRid h
                  end
              end
          end
      | OK, None => Undefined
      | _, _ => Done (Failed status, h)
      end
  end.

(** The outer loop of scanNext (lines 346-417).  [nextRid] is written
    by firstRecord or nextRecord on every path that reads it, so it is
    local to an iteration. *)
Fixpoint scanLoop (fuel : nat) (s : t) (nextPageNo : Z) (h : HeapFile.t)
    (w : World) : Outcome (Status * option RID * HeapFile.t * World) :=
  match fuel with
  | O => OutOfFuel
  | S fuel =>
      if nextPageNo =? -1 then Done (FILEEOF, None, h, w)
      else
        let '(status, w) :=
          match HeapFile.curPage h with
          | Some _ =>
              BufMgr.unPinPage (HeapFile.curPageNo h) (HeapFile.curDirtyFlag h) w
          | None => (OK, w)
          end in
        match status with
        | OK =>
            let '(status, ptr, w) := BufMgr.readPage nextPageNo w in
            match status with
            | OK =>
                let h := HeapFile.setCur ptr nextPageNo false h in
                match derefPage (HeapFile.curPage h) w with
                | None => Undefined
                | Some pg =>
                    let advance (h : HeapFile.t) :=
                      let '(status, n) := Page.getNextPage pg in
                      match status with
                      | OK => scanLoop fuel s n h w
                      | _ => Done (status, None, h, w)
                      end in
                    let '(status, nextRid) :=
                      if is_NULLRID (HeapFile.curRec h)
                      then Page.firstRecord pg
                      else (OK, None) in
                    match status with
                    | NORECORDS => advance h
                    | OK =>
                        let '(status, nextRid) :=
                          if negb (is_NULLRID (HeapFile.curRec h))
                          then Page.nextRecord pg (HeapFile.curRec h)
                          else (status, nextRid) in
                        match status with
                        | OK =>
                            match nextRid with
                            | None => Undefined
                            | Some r =>
                                match scanPage (S fuel) s pg r h with
                                | Done (Found rid, h) => Done (OK, Some rid, h, w)
                                | Done (Failed status, h) => Done (status, None, h, w)
                                | Done (EndOfPage, h) => advance h
                                | Undefined => Undefined
                                | OutOfFuel => OutOfFuel
                                end
                            end
                        | ENDOFPAGE => advance (HeapFile.setCurRec NULLRID h)
                        | _ => Done (status, None, h, w)
                        end
                    | _ => Done (status, None, h, w)
                    end
                end
            | _ => Done (status, None, h, w)
            end
        | _ => Done (status, None, h, w)
        end
  end.

(** HeapFileScan::scanNext (lines 336-420); the second component is
    [outRid] when the call has written it. *)
Definition scanNext (fuel : nat) (s : t) (w : World)
  : Outcome (Status * option RID * t * World) :=
  match scanLoop fuel s (HeapFile.curPageNo (base s)) (base s) w with
  | Done (status, rid, h, w) => Done (status, rid, setBase h s, w)
  | Undefined => Undefined
  | OutOfFuel => OutOfFuel
  end.

(** HeapFileScan::getRecord (lines 425-428). *)
Definition getRecord (s : t) (w : World) : Outcome (Status * option Rec.t) :=
  match derefPage (HeapFile.curPage (base s)) w with
  | None => Undefined
  | Some pg => Done (Page.getRecord pg (HeapFile.curRec (base s)))
  end.

(** HeapFileScan::deleteRecord (lines 431-443). *)
Definition deleteRecord (s : t) (w : World) : Outcome (Status * t * World) :=
  let h := base s in
  match derefPage (HeapFile.curPage h) w with
  | None => Undefined
  | Some pg =>
      let '(status, pg) := Page.deleteRecord pg (HeapFile.curRec h) in
      let w := HeapFile.storeCurPage pg h w in
      let h := HeapFile.setCurDirtyFlag true h in
      match HeapFile.updHeader
              (fun hp => mkHdr (fileName hp) (firstPage hp) (lastPage hp)
                               (pageCnt hp) (wrap32 (recCnt hp - 1))) h w with
      | None => Undefined
      | Some w =>
          let h := HeapFile.setHdrDirtyFlag true h in
          Done (status, setBase h s, w)
      end
  end.

(** HeapFileScan::markDirty (lines 447-451). *)
Definition markDirty (s : t) : Status * t :=
  (OK, setBase (HeapFile.setCurDirtyFlag true (base s)) s).

End WithPlatform.
End HeapFileScan.

(** ** class InsertFileScan *)

Module InsertFileScan.
Section WithPlatform.
Context `{Platform}.

(** InsertFileScan::InsertFileScan (lines 507-512). *)
Definition ctor (h : HeapFile.t) (w : World)
  : Outcome (Status * HeapFile.t * World) := HeapFile.ctor h w.

(** InsertFileScan::~InsertFileScan (lines 514-525), followed by the
    destructor of the base class. *)
Definition dtor (h : HeapFile.t) (w : World) : Outcome (HeapFile.t * World) :=
  let '(h, w) :=
    match HeapFile.curPage h with
    | Some _ =>
        let '(_, w) := BufMgr.unPinPage (HeapFile.curPageNo h) true w in
        (HeapFile.setCurPageNo 0 (HeapFile.setCurPage None h), w)
    | None => (h, w)
    end in
  HeapFile.dtor h w.

(** The retry loop of insertRecord (lines 566-613). *)
Fixpoint insertLoop (fuel : nat) (rec : Rec.t) (h : HeapFile.t) (w : World)
  : Outcome (Status * option RID * HeapFile.t * World) :=
  match fuel with
  | O => OutOfFuel
  | S fuel =>
      match derefPage (HeapFile.curPage h) w with
      | None => Undefined
      | Some pg =>
          let '(status, rid, pg') := Page.insertRecord pg rec in
          match status with
          | OK =>
              match rid with
              | None => Undefined
              | Some rid =>
                  let w := HeapFile.storeCurPage pg' h w in
                  let h := HeapFile.setCurRec rid h in
                  let h := HeapFile.setCurDirtyFlag true h in
                  match HeapFile.updHeader
                          (fun hp => mkHdr (fileName hp) (firstPage hp) (lastPage hp)
                                           (pageCnt hp) (wrap32 (recCnt hp + 1))) h w with
                  | None => Undefined
                  | Some w =>
                      let h := HeapFile.setHdrDirtyFlag true h in
                      Done (OK, Some rid, h, w)
                  end
              end
          | NOSPACE =>
              let '(status, newPage, w) := BufMgr.allocPage w in
              match status, newPage with
              | OK, Some newPageNo =>
                  let w := setFrame newPageNo (Data (Page.init newPageNo)) w in
                  match derefPage (HeapFile.curPage h) w with
                  | None => Undefined
                  | Some cur =>
                      let w := HeapFile.storeCurPage (Page.setNextPage cur newPageNo) h w in
                      let '(status, w) :=
                        BufMgr.unPinPage (HeapFile.curPageNo h)
                                         (HeapFile.curDirtyFlag h) w in
                      match status with
                      | OK =>
                          match HeapFile.updHeader
                                  (fun hp => mkHdr (fileName hp) (firstPage hp) newPageNo
                                                   (pageCnt hp) (recCnt hp)) h w with
                          | None => Undefined
                          | Some w =>
                              let h := HeapFile.setHdrDirtyFlag true h in
                              let h := HeapFile.setCur (Some newPageNo) newPageNo true h in
                              insertLoop fuel rec h w
                          end
                      | _ => Done (status, None, h, w)
                      end
                  end
              | OK, None => Undefined
              | _, _ => Done (status, None, h, w)
              end
          | _ => Done (status, None, h, w)
          end
      end
  end.

(** InsertFileScan::insertRecord (lines 536-614). *)
Definition insertRecord (fuel : nat) (rec : Rec.t) (h : HeapFile.t) (w : World)
  : Outcome (Status * option RID * HeapFile.t * World) :=
  if to_unsigned (Rec.length rec) >? PAGESIZE - DPFIXED
  then Done (INVALIDRECLEN, None, h, w)
  else
    let prepared : Outcome (Status * HeapFile.t * World) :=
      match HeapFile.curPage h with
      | None =>
          match derefHdr (HeapFile.headerPage h) w with
          | None => Undefined
          | Some hp =>
              let newPageNo := lastPage hp in
              if negb (newPageNo =? -1) then
                let '(status, ptr, w) := BufMgr.readPage newPageNo w in
                match status with
                | OK => Done (OK, HeapFile.setCur ptr newPageNo false h, w)
                | _ => Done (status, h, w)
                end
              else Done (OK, h, w)
          end
      | Some _ => Done (OK, h, w)
      end in
    match prepared with
    | Done (OK, h, w) => insertLoop fuel rec h w
    | Done (status, h, w) => Done (status, None, h, w)
    | Undefined => Undefined
    | OutOfFuel => OutOfFuel
    end.

End WithPlatform.
End InsertFileScan.

(** ** Vocabulary of the statements *)

(** [chain fr p pgs]: following the forward links from page [p] through
    the frames [fr] visits exactly the data pages [pgs] and then reaches
    the sentinel -1. *)
Fixpoint chain (fr : gmap Z Frame) (p : Z) (pgs : list Page.t) : Prop :=
  match pgs with
  | [] => p = -1
  | pg :: rest =>
      p <> -1 /\ fr !! p = Some (Data pg) /\ Page.curPage pg = p
      /\ chain fr (Page.nextPage pg) rest
  end.

(** The live records of a file: page by page along the chain, and in
    slot order within a page. *)
Definition fileRids (pgs : list Page.t) : list RID :=
  concat (map Page.liveRids pgs).

(** The parameters startScan rejects, in the words of the specification. *)
Definition badScanParm (offset_ length_ : Z) (type_ : Datatype) (op_ : Operator)
  : Prop :=
  offset_ < 0 \/ length_ < 1
  \/ (type_ <> STRING /\ type_ <> INTEGER /\ type_ <> FLOAT)
  \/ (type_ = INTEGER /\ length_ <> sizeof_int)
  \/ (type_ = FLOAT /\ length_ <> sizeof_float)
  \/ (op_ <> LT /\ op_ <> LTE /\ op_ <> EQ /\ op_ <> GTE /\ op_ <> GT /\ op_ <> NE).

(** The comparison an operator stands for, on a numeric difference. *)
Definition signSatisfies (o : Operator) (diff : Z) : Prop :=
  (o = LT /\ diff < 0) \/ (o = LTE /\ diff <= 0) \/ (o = EQ /\ diff = 0)
  \/ (o = GTE /\ diff >= 0) \/ (o = GT /\ diff > 0) \/ (o = NE /\ diff <> 0).

(** The pins a handle accounts for: its current data page, if it records
    one, and its header page. *)
Definition handlePins (h : HeapFile.t) : list Z :=
  match HeapFile.curPage h with
  | Some _ => [HeapFile.curPageNo h; HeapFile.headerPageNo h]
  | None => [HeapFile.headerPageNo h]
  end.

(** The pins a scan step expects to find: its current page, if any, on
    top of the pins [tl] it does not touch. *)
Definition pinsOf (h : HeapFile.t) (tl : list Z) : list Z :=
  match HeapFile.curPage h with
  | Some _ => HeapFile.curPageNo h :: tl
  | None => tl
  end.

(** [owns h w]: the pins held in the pool are exactly those of [h]. *)
Definition owns (h : HeapFile.t) (w : World) : Prop := pinned w = handlePins h.


(** The slot at which a scan step resumes on the current page: the first
    slot for the cursor NULLRID, and else the slot after the cursor. *)
Definition startIdx (c : RID) : Z :=
  if is_NULLRID c then 0 else Z.max 0 (slotNo c + 1).

(** The live records of a page from slot [k] on. *)
Definition liveAfter (pg : Page.t) (k : Z) : list RID :=
  Page.liveFrom (drop (Z.to_nat k) (Page.slots pg)) (Page.curPage pg) k.

(** The live records a scan with cursor [c] on the first page of [pgs]
    has not visited yet. *)
Definition remaining (c : RID) (pgs : list Page.t) : list RID :=
  match pgs with
  | [] => []
  | pg :: rest => liveAfter pg (startIdx c) ++ fileRids rest
  end.

(** At the instant after the call logged as [e], at most [k] pages are
    pinned. *)
Definition pinsAtMost (k : nat) (e : Event) : Prop :=
  (List.length (ev_pins e) <= k)%nat.

Definition succeeded (e : Event) : Prop := ev_status e = OK.

(** [tracked k w w' good]: the buffer-pool calls logged between [w] and
    [w'] each left at most [k] pages pinned, and [good] holds if all of
    them succeeded. *)
Definition tracked (k : nat) (w w' : World) (good : Prop) : Prop :=
  exists evs,
    log w' = evs ++ log w
    /\ Forall (pinsAtMost k) evs
    /\ (Forall succeeded evs -> good).


(** A call that cannot change what is on disk: a read, or an unpin that
    does not declare the page dirty. *)
Definition readOnlyCall (e : Event) : Prop :=
  match ev_call e with
  | ReadPage _ => True
  | UnPinPage _ dirty => dirty = false
  | AllocPage => False
  end.

Section Drivers.
Context `{Platform}.

(** [n] calls of scanNext in a row, stopping at the first that does not
    return OK: the RIDs returned, and the status of the last call. *)
Fixpoint scanMany (fuel n : nat) (s : HeapFileScan.t) (w : World)
  : Outcome (list RID * Status * HeapFileScan.t * World) :=
  match n with
  | O => Done ([], OK, s, w)
  | S n =>
      match HeapFileScan.scanNext fuel s w with
      | Done (OK, Some rid, s, w) =>
          match scanMany fuel n s w with
          | Done (rids, status, s, w) => Done (rid :: rids, status, s, w)
          | Undefined => Undefined
          | OutOfFuel => OutOfFuel
          end
      | Done (OK, None, _, _) => Undefined
      | Done (status, _, s, w) => Done ([], status, s, w)
      | Undefined => Undefined
      | OutOfFuel => OutOfFuel
      end
  end.
End Drivers.

(** The header after [headerPage->recCnt++]. *)
Definition oneMoreRecord (hp : FileHdrPage) : FileHdrPage :=
  mkHdr (fileName hp) (firstPage hp) (lastPage hp) (pageCnt hp)
        (wrap32 (recCnt hp + 1)).

(** [onPage h w p pg hno hp]: the handle [h] holds the data page [pg],
    numbered [p], as its current page and [hp], in page [hno], as its
    header, and its page number agrees with its page pointer. *)
Definition onPage (h : HeapFile.t) (w : World) (p : Z) (pg : Page.t)
    (hno : Z) (hp : FileHdrPage) : Prop :=
  HeapFile.curPage h = Some p /\ HeapFile.curPageNo h = p
  /\ frames w !! p = Some (Data pg) /\ Page.curPage pg = p
  /\ HeapFile.headerPage h = Some hno /\ frames w !! hno = Some (Hdr hp).

Section FilteredVocabulary.
Context `{Platform}.

(** The records among the slots [l] (the first of which is slot [i] of
    page [p]) that the predicate of [s] accepts, in slot order. *)
Fixpoint matchFrom (s : HeapFileScan.t) (l : list (option Rec.t)) (p i : Z)
  : list RID :=
  match l with
  | [] => []
  | Some r :: l' =>
      match HeapFileScan.matchRec s r with
      | Some true => mkRID p i :: matchFrom s l' p (i + 1)
      | _ => matchFrom s l' p (i + 1)
      end
  | None :: l' => matchFrom s l' p (i + 1)
  end.

(** The matching records of a page from slot [k] on. *)
Definition matchAfter (s : HeapFileScan.t) (pg : Page.t) (k : Z) : list RID :=
  matchFrom s (drop (Z.to_nat k) (Page.slots pg)) (Page.curPage pg) k.

(** The matching records of a file, in scan order. *)
Definition fileMatches (s : HeapFileScan.t) (pgs : list Page.t) : list RID :=
  concat (map (fun pg => matchAfter s pg 0) pgs).

(** The matching records a scan with cursor [c] on the first page of [pgs]
    has not returned yet. *)
Definition remainingMatches (s : HeapFileScan.t) (c : RID) (pgs : list Page.t)
  : list RID :=
  match pgs with
  | [] => []
  | pg :: rest => matchAfter s pg (startIdx c) ++ fileMatches s rest
  end.

(** The predicate of [s] can be evaluated on every live record of [pgs]
    without undefined behaviour. *)
Definition evaluable (s : HeapFileScan.t) (pgs : list Page.t) : Prop :=
  forall pg r, pg ∈ pgs -> Some r ∈ Page.slots pg ->
               HeapFileScan.matchRec s r <> None.

(** Fuel that is enough for any one scanNext over [pgs]. *)
Definition scanFuel (pgs : list Page.t) : nat :=
  S (List.length pgs + List.length (concat (map Page.slots pgs))).

End FilteredVocabulary.

(** ** Sample data *)

(** The first freed slot of a page, if any. *)
Fixpoint firstFreed (l : list (option Rec.t)) : option nat :=
  match l with
  | [] => None
  | None :: _ => Some 0%nat
  | Some _ :: l' => option_map S (firstFreed l')
  end.

(** A platform with 1024-byte pages, 20 bytes of fixed overhead and file
    names of up to 49 characters, whose page layer reuses the first freed
    slot.  No sample uses a FLOAT predicate, so [float_diff] is a
    constant. *)
Definition samplePlatform : Platform :=
  {| PAGESIZE := 1024; DPFIXED := 20; MAXNAMESIZE := 50;
     pickSlot := fun l _ => firstFreed l;
     float_diff := fun _ _ => FZero |}.

(** A handle on a file whose header is page 1 and whose first data page
    is page 2, as the constructor leaves it. *)
Definition sampleHandle : HeapFile.t :=
  HeapFile.mk (Some 1) 1 false (Some 2) 2 false NULLRID.

Definition sampleRec : Rec.t := Rec.mk [x07; x00; x00; x00] 4.

(** An unfiltered scan positioned at the beginning of the file. *)
Definition sampleScan : HeapFileScan.t :=
  HeapFileScan.mk sampleHandle 0 0 STRING None LT 0 NULLRID.

(** The predicate "the integer at offset 0 is less than 1", and a record
    whose integer at offset 0 is INT_MIN. *)
Definition lessThanOne : HeapFileScan.t :=
  HeapFileScan.mk sampleHandle 0 4 INTEGER (Some [x01; x00; x00; x00]) LT 0 NULLRID.

Definition intMinRec : Rec.t := Rec.mk [x00; x00; x00; x80] 4.

(** A file of two data pages: page 2 with two live records around a
    freed slot, linked to page 3 with one live record. *)
Definition samplePage2 : Page.t := Page.mk 2 3 [Some sampleRec; None; Some intMinRec].
Definition samplePage3 : Page.t := Page.mk 3 (-1) [Some sampleRec].

Definition sampleWorld : World :=
  mkWorld true (Some 1)
    (<[1 := Hdr (mkHdr [] 2 3 2 3)]>
       (<[2 := Data samplePage2]> (<[3 := Data samplePage3]> ∅)))
    [2; 1] [] [].

(** A file whose only data page is full, and a handle on it. *)
Definition fullPage : Page.t := Page.mk 2 (-1) [Some (Rec.mk [] 1004)].

Definition fullWorld : World :=
  mkWorld true (Some 1)
    (<[1 := Hdr (mkHdr [] 2 2 1 1)]> (<[2 := Data fullPage]> ∅))
    [2; 1] [] [].

(** A store without the file, and the same store when the fifth call
    into the storage layer fails. *)
Definition noFile : World := mkWorld false None ∅ [] [] [].

Definition failingAlloc : World :=
  mkWorld false None ∅ [] [OK; OK; OK; OK; OtherError 1] [].

(** The file of [sampleWorld] before it is opened, when the read of its
    first data page fails. *)
Definition failingRead : World :=
  mkWorld true (Some 1) (frames sampleWorld) [] [OK; OK; OK; OtherError 1] [].

(** The predicate "the integer at offset 0 equals 7". *)
Definition equalsSeven : HeapFileScan.t :=
  HeapFileScan.mk sampleHandle 0 4 INTEGER (Some [x07; x00; x00; x00]) EQ 0 NULLRID.

(** A scan on page 2 whose mark is the beginning of page 3, and a scan
    whose cursor is the first record of page 2. *)
Definition markedScan : HeapFileScan.t :=
  HeapFileScan.mk sampleHandle 0 0 STRING None LT 3 NULLRID.

Definition cursorScan : HeapFileScan.t :=
  HeapFileScan.mk (HeapFile.setCurRec (mkRID 2 0) sampleHandle)
                  0 0 STRING None LT 0 NULLRID.

(** A file of two data pages whose first page is full; [sampleHandle] is
    on that first page, as the constructor leaves it. *)
Definition fullPage2 : Page.t := Page.mk 2 3 [Some (Rec.mk [] 1004)].

Definition fullFirstWorld : World :=
  mkWorld true (Some 1)
    (<[1 := Hdr (mkHdr [] 2 3 2 2)]>
       (<[2 := Data fullPage2]> (<[3 := Data samplePage3]> ∅)))
    [2; 1] [] [].

(** The file of [sampleWorld] before any handle is open on it, and
    [sampleWorld] when the next call into the buffer pool fails. *)
Definition closedWorld : World :=
  mkWorld true (Some 1) (frames sampleWorld) [] [] [].

Definition failingUnpin : World :=
  mkWorld true (Some 1) (frames sampleWorld) [2; 1] [OtherError 1] [].


(** ** Machine-integer facts *)

Lemma wrap32_id z : is_int z -> wrap32 z = z.
Proof.
  unfold is_int, INT_MIN, INT_MAX, wrap32. intros Hz.
  rewrite Z.mod_small by lia. lia.
Qed.

Lemma wrap32_sub_wrap32 a b : wrap32 (wrap32 a - b) = wrap32 (a - b).
Proof.
  unfold wrap32.
  replace ((a + 2 ^ 31) mod 2 ^ 32 - 2 ^ 31 - b + 2 ^ 31)
    with ((a + 2 ^ 31) mod 2 ^ 32 - b) by lia.
  rewrite Zminus_mod_idemp_l. f_equal. f_equal. lia.
Qed.

Lemma to_size_t_eqb z k :
  is_int z -> 0 <= k <= INT_MAX -> (to_size_t z =? k) = (z =? k).
Proof.
  unfold is_int, INT_MIN, INT_MAX, to_size_t. intros Hz Hk.
  destruct (Z.eqb_spec z k) as [->|Hne].
  - rewrite Z.mod_small by lia. apply Z.eqb_refl.
  - apply Z.eqb_neq. destruct (Z_lt_le_dec z 0).
    + replace z with (z + 1 * 2 ^ 64 - 1 * 2 ^ 64) by lia.
      rewrite <- (Z.mod_add (z + 1 * 2 ^ 64 - 1 * 2 ^ 64) 1 (2 ^ 64)) by lia.
      replace (z + 1 * 2 ^ 64 - 1 * 2 ^ 64 + 1 * 2 ^ 64) with (z + 2 ^ 64) by lia.
      rewrite Z.mod_small by lia. lia.
    + rewrite Z.mod_small by lia. lia.
Qed.

Lemma to_unsigned_ge z : is_int z -> z <= to_unsigned z.
Proof.
  unfold is_int, INT_MIN, INT_MAX, to_unsigned. intros Hz.
  destruct (Z_lt_le_dec z 0).
  - pose proof (Z.mod_pos_bound z (2 ^ 32)). lia.
  - rewrite Z.mod_small by lia. lia.
Qed.

(** ** startScan *)

Section ScanParameters.
Context `{Platform}.

Lemma startScan_reject_iff offset_ length_ type_ op_ :
  is_int length_ ->
  ((offset_ <? 0) || (length_ <? 1))
  || (negb (type_ =? STRING) && negb (type_ =? INTEGER)
      && negb (type_ =? FLOAT))
  || (((type_ =? INTEGER) && negb (to_size_t length_ =? sizeof_int))
      || ((type_ =? FLOAT) && negb (to_size_t length_ =? sizeof_float)))
  || (negb (op_ =? LT) && negb (op_ =? LTE) && negb (op_ =? EQ)
      && negb (op_ =? GTE) && negb (op_ =? GT) && negb (op_ =? NE)) = true
  <-> badScanParm offset_ length_ type_ op_.
Proof.
  intros Hl.
  rewrite !(to_size_t_eqb length_) by (first [exact Hl | unfold sizeof_int, sizeof_float, INT_MAX; lia]).
  unfold badScanParm.
  rewrite !orb_true_iff, !andb_true_iff, !negb_true_iff,
    !Z.eqb_neq, !Z.eqb_eq, !Z.ltb_lt.
  tauto.
Qed.

(** C4.  startScan without a filter value succeeds and installs no
    predicate, so that every record matches; with a filter value it
    returns BADSCANPARM exactly for the parameters the specification
    lists, and then leaves the scan object as it was. *)
Theorem startScan_validation offset_ length_ type_ filter_ op_ s :
  is_int length_ ->
  match filter_ with
  | None =>
      HeapFileScan.startScan offset_ length_ type_ None op_ s
        = (OK, HeapFileScan.setFilter None s)
      /\ forall rec,
           HeapFileScan.matchRec (HeapFileScan.setFilter None s) rec = Some true
  | Some f =>
      (fst (HeapFileScan.startScan offset_ length_ type_ (Some f) op_ s)
         = BADSCANPARM <-> badScanParm offset_ length_ type_ op_)
      /\ (badScanParm offset_ length_ type_ op_ ->
          HeapFileScan.startScan offset_ length_ type_ (Some f) op_ s
            = (BADSCANPARM, s))
      /\ (~ badScanParm offset_ length_ type_ op_ ->
          HeapFileScan.startScan offset_ length_ type_ (Some f) op_ s
            = (OK, HeapFileScan.setPredicate offset_ length_ type_ (Some f) op_ s))
  end.
Proof.
  intros Hl. destruct filter_ as [f|].
  - pose proof (startScan_reject_iff offset_ length_ type_ op_ Hl) as Hiff.
    unfold HeapFileScan.startScan.
    destruct (_ || _ || _ || _) eqn:E.
    + assert (Hbad : badScanParm offset_ length_ type_ op_) by (apply Hiff; reflexivity).
      simpl. split; [tauto|]. split; [reflexivity|]. intros Hn. contradiction.
    + assert (Hgood : ~ badScanParm offset_ length_ type_ op_).
      { intros Hbad. apply Hiff in Hbad. discriminate. }
      simpl. split; [split; [discriminate|contradiction]|].
      split; [contradiction|reflexivity].
  - split; [reflexivity|]. intros rec. reflexivity.
Qed.

End ScanParameters.

(** ** matchRec *)

Section RecordFilter.
Context `{Platform}.



Lemma applyOp_float_of_int o d :
  HeapFileScan.applyOp o (float_of_int d) = true <-> signSatisfies o d.
Proof.
  unfold HeapFileScan.applyOp, signSatisfies, float_of_int, LT, LTE, EQ, GTE, GT, NE.
  repeat match goal with
         | |- context [?a =? ?b] => destruct (Z.eqb_spec a b)
         | |- context [?a <? ?b] => destruct (Z.ltb_spec a b)
         end; subst; split; intros; try discriminate; try lia; try reflexivity.
Qed.

(** Where the subtraction [iattr - ifltr] does not overflow, the integer
    comparison of matchRec is the comparison of the specification. *)
Lemma matchRec_integer_in_range s rec flt a f :
  HeapFileScan.filter s = Some flt ->
  HeapFileScan.type s = INTEGER ->
  HeapFileScan.length s = sizeof_int ->
  is_int (HeapFileScan.offset s + HeapFileScan.length s - 1) ->
  HeapFileScan.offset s + HeapFileScan.length s - 1 < Rec.length rec ->
  readBytes (Rec.data rec) (HeapFileScan.offset s) sizeof_int = Some a ->
  readBytes flt 0 sizeof_int = Some f ->
  is_int (int_of_bytes a - int_of_bytes f) ->
  exists b, HeapFileScan.matchRec s rec = Some b
    /\ (b = true <->
        signSatisfies (HeapFileScan.op s) (int_of_bytes a - int_of_bytes f)).
Proof.
  intros Hf Hty Hlen Hint Hin Ha Hfl Hdiff.
  unfold HeapFileScan.matchRec. rewrite Hf.
  rewrite wrap32_sub_wrap32, (wrap32_id _ Hint).
  rewrite Z.geb_leb.
  destruct (Z.leb_spec (Rec.length rec)
    (HeapFileScan.offset s + HeapFileScan.length s - 1)); [lia|].
  rewrite Hty, Hlen. cbn [Z.eqb INTEGER Pos.eqb].
  unfold loadObject. change (to_size_t sizeof_int) with sizeof_int.
  rewrite Z.eqb_refl, Ha, Hfl. rewrite (wrap32_id _ Hdiff).
  eexists. split; [reflexivity|]. apply applyOp_float_of_int.
Qed.

End RecordFilter.

(** C7 (the code departs from it).  matchRec computes the difference of
    the two integers as an [int], so the difference overflows for values
    far apart: the record whose field is INT_MIN does not match the
    predicate "field < 1", although the field is the smaller one. *)
Theorem matchRec_integer_overflow :
  int_of_bytes [x00; x00; x00; x80] = INT_MIN
  /\ int_of_bytes [x01; x00; x00; x00] = 1
  /\ signSatisfies (HeapFileScan.op lessThanOne)
       (int_of_bytes [x00; x00; x00; x80] - int_of_bytes [x01; x00; x00; x00])
  /\ @HeapFileScan.matchRec samplePlatform lessThanOne intMinRec = Some false.
Proof.
  split; [reflexivity|]. split; [reflexivity|]. split.
  - left. split; [reflexivity|]. vm_compute. reflexivity.
  - vm_compute. reflexivity.
Qed.

(** ** Operations on the record at the cursor *)

Section CursorOperations.
Context `{Platform}.

(** C9.  deleteRecord decrements the record count of the header and sets
    both dirty flags whatever status the page layer returns for the
    deletion: the status is handed back only after the bookkeeping. *)
Theorem deleteRecord_unconditional s w p pg hno hp :
  HeapFile.curPage (HeapFileScan.base s) = Some p ->
  frames w !! p = Some (Data pg) ->
  HeapFile.headerPage (HeapFileScan.base s) = Some hno ->
  frames w !! hno = Some (Hdr hp) ->
  exists s' w',
    HeapFileScan.deleteRecord s w
      = Done (fst (Page.deleteRecord pg (HeapFile.curRec (HeapFileScan.base s))),
              s', w')
    /\ HeapFile.curDirtyFlag (HeapFileScan.base s') = true
    /\ HeapFile.hdrDirtyFlag (HeapFileScan.base s') = true
    /\ HeapFile.getRecCnt (HeapFileScan.base s') w'
         = Done (wrap32 (recCnt hp - 1)).
Proof.
  intros Hcur Hpg Hhdr Hhp.
  assert (Hne : p <> hno) by (intros ->; rewrite Hpg in Hhp; discriminate).
  unfold HeapFileScan.deleteRecord, derefPage. rewrite Hcur, Hpg.
  destruct (Page.deleteRecord pg _) as [status pg'] eqn:Hdel.
  unfold HeapFile.updHeader, HeapFile.storeCurPage, derefHdr.
  cbn [HeapFile.headerPage HeapFile.setCurDirtyFlag HeapFile.setCur HeapFile.curPage].
  rewrite Hcur, Hhdr. cbn [setFrame setFrames frames].
  rewrite lookup_insert_ne by exact Hne. rewrite Hhp.
  eexists _, _. split; [reflexivity|].
  split; [reflexivity|]. split; [reflexivity|].
  unfold HeapFile.getRecCnt, derefHdr. cbn. rewrite Hhdr.
  cbn. rewrite lookup_insert_eq. reflexivity.
Qed.

(** C10, in the form that holds of the code.  HeapFileScan::getRecord
    has no NULL check: with no current page the call is a NULL
    dereference, not an error status; this is the state endScan leaves
    behind, whatever unPinPage returned. *)
Theorem getRecord_null_page s w :
  (HeapFile.curPage (HeapFileScan.base s) = None ->
   HeapFileScan.getRecord s w = Undefined)
  /\ (forall status s' w',
        HeapFileScan.endScan s w = (status, s', w') ->
        HeapFileScan.getRecord s' w' = Undefined).
Proof.
  split.
  - intros Hnull. unfold HeapFileScan.getRecord. rewrite Hnull. reflexivity.
  - intros status s' w'. unfold HeapFileScan.endScan.
    destruct (HeapFile.curPage (HeapFileScan.base s)) eqn:Hcur.
    + destruct (BufMgr.unPinPage _ _ w) as [st w1]. intros [= <- <- <-].
      reflexivity.
    + intros [= <- <- <-]. unfold HeapFileScan.getRecord. rewrite Hcur.
      reflexivity.
Qed.

(** C10 does not hold of a scan before its first scanNext: the
    constructor has pinned the first data page, so getRecord is defined
    there; with the cursor still NULLRID it returns the status the page
    layer has for that RID. *)
Lemma getRecord_after_construction :
  exists s w,
    HeapFileScan.ctor sampleScan closedWorld = Done (OK, s, w)
    /\ HeapFile.curPage (HeapFileScan.base s) = Some 2
    /\ HeapFile.curRec (HeapFileScan.base s) = NULLRID
    /\ HeapFileScan.getRecord s w = Done (INVALIDSLOTNO, None).
Proof.
  destruct (HeapFileScan.ctor sampleScan closedWorld)
    as [[[st s] w]| |] eqn:E; vm_compute in E; try discriminate.
  injection E as <- <- <-. eexists _, _. split; [reflexivity|].
  split; [reflexivity|]. split; reflexivity.
Qed.

(** C8.  markScan followed at once by resetScan changes nothing but the
    saved mark: resetScan finds the mark on the current page, makes no
    call into the buffer pool and restores the cursor it already has; so
    the next scanNext returns what it would have returned, and leaves
    the world and the scan as it would have left them, the mark apart. *)
Theorem markScan_resetScan_scanNext fuel s w :
  let s1 := snd (HeapFileScan.markScan s) in
  (forall s2 w2,
      HeapFileScan.markedPageNo s2 = HeapFile.curPageNo (HeapFileScan.base s2) ->
      HeapFileScan.resetScan s2 w2
        = (OK,
           HeapFileScan.setBase
             (HeapFile.setCurRec (HeapFileScan.markedRec s2) (HeapFileScan.base s2)) s2,
           w2))
  /\ HeapFileScan.resetScan s1 w = (OK, s1, w)
  /\ HeapFileScan.scanNext fuel s1 w
       = match HeapFileScan.scanNext fuel s w with
         | Done (status, rid, s', w') =>
             Done (status, rid,
                   HeapFileScan.setMark (HeapFile.curPageNo (HeapFileScan.base s))
                     (HeapFile.curRec (HeapFileScan.base s)) s', w')
         | Undefined => Undefined
         | OutOfFuel => OutOfFuel
         end.
Proof.
  assert (Hreset : forall s2 w2,
      HeapFileScan.markedPageNo s2 = HeapFile.curPageNo (HeapFileScan.base s2) ->
      HeapFileScan.resetScan s2 w2
        = (OK,
           HeapFileScan.setBase
             (HeapFile.setCurRec (HeapFileScan.markedRec s2) (HeapFileScan.base s2)) s2,
           w2)).
  { intros s2 w2 Heq. unfold HeapFileScan.resetScan.
    rewrite Heq, Z.eqb_refl. reflexivity. }
  assert (Hmatch : forall p r rec,
      HeapFileScan.matchRec (HeapFileScan.setMark p r s) rec
        = HeapFileScan.matchRec s rec) by reflexivity.
  assert (Hpage : forall p r n pg rid h,
      HeapFileScan.scanPage n (HeapFileScan.setMark p r s) pg rid h
        = HeapFileScan.scanPage n s pg rid h).
  { intros p r n. induction n as [|n IH]; intros pg rid h; [reflexivity|].
    cbn [HeapFileScan.scanPage].
    destruct (Page.getRecord pg rid) as [st [rec0|]]; destruct st; try reflexivity.
    rewrite Hmatch. repeat case_match; try reflexivity; apply IH. }
  assert (Hloop : forall p r n next h w0,
      HeapFileScan.scanLoop n (HeapFileScan.setMark p r s) next h w0
        = HeapFileScan.scanLoop n s next h w0).
  { intros p r n. induction n as [|n IH]; intros next h w0; [reflexivity|].
    cbn [HeapFileScan.scanLoop].
    repeat first [rewrite Hpage | rewrite IH | reflexivity | case_match]. }
  intros s1. split; [exact Hreset|]. split.
  - subst s1. rewrite Hreset by reflexivity.
    destruct s as [[hp hno hd cp cno cd cr] o l ty f op mp mr]. reflexivity.
  - subst s1. unfold HeapFileScan.scanNext, HeapFileScan.markScan. cbn [snd].
    rewrite Hloop. cbn [HeapFileScan.base HeapFileScan.setMark].
    destruct (HeapFileScan.scanLoop fuel s _ _ w) as [[[[st rid] h'] w']| |];
      reflexivity.
Qed.

End CursorOperations.

(** ** insertRecord: the size check *)

Section InsertSizeCheck.
Context `{Platform}.

(** C5.  A record longer than the payload of a page (PAGESIZE minus the
    fixed overhead DPFIXED) is rejected with INVALIDRECLEN before
    anything else happens: the handle and the world, and with it the
    pins, the pages, the header and the log of buffer-pool calls, are
    returned as they were. *)
Theorem insertRecord_rejects_oversized fuel rec h w :
  is_int (Rec.length rec) ->
  PAGESIZE - DPFIXED < Rec.length rec ->
  InsertFileScan.insertRecord fuel rec h w = Done (INVALIDRECLEN, None, h, w).
Proof.
  intros Hint Hlong. unfold InsertFileScan.insertRecord.
  pose proof (to_unsigned_ge _ Hint) as Hge.
  destruct (Z.gtb_spec (to_unsigned (Rec.length rec)) (PAGESIZE - DPFIXED));
    [reflexivity|lia].
Qed.

End InsertSizeCheck.

(** ** The buffer pool, call by call *)

Lemma unpin1_head p l : BufMgr.unpin1 p (p :: l) = Some l.
Proof. cbn. rewrite Z.eqb_refl. reflexivity. Qed.

Lemma freshPageNo_fresh (fr : gmap Z Frame) : fr !! BufMgr.freshPageNo fr = None.
Proof.
  destruct (fr !! BufMgr.freshPageNo fr) as [x|] eqn:E; [|reflexivity].
  exfalso. apply elem_of_map_to_list in E.
  assert (Hin : Z.to_nat (BufMgr.freshPageNo fr)
                ∈ Z.to_nat <$> (map_to_list fr).*1).
  { apply list_elem_of_fmap. exists (BufMgr.freshPageNo fr). split; [reflexivity|].
    apply list_elem_of_fmap. exists (BufMgr.freshPageNo fr, x). split; [reflexivity|exact E]. }
  apply max_list_elem_of_le in Hin. unfold BufMgr.freshPageNo in Hin at 1.
  rewrite Nat2Z.id in Hin. lia.
Qed.

Lemma notOK_match {A : Type} (st : Status) (a b : A) :
  st <> OK -> match st with OK => a | _ => b end = b.
Proof. destruct st; congruence. Qed.

Lemma readPage_inv p w st ptr w' :
  BufMgr.readPage p w = (st, ptr, w') ->
  frames w' = frames w /\ faults w' = tail (faults w)
  /\ ((st = OK /\ ptr = Some p /\ is_Some (frames w !! p)
       /\ pinned w' = p :: pinned w
       /\ log w' = mkEvent (ReadPage p) OK (p :: pinned w) :: log w)
      \/ (st <> OK /\ ptr = None /\ pinned w' = pinned w
          /\ log w' = mkEvent (ReadPage p) st (pinned w) :: log w)).
Proof.
  unfold BufMgr.readPage, nextFault.
  destruct (faults w) as [|s fs] eqn:Hf; [|destruct s]; cbn;
    try (intros [= <- <- <-]; cbn; rewrite ?Hf; split; [reflexivity|];
         split; [reflexivity|]; right; repeat split; congruence).
  all: destruct (frames w !! p) eqn:Hp; intros [= <- <- <-]; cbn; rewrite ?Hf;
    (split; [reflexivity|]); (split; [reflexivity|]);
    first [ left; repeat split; eauto; fail | right; repeat split; congruence ].
Qed.

Lemma unPinPage_inv p d w st w' :
  BufMgr.unPinPage p d w = (st, w') ->
  frames w' = frames w /\ faults w' = tail (faults w)
  /\ ((st = OK /\ BufMgr.unpin1 p (pinned w) = Some (pinned w')
       /\ log w' = mkEvent (UnPinPage p d) OK (pinned w') :: log w)
      \/ (st <> OK /\ pinned w' = pinned w
          /\ log w' = mkEvent (UnPinPage p d) st (pinned w) :: log w)).
Proof.
  unfold BufMgr.unPinPage, nextFault.
  destruct (faults w) as [|s fs] eqn:Hf; [|destruct s]; cbn;
    try (intros [= <- <-]; cbn; rewrite ?Hf; split; [reflexivity|];
         split; [reflexivity|]; right; repeat split; congruence).
  all: destruct (BufMgr.unpin1 p (pinned w)) eqn:Hp; intros [= <- <-]; cbn; rewrite ?Hf;
    (split; [reflexivity|]); (split; [reflexivity|]);
    first [ left; repeat split; eauto; fail | right; repeat split; congruence ].
Qed.

Lemma allocPage_inv w st ptr w' :
  BufMgr.allocPage w = (st, ptr, w') ->
  faults w' = tail (faults w)
  /\ ((st = OK /\ ptr = Some (BufMgr.freshPageNo (frames w))
       /\ frames w' = <[BufMgr.freshPageNo (frames w) := Raw]> (frames w)
       /\ pinned w' = BufMgr.freshPageNo (frames w) :: pinned w
       /\ log w' = mkEvent AllocPage OK (BufMgr.freshPageNo (frames w) :: pinned w)
                     :: log w)
      \/ (st <> OK /\ ptr = None /\ frames w' = frames w /\ pinned w' = pinned w
          /\ log w' = mkEvent AllocPage st (pinned w) :: log w)).
Proof.
  unfold BufMgr.allocPage, nextFault.
  destruct (faults w) as [|s fs] eqn:Hf; [|destruct s]; cbn;
    intros [= <- <- <-]; cbn; rewrite ?Hf; (split; [reflexivity|]);
    first [ left; repeat split; reflexivity | right; repeat split; congruence ].
Qed.

(** ** insertRecord: the retry loop *)

Section InsertRetry.
Context `{Platform}.

Lemma slotFor_nil rec : Page.slotFor [] rec = 0%nat.
Proof. unfold Page.slotFor. destruct (pickSlot [] rec); reflexivity. Qed.

(** The slot of a new record is a freed slot or a new one. *)
Lemma slotFor_spec l rec :
  Page.slotFor l rec = List.length l \/ l !! Page.slotFor l rec = Some None.
Proof.
  unfold Page.slotFor. destruct (pickSlot l rec) as [j|]; [|auto].
  destruct (l !! j) as [[x|]|] eqn:E; auto.
Qed.

(** The new record is in the slot it was given. *)
Lemma putSlot_lookup l rec :
  Page.putSlot l (Page.slotFor l rec) rec !! Page.slotFor l rec = Some (Some rec).
Proof.
  unfold Page.putSlot.
  destruct (Nat.ltb_spec (Page.slotFor l rec) (List.length l)) as [Hlt|Hge].
  - apply list_lookup_insert_eq. exact Hlt.
  - destruct (slotFor_spec l rec) as [E|E].
    + rewrite E, lookup_app_r by reflexivity. rewrite Nat.sub_diag. reflexivity.
    + apply lookup_lt_Some in E. lia.
Qed.

Lemma insertRecord_fresh_page n rec :
  Rec.length rec <= PAGESIZE - DPFIXED ->
  Page.insertRecord (Page.init n) rec
    = (OK, Some {| pageNo := n; slotNo := 0 |},
       Page.mk n (-1) [Some rec]).
Proof.
  intros Hle. unfold Page.insertRecord, Page.freeSpace, Page.usedSpace. cbn.
  rewrite slotFor_nil.
  destruct (Z.leb_spec (Rec.length rec) (PAGESIZE - DPFIXED - 0)); [reflexivity|lia].
Qed.

Lemma insertRecord_status pg rec :
  (exists rid pg', Page.insertRecord pg rec = (OK, Some rid, pg'))
  \/ Page.insertRecord pg rec = (NOSPACE, None, pg).
Proof.
  unfold Page.insertRecord. destruct (_ <=? _); eauto.
Qed.




End InsertRetry.

(** ** scanNext over a whole file *)

Section PageOrder.

Lemma findLive_None l p i :
  Page.findLive l i = None -> Page.liveFrom l p i = [].
Proof.
  revert i. induction l as [|[r|] l IH]; intros i; cbn; [reflexivity|discriminate|].
  apply IH.
Qed.

Lemma findLive_Some l p i j :
  Page.findLive l i = Some j ->
  i <= j
  /\ (exists r, l !! Z.to_nat (j - i) = Some (Some r))
  /\ Page.liveFrom l p i
     = {| pageNo := p; slotNo := j |}
         :: Page.liveFrom (drop (S (Z.to_nat (j - i))) l) p (j + 1).
Proof.
  revert i. induction l as [|[r|] l IH]; intros i; cbn; [discriminate| |].
  - intros [= <-]. rewrite Z.sub_diag. cbn. split; [lia|]. split; [eauto|].
    rewrite drop_0. reflexivity.
  - intros Hf. destruct (IH _ Hf) as (Hle & (r & Hr) & Heq).
    split; [lia|].
    replace (Z.to_nat (j - i)) with (S (Z.to_nat (j - (i + 1)))) by lia.
    cbn. split; [eauto|]. exact Heq.
Qed.

Lemma liveAfter_None pg k :
  Page.findLive (drop (Z.to_nat k) (Page.slots pg)) k = None ->
  liveAfter pg k = [].
Proof. apply findLive_None. Qed.

Lemma liveAfter_Some pg k j :
  0 <= k ->
  Page.findLive (drop (Z.to_nat k) (Page.slots pg)) k = Some j ->
  0 <= j
  /\ (exists r, Page.slotAt pg j = Some r)
  /\ liveAfter pg k = {| pageNo := Page.curPage pg; slotNo := j |} :: liveAfter pg (j + 1).
Proof.
  intros Hk Hf.
  destruct (findLive_Some _ (Page.curPage pg) _ _ Hf) as (Hle & (r & Hr) & Heq).
  split; [lia|]. split.
  - exists r. unfold Page.slotAt.
    destruct (Z.ltb_spec j 0); [lia|].
    rewrite lookup_drop in Hr.
    replace (Z.to_nat k + Z.to_nat (j - k))%nat with (Z.to_nat j) in Hr by lia.
    rewrite Hr. reflexivity.
  - unfold liveAfter. rewrite Heq. f_equal. rewrite drop_drop.
    f_equal. f_equal. lia.
Qed.

Lemma liveAfter_0 pg : liveAfter pg 0 = Page.liveRids pg.
Proof. unfold liveAfter, Page.liveRids. cbn. rewrite drop_0. reflexivity. Qed.

Lemma remaining_NULLRID pgs : remaining NULLRID pgs = fileRids pgs.
Proof.
  destruct pgs as [|pg rest]; [reflexivity|].
  unfold remaining, fileRids. cbn. rewrite liveAfter_0. reflexivity.
Qed.

Lemma startIdx_found p j : 0 <= j -> startIdx {| pageNo := p; slotNo := j |} = j + 1.
Proof.
  intros Hj. unfold startIdx, is_NULLRID, NULLRID. cbn.
  destruct (Z.eqb_spec j (-1)); [lia|]. rewrite andb_false_r. lia.
Qed.

Lemma startIdx_nonneg c : 0 <= startIdx c.
Proof. unfold startIdx. destruct (is_NULLRID c); lia. Qed.

End PageOrder.

Lemma readPage_ok p w fr :
  faults w = [] -> frames w !! p = Some fr ->
  exists w', BufMgr.readPage p w = (OK, Some p, w')
    /\ frames w' = frames w /\ faults w' = [] /\ pinned w' = p :: pinned w.
Proof.
  intros Hf Hp. unfold BufMgr.readPage, nextFault. rewrite Hf, Hp.
  eexists. split; [reflexivity|]. cbn. rewrite Hf. auto.
Qed.

Lemma unPinPage_ok p d w tl :
  faults w = [] -> pinned w = p :: tl ->
  exists w', BufMgr.unPinPage p d w = (OK, w')
    /\ frames w' = frames w /\ faults w' = [] /\ pinned w' = tl.
Proof.
  intros Hf Hp. unfold BufMgr.unPinPage, nextFault. rewrite Hf, Hp, unpin1_head.
  eexists. split; [reflexivity|]. cbn. rewrite Hf. auto.
Qed.

Section UnfilteredScan.
Context `{Platform}.

Lemma scanLoop_unfiltered s tl :
  HeapFileScan.filter s = None ->
  forall pgs fuel p h w,
    chain (frames w) p pgs -> faults w = [] ->
    (List.length pgs < fuel)%nat ->
    pinned w = pinsOf h tl ->
    match remaining (HeapFile.curRec h) pgs with
    | [] =>
        exists h' w',
          HeapFileScan.scanLoop fuel s p h w = Done (FILEEOF, None, h', w')
    | r :: rem' =>
        exists h' w' pgs',
          HeapFileScan.scanLoop fuel s p h w = Done (OK, Some r, h', w')
          /\ chain (frames w') (HeapFile.curPageNo h') pgs'
          /\ faults w' = []
          /\ (List.length pgs' <= List.length pgs)%nat
          /\ pinned w' = pinsOf h' tl
          /\ remaining (HeapFile.curRec h') pgs' = rem'
    end.
Proof.
  intros Hnofilter pgs.
  induction pgs as [|pg rest IH]; intros fuel p h w Hchain Hfaults Hfuel Hpins.
  - cbn in Hchain. subst p. destruct fuel as [|fuel]; [cbn in Hfuel; lia|].
    cbn. eauto.
  - destruct Hchain as (Hp & Hframe & Hself & Hrest).
    destruct fuel as [|fuel]; [cbn in Hfuel; lia|].
    cbn [List.length] in Hfuel.
    cbn [HeapFileScan.scanLoop].
    destruct (Z.eqb_spec p (-1)) as [|_]; [contradiction|].
    (* the unpin of the page held, if any *)
    assert (Hunpin : exists w1,
      match HeapFile.curPage h with
      | Some _ => BufMgr.unPinPage (HeapFile.curPageNo h) (HeapFile.curDirtyFlag h) w
      | None => (OK, w)
      end = (OK, w1)
      /\ frames w1 = frames w /\ faults w1 = [] /\ pinned w1 = tl).
    { unfold pinsOf in Hpins. destruct (HeapFile.curPage h).
      - apply unPinPage_ok; assumption.
      - exists w. auto. }
    destruct Hunpin as (w1 & -> & Hfr1 & Hfa1 & Hpin1).
    destruct (readPage_ok p w1 (Data pg) Hfa1) as (w2 & -> & Hfr2 & Hfa2 & Hpin2);
      [rewrite Hfr1; exact Hframe|].
    set (h1 := HeapFile.setCur (Some p) p false h).
    unfold derefPage. cbn [HeapFile.curPage HeapFile.setCur h1].
    rewrite Hfr2, Hfr1, Hframe.
    change (HeapFile.curRec h1) with (HeapFile.curRec h).
    assert (Hpins2 : forall c, pinned w2 = pinsOf (HeapFile.setCurRec c h1) tl).
    { intros c. rewrite Hpin2, Hpin1. reflexivity. }
    assert (Hchain2 : chain (frames w2) p (pg :: rest)).
    { rewrite Hfr2, Hfr1. cbn. auto. }
    assert (Hrest2 : chain (frames w2) (Page.nextPage pg) rest).
    { rewrite Hfr2, Hfr1. exact Hrest. }
    (* what the search on the page finds is the head of the remaining list *)
    assert (Hfound : forall j,
      Page.findLive (drop (Z.to_nat (startIdx (HeapFile.curRec h))) (Page.slots pg))
                    (startIdx (HeapFile.curRec h)) = Some j ->
      match remaining (HeapFile.curRec h) (pg :: rest) with
      | [] => False
      | r :: rem' =>
          r = {| pageNo := Page.curPage pg; slotNo := j |}
          /\ HeapFileScan.scanPage (S fuel) s pg r h1
             = Done (HeapFileScan.Found r, HeapFile.setCurRec r h1)
          /\ remaining r (pg :: rest) = rem'
      end).
    { intros j Hj.
      destruct (liveAfter_Some pg _ j (startIdx_nonneg _) Hj) as (Hj0 & (r & Hr) & Heq).
      unfold remaining at 1. rewrite Heq. cbn [app].
      split; [reflexivity|]. split.
      - cbn [HeapFileScan.scanPage]. unfold Page.getRecord. cbn [slotNo].
        rewrite Hr. unfold HeapFileScan.matchRec. rewrite Hnofilter. reflexivity.
      - unfold remaining. rewrite startIdx_found by exact Hj0. reflexivity. }
    assert (Hnone :
      Page.findLive (drop (Z.to_nat (startIdx (HeapFile.curRec h))) (Page.slots pg))
                    (startIdx (HeapFile.curRec h)) = None ->
      remaining (HeapFile.curRec h) (pg :: rest) = remaining NULLRID rest).
    { intros Hn. unfold remaining at 1. rewrite (liveAfter_None pg _ Hn).
      rewrite remaining_NULLRID. reflexivity. }
    assert (Hadvance : forall h2,
      HeapFile.curRec h2 = NULLRID -> pinned w2 = pinsOf h2 tl ->
      remaining (HeapFile.curRec h) (pg :: rest) = remaining NULLRID rest ->
      match remaining (HeapFile.curRec h) (pg :: rest) with
      | [] =>
          exists h' w',
            HeapFileScan.scanLoop fuel s (Page.nextPage pg) h2 w2
              = Done (FILEEOF, None, h', w')
      | r :: rem' =>
          exists h' w' pgs',
            HeapFileScan.scanLoop fuel s (Page.nextPage pg) h2 w2
              = Done (OK, Some r, h', w')
            /\ chain (frames w') (HeapFile.curPageNo h') pgs'
            /\ faults w' = []
            /\ (List.length pgs' <= List.length (pg :: rest))%nat
            /\ pinned w' = pinsOf h' tl
            /\ remaining (HeapFile.curRec h') pgs' = rem'
      end).
    { intros h2 Hc2 Hp2 Hrem. rewrite Hrem.
      pose proof (IH fuel (Page.nextPage pg) h2 w2 Hrest2 Hfa2 ltac:(lia) Hp2) as IH2.
      rewrite Hc2 in IH2.
      destruct (remaining NULLRID rest) as [|r rem']; [exact IH2|].
      destruct IH2 as (h' & w' & pgs' & Hrun & Hc & Hf & Hl & Hpn & Hr).
      exists h', w', pgs'. cbn [List.length]. repeat split; auto. }
    unfold startIdx in Hfound, Hnone.
    destruct (is_NULLRID (HeapFile.curRec h)) eqn:Enull.
    + (* fresh on the page: firstRecord *)
      unfold Page.firstRecord. cbn [drop Z.to_nat] in Hfound, Hnone.
      destruct (Page.findLive (Page.slots pg) 0) as [j|] eqn:Efirst.
      * specialize (Hfound j Efirst). cbn [negb].
        destruct (remaining (HeapFile.curRec h) (pg :: rest)) as [|r rem'];
          [contradiction|].
        destruct Hfound as (-> & Hscan & Hrem). rewrite Hscan.
        eexists _, w2, (pg :: rest). split; [reflexivity|].
        split; [exact Hchain2|]. split; [exact Hfa2|]. split; [lia|].
        split; [apply Hpins2|exact Hrem].
      * apply Hadvance;
          [ | rewrite Hpin2, Hpin1; reflexivity | apply Hnone; exact Efirst].
        unfold is_NULLRID in Enull. apply andb_true_iff in Enull as [E1 E2].
        apply Z.eqb_eq in E1, E2. change (HeapFile.curRec h1) with (HeapFile.curRec h).
        destruct (HeapFile.curRec h) as [a b]. cbn in E1, E2. subst. reflexivity.
    + (* after the cursor: nextRecord *)
      cbn [negb]. unfold Page.nextRecord.
      destruct (Page.findLive _ _) as [j|] eqn:Enext.
      * specialize (Hfound j eq_refl).
        destruct (remaining (HeapFile.curRec h) (pg :: rest)) as [|r rem'];
          [contradiction|].
        destruct Hfound as (-> & Hscan & Hrem). rewrite Hscan.
        eexists _, w2, (pg :: rest). split; [reflexivity|].
        split; [exact Hchain2|]. split; [exact Hfa2|]. split; [lia|].
        split; [apply Hpins2|exact Hrem].
      * apply Hadvance; [reflexivity | apply Hpins2 | apply Hnone; reflexivity].
Qed.

End UnfilteredScan.

Section ChainFacts.

Lemma chain_functional fr p l1 l2 : chain fr p l1 -> chain fr p l2 -> l1 = l2.
Proof.
  revert p l2. induction l1 as [|pg1 l1 IH]; intros p [|pg2 l2]; cbn.
  - reflexivity.
  - intros -> (Hp & _). contradiction.
  - intros (Hp & _) ->. contradiction.
  - intros (_ & Hf1 & _ & Hc1) (_ & Hf2 & _ & Hc2).
    rewrite Hf1 in Hf2. injection Hf2 as <-. f_equal. eapply IH; eassumption.
Qed.

Lemma chain_member fr p pgs pg :
  chain fr p pgs -> pg ∈ pgs ->
  exists l1 l2, pgs = l1 ++ pg :: l2 /\ chain fr (Page.curPage pg) (pg :: l2).
Proof.
  revert p. induction pgs as [|pg0 rest IH]; intros p Hc Hin.
  - inversion Hin.
  - apply elem_of_cons in Hin as [->|Hin].
    + exists [], rest. split; [reflexivity|].
      destruct Hc as (Hp & Hf & Hs & Hr). rewrite Hs. cbn. auto.
    + destruct Hc as (_ & _ & _ & Hr).
      destruct (IH _ Hr Hin) as (l1 & l2 & -> & Hc').
      exists (pg0 :: l1), l2. split; [reflexivity|exact Hc'].
Qed.

Lemma chain_NoDup fr p pgs : chain fr p pgs -> NoDup (Page.curPage <$> pgs).
Proof.
  revert p. induction pgs as [|pg rest IH]; intros p Hc; cbn.
  - constructor.
  - pose proof Hc as (Hp & Hf & Hs & Hr). constructor; [|eapply IH; exact Hr].
    intros Hin. apply list_elem_of_fmap in Hin as (pg' & Heq & Hin).
    destruct (chain_member _ _ _ _ Hr Hin) as (l1 & l2 & -> & Hc').
    rewrite <- Heq, Hs in Hc'.
    pose proof (chain_functional _ _ _ _ Hc Hc') as E.
    apply (f_equal List.length) in E. cbn in E. rewrite length_app in E.
    cbn in E. lia.
Qed.

Lemma liveFrom_bounds l p i r :
  r ∈ Page.liveFrom l p i -> pageNo r = p /\ i <= slotNo r.
Proof.
  revert i. induction l as [|[x|] l IH]; intros i; cbn; intros Hin.
  - inversion Hin.
  - apply elem_of_cons in Hin as [->|Hin]; [cbn; lia|].
    destruct (IH _ Hin). lia.
  - destruct (IH _ Hin). lia.
Qed.

Lemma liveFrom_NoDup l p i : NoDup (Page.liveFrom l p i).
Proof.
  revert i. induction l as [|[x|] l IH]; intros i; cbn; [constructor| |apply IH].
  constructor; [|apply IH].
  intros Hin. apply liveFrom_bounds in Hin as [_ Hle]. cbn in Hle. lia.
Qed.

Lemma fileRids_pageNo pgs r :
  r ∈ fileRids pgs -> pageNo r ∈ Page.curPage <$> pgs.
Proof.
  unfold fileRids. induction pgs as [|pg rest IH]; cbn; intros Hin.
  - inversion Hin.
  - apply elem_of_app in Hin as [Hin|Hin].
    + apply liveFrom_bounds in Hin as [-> _]. apply elem_of_cons. auto.
    + apply elem_of_cons. right. apply IH. exact Hin.
Qed.

Lemma fileRids_NoDup pgs : NoDup (Page.curPage <$> pgs) -> NoDup (fileRids pgs).
Proof.
  induction pgs as [|pg rest IH]; intros Hnd.
  - constructor.
  - cbn in Hnd. apply NoDup_cons in Hnd as [Hnotin Hnd].
    unfold fileRids. cbn. apply NoDup_app. split; [apply liveFrom_NoDup|].
    split; [|apply IH; exact Hnd].
    intros r Hin1 Hin2. apply liveFrom_bounds in Hin1 as [Hp _].
    apply fileRids_pageNo in Hin2. rewrite Hp in Hin2. contradiction.
Qed.

End ChainFacts.

Section WholeFile.
Context `{Platform}.

Lemma scanMany_unfiltered fuel tl rem :
  forall s w pgs,
    HeapFileScan.filter s = None ->
    chain (frames w) (HeapFile.curPageNo (HeapFileScan.base s)) pgs ->
    faults w = [] ->
    (List.length pgs < fuel)%nat ->
    pinned w = pinsOf (HeapFileScan.base s) tl ->
    remaining (HeapFile.curRec (HeapFileScan.base s)) pgs = rem ->
    exists s' w',
      scanMany fuel (S (List.length rem)) s w = Done (rem, FILEEOF, s', w').
Proof.
  induction rem as [|r rem IH]; intros s w pgs Hnf Hchain Hfa Hfuel Hpins Hrem.
  - pose proof (scanLoop_unfiltered s tl Hnf pgs fuel _ _ w Hchain Hfa Hfuel Hpins) as Hstep.
    rewrite Hrem in Hstep. destruct Hstep as (h' & w' & Hrun).
    cbn. unfold HeapFileScan.scanNext. rewrite Hrun. eauto.
  - pose proof (scanLoop_unfiltered s tl Hnf pgs fuel _ _ w Hchain Hfa Hfuel Hpins) as Hstep.
    rewrite Hrem in Hstep.
    destruct Hstep as (h' & w' & pgs' & Hrun & Hc & Hf & Hl & Hp & Hr).
    assert (Hnf' : HeapFileScan.filter (HeapFileScan.setBase h' s) = None)
      by (destruct s; exact Hnf).
    destruct (IH (HeapFileScan.setBase h' s) w' pgs' Hnf' Hc Hf ltac:(lia) Hp Hr)
      as (s' & w'' & Hmany).
    change (scanMany fuel (S (List.length (r :: rem))) s w)
      with (match HeapFileScan.scanNext fuel s w with
            | Done (OK, Some rid, s, w) =>
                match scanMany fuel (S (List.length rem)) s w with
                | Done (rids, status, s, w) => Done (rid :: rids, status, s, w)
                | Undefined => Undefined
                | OutOfFuel => OutOfFuel
                end
            | Done (OK, None, _, _) => Undefined
            | Done (status, _, s, w) => Done ([], status, s, w)
            | Undefined => Undefined
            | OutOfFuel => OutOfFuel
            end).
    unfold HeapFileScan.scanNext. rewrite Hrun, Hmany. eauto.
Qed.

(** C1.  An unfiltered scan positioned at the beginning of a file (cursor
    NULLRID, first data page current) whose page chain holds M live
    records: M calls of scanNext return OK with the live records, page
    by page along the chain and in slot order within a page, no record
    twice, and call M+1 returns FILEEOF. *)
Theorem scanNext_visits_live_records s w pgs :
  HeapFileScan.filter s = None ->
  HeapFile.curRec (HeapFileScan.base s) = NULLRID ->
  chain (frames w) (HeapFile.curPageNo (HeapFileScan.base s)) pgs ->
  faults w = [] ->
  owns (HeapFileScan.base s) w ->
  NoDup (fileRids pgs)
  /\ exists fuel0, forall fuel, (fuel0 <= fuel)%nat ->
       exists s' w',
         scanMany fuel (S (List.length (fileRids pgs))) s w
           = Done (fileRids pgs, FILEEOF, s', w').
Proof.
  intros Hnf Hcur Hchain Hfa Howns. split.
  - apply fileRids_NoDup. eapply chain_NoDup. exact Hchain.
  - exists (S (List.length pgs)). intros fuel Hfuel.
    apply (scanMany_unfiltered fuel [HeapFile.headerPageNo (HeapFileScan.base s)]
             (fileRids pgs) s w pgs Hnf Hchain Hfa); [lia| |].
    + unfold owns, handlePins in Howns. unfold pinsOf.
      destruct (HeapFile.curPage (HeapFileScan.base s)); exact Howns.
    + rewrite Hcur. apply remaining_NULLRID.
Qed.

End WholeFile.

(** ** The pin discipline *)

Section Tracking.

Lemma tracked_refl k w (good : Prop) : good -> tracked k w w good.
Proof. intros Hg. exists []. split; [reflexivity|]. split; [constructor|auto]. Qed.

Lemma tracked_same_log k w w' (good : Prop) :
  log w' = log w -> good -> tracked k w w' good.
Proof. intros Hl Hg. exists []. split; [exact Hl|]. split; [constructor|auto]. Qed.

Lemma tracked_mono k w w' (good good' : Prop) :
  (good -> good') -> tracked k w w' good -> tracked k w w' good'.
Proof. intros Himp (evs & Hl & Hp & Hg). exists evs. auto. Qed.

(** A successful call, followed by more calls. *)
Lemma tracked_cons k w w1 w' e (good : Prop) :
  log w1 = e :: log w -> pinsAtMost k e ->
  tracked k w1 w' good -> tracked k w w' good.
Proof.
  intros Hl1 Hpin (evs & Hl & Hp & Hg).
  exists (evs ++ [e]). split; [rewrite Hl, Hl1, <- app_assoc; reflexivity|].
  split.
  - apply Forall_app. split; [exact Hp|]. constructor; [exact Hpin|constructor].
  - intros Hall. apply Forall_app in Hall as [Hall _]. auto.
Qed.

(** A failed call ends the obligations. *)
Lemma tracked_failed k w w1 e (good : Prop) :
  log w1 = e :: log w -> pinsAtMost k e -> ev_status e <> OK ->
  tracked k w w1 good.
Proof.
  intros Hl1 Hpin Hst. exists [e]. split; [exact Hl1|].
  split; [constructor; [exact Hpin|constructor]|].
  intros Hall. inversion Hall as [|? ? Hs _]. contradiction.
Qed.

(** A failed call after which the code goes on calling. *)
Lemma tracked_cons_failed k w w1 w' e (good : Prop) :
  log w1 = e :: log w -> pinsAtMost k e -> ev_status e <> OK ->
  tracked k w1 w' True -> tracked k w w' good.
Proof.
  intros Hl1 Hpin Hst (evs & Hl & Hp & _).
  exists (evs ++ [e]). split; [rewrite Hl, Hl1, <- app_assoc; reflexivity|].
  split.
  - apply Forall_app. split; [exact Hp|]. constructor; [exact Hpin|constructor].
  - intros Hall. apply Forall_app in Hall as [_ Hall].
    inversion Hall as [|? ? Hs _]. contradiction.
Qed.

(** readPage on top of the pins [l]. *)
Lemma readPage_tracked k p w st ptr w1 :
  (S (List.length (pinned w)) <= k)%nat ->
  BufMgr.readPage p w = (st, ptr, w1) ->
  frames w1 = frames w
  /\ ((st = OK /\ ptr = Some p /\ pinned w1 = p :: pinned w
       /\ forall w' good, tracked k w1 w' good -> tracked k w w' good)
      \/ (st <> OK /\ ptr = None /\ pinned w1 = pinned w
          /\ forall good, tracked k w w1 good)).
Proof.
  intros Hk Hread.
  apply readPage_inv in Hread
    as (Hfr & _ & [(-> & -> & _ & Hpin & Hlog)|(Hst & -> & Hpin & Hlog)]).
  - split; [exact Hfr|]. left. repeat split; auto.
    intros w' good. apply (tracked_cons _ _ _ _ _ _ Hlog).
    unfold pinsAtMost. cbn. lia.
  - split; [exact Hfr|]. right. repeat split; auto.
    intros good. apply (tracked_failed _ _ _ _ _ Hlog); [|exact Hst].
    unfold pinsAtMost. cbn. lia.
Qed.

Lemma unpin1_length p l l' :
  BufMgr.unpin1 p l = Some l' -> List.length l = S (List.length l').
Proof.
  revert l'. induction l as [|q l IH]; intros l'; cbn; [discriminate|].
  destruct (q =? p); [intros [= ->]; reflexivity|].
  destruct (BufMgr.unpin1 p l) as [l0|]; cbn; [|discriminate].
  intros [= <-]. cbn. rewrite (IH l0 eq_refl). reflexivity.
Qed.

Lemma unPinPage_tracked k p d w st w1 :
  (List.length (pinned w) <= k)%nat ->
  BufMgr.unPinPage p d w = (st, w1) ->
  frames w1 = frames w
  /\ ((st = OK /\ BufMgr.unpin1 p (pinned w) = Some (pinned w1)
       /\ forall w' good, tracked k w1 w' good -> tracked k w w' good)
      \/ (st <> OK /\ pinned w1 = pinned w
          /\ forall good, tracked k w w1 good)).
Proof.
  intros Hk Hun.
  apply unPinPage_inv in Hun
    as (Hfr & _ & [(-> & Hpin & Hlog)|(Hst & Hpin & Hlog)]).
  - split; [exact Hfr|]. left. repeat split; auto.
    intros w' good. apply (tracked_cons _ _ _ _ _ _ Hlog).
    unfold pinsAtMost. cbn. apply unpin1_length in Hpin. lia.
  - split; [exact Hfr|]. right. repeat split; auto.
    intros good. apply (tracked_failed _ _ _ _ _ Hlog); [|exact Hst].
    unfold pinsAtMost. cbn. lia.
Qed.

Lemma allocPage_tracked k w st ptr w1 :
  (S (List.length (pinned w)) <= k)%nat ->
  BufMgr.allocPage w = (st, ptr, w1) ->
  (st = OK /\ ptr = Some (BufMgr.freshPageNo (frames w))
   /\ frames w1 = <[BufMgr.freshPageNo (frames w) := Raw]> (frames w)
   /\ pinned w1 = BufMgr.freshPageNo (frames w) :: pinned w
   /\ forall w' good, tracked k w1 w' good -> tracked k w w' good)
  \/ (st <> OK /\ ptr = None /\ frames w1 = frames w /\ pinned w1 = pinned w
      /\ forall good, tracked k w w1 good).
Proof.
  intros Hk Hal.
  apply allocPage_inv in Hal
    as (_ & [(-> & -> & Hfr & Hpin & Hlog)|(Hst & -> & Hfr & Hpin & Hlog)]).
  - left. repeat split; auto.
    intros w' good. apply (tracked_cons _ _ _ _ _ _ Hlog).
    unfold pinsAtMost. cbn. lia.
  - right. repeat split; auto.
    intros good. apply (tracked_failed _ _ _ _ _ Hlog); [|exact Hst].
    unfold pinsAtMost. cbn. lia.
Qed.

(** The unpin of the current page, if the handle records one. *)
Lemma unpinCurrent_tracked k h w st w1 d :
  (2 <= k)%nat -> owns h w ->
  match HeapFile.curPage h with
  | Some _ => BufMgr.unPinPage (HeapFile.curPageNo h) d w
  | None => (OK, w)
  end = (st, w1) ->
  frames w1 = frames w
  /\ ((st = OK /\ pinned w1 = [HeapFile.headerPageNo h]
       /\ forall w' good, tracked k w1 w' good -> tracked k w w' good)
      \/ (st <> OK /\ forall good, tracked k w w1 good)).
Proof.
  intros Hk Howns. unfold owns, handlePins in Howns.
  destruct (HeapFile.curPage h).
  - intros Hun.
    apply (unPinPage_tracked k) in Hun as (Hfr & [(-> & Hpin & Hc)|(Hst & _ & Hc)]);
      [ | | rewrite Howns; cbn; lia].
    + split; [exact Hfr|]. left. split; [reflexivity|]. split; [|exact Hc].
      rewrite Howns, unpin1_head in Hpin. congruence.
    + split; [exact Hfr|]. right. auto.
  - intros [= <- <-]. split; [reflexivity|]. left. auto.
Qed.

End Tracking.

Section HandleOperations.
Context `{Platform}.

Lemma getRecord_tracked rid h w st rec h' w' :
  owns h w ->
  HeapFile.getRecord rid h w = Done (st, rec, h', w') ->
  tracked 2 w w' (owns h' w').
Proof.
  intros Howns. unfold HeapFile.getRecord.
  destruct (bool_decide _ || negb _).
  - destruct (match HeapFile.curPage h with Some _ => _ | None => _ end)
      as [st1 w1] eqn:Eun.
    apply (unpinCurrent_tracked 2) in Eun
      as (Hfr1 & [(-> & Hpin1 & Hc1)|(Hst1 & Hc1)]); [ | | lia | exact Howns].
    + destruct (BufMgr.readPage _ w1) as [[st2 ptr] w2] eqn:Eread.
      apply (readPage_tracked 2) in Eread
        as (Hfr2 & [(-> & -> & Hpin2 & Hc2)|(Hst2 & -> & Hpin2 & Hc2)]);
        [ | | rewrite Hpin1; cbn; lia].
      * unfold derefPage. cbn [HeapFile.curPage HeapFile.setCurDirtyFlag HeapFile.setCurPage HeapFile.setCurPageNo HeapFile.setCur HeapFile.curPageNo].
        destruct (frames w2 !! pageNo rid) as [[| |pg]|]; try discriminate.
        destruct (Page.getRecord pg rid) as [s r].
        assert (Ho2 : forall c, pinned w2 = handlePins
                  (HeapFile.setCurRec c
                    (HeapFile.setCurDirtyFlag false
                      (HeapFile.setCurPage (Some (pageNo rid))
                        (HeapFile.setCurPageNo (pageNo rid) h))))).
        { intros c. rewrite Hpin2, Hpin1. reflexivity. }
        destruct s; intros [= <- <- <- <-]; apply Hc1, Hc2, tracked_refl;
          first [exact (Ho2 rid) | exact (Ho2 (HeapFile.curRec h))].
      * rewrite notOK_match by exact Hst2. intros [= <- <- <- <-].
        apply Hc1, Hc2.
    + rewrite notOK_match by exact Hst1. intros [= <- <- <- <-]. apply Hc1.
  - unfold derefPage. destruct (HeapFile.curPage h) as [p|]; [|discriminate].
    destruct (frames w !! p) as [[| |pg]|]; try discriminate.
    destruct (Page.getRecord pg rid) as [s r].
    destruct s; intros [= <- <- <- <-]; apply tracked_refl; exact Howns.
Qed.

End HandleOperations.

Section ScanOperations.
Context `{Platform}.

Lemma resetScan_tracked s w st s' w' :
  owns (HeapFileScan.base s) w ->
  HeapFileScan.resetScan s w = (st, s', w') ->
  tracked 2 w w' (owns (HeapFileScan.base s') w').
Proof.
  intros Howns. unfold HeapFileScan.resetScan.
  destruct (negb _).
  - destruct (match HeapFile.curPage (HeapFileScan.base s) with
              | Some _ => _ | None => _ end) as [st1 w1] eqn:Eun.
    apply (unpinCurrent_tracked 2) in Eun
      as (Hfr1 & [(-> & Hpin1 & Hc1)|(Hst1 & Hc1)]); [ | | lia | exact Howns].
    + destruct (BufMgr.readPage _ w1) as [[st2 ptr] w2] eqn:Eread.
      apply (readPage_tracked 2) in Eread
        as (Hfr2 & [(-> & -> & Hpin2 & Hc2)|(Hst2 & -> & Hpin2 & Hc2)]);
        [ | | rewrite Hpin1; cbn; lia].
      * intros [= <- <- <-]. apply Hc1, Hc2, tracked_refl.
        unfold owns. rewrite Hpin2, Hpin1. reflexivity.
      * rewrite notOK_match by exact Hst2. intros [= <- <- <-]. apply Hc1, Hc2.
    + rewrite notOK_match by exact Hst1. intros [= <- <- <-]. apply Hc1.
  - intros [= <- <- <-]. apply tracked_refl. exact Howns.
Qed.

Lemma endScan_tracked s w st s' w' :
  owns (HeapFileScan.base s) w ->
  HeapFileScan.endScan s w = (st, s', w') ->
  tracked 2 w w'
    (owns (HeapFileScan.base s') w'
     /\ HeapFile.curPage (HeapFileScan.base s') = None).
Proof.
  intros Howns. unfold HeapFileScan.endScan.
  destruct (HeapFile.curPage (HeapFileScan.base s)) as [p|] eqn:Hcur.
  - destruct (BufMgr.unPinPage _ _ w) as [st1 w1] eqn:Eun.
    unfold owns, handlePins in Howns. rewrite Hcur in Howns.
    apply (unPinPage_tracked 2) in Eun
      as (Hfr1 & [(-> & Hpin1 & Hc1)|(Hst1 & _ & Hc1)]);
      [ | | rewrite Howns; cbn; lia].
    + intros [= <- <- <-]. apply Hc1, tracked_refl. split; [|reflexivity].
      rewrite Howns, unpin1_head in Hpin1. injection Hpin1 as Hpin1.
      unfold owns. cbn. rewrite <- Hpin1. reflexivity.
    + intros [= <- <- <-]. apply Hc1.
  - intros [= <- <- <-]. apply tracked_refl. auto.
Qed.

Lemma scanPage_handlePins n s pg r h res h' :
  HeapFileScan.scanPage n s pg r h = Done (res, h') ->
  handlePins h' = handlePins h.
Proof.
  revert r h. induction n as [|n IH]; intros r h; [discriminate|].
  cbn [HeapFileScan.scanPage].
  destruct (Page.getRecord pg r) as [st [rec|]]; destruct st;
    try discriminate; try (intros [= <- <-]; reflexivity).
  destruct (HeapFileScan.matchRec s rec) as [[]|]; try discriminate.
  - intros [= <- <-]. reflexivity.
  - unfold Page.nextRecord. destruct (Page.findLive _ _).
    + intros Hrun. apply IH in Hrun. exact Hrun.
    + intros [= <- <-]. reflexivity.
Qed.

Lemma scanLoop_tracked s fuel :
  forall p h w st rid h' w',
    owns h w ->
    HeapFileScan.scanLoop fuel s p h w = Done (st, rid, h', w') ->
    tracked 2 w w' (owns h' w').
Proof.
  induction fuel as [|fuel IH]; intros p h w st rid h' w' Howns; [discriminate|].
  cbn [HeapFileScan.scanLoop].
  destruct (p =? -1).
  { intros [= <- <- <- <-]. apply tracked_refl. exact Howns. }
  destruct (match HeapFile.curPage h with Some _ => _ | None => _ end)
    as [st1 w1] eqn:Eun.
  apply (unpinCurrent_tracked 2) in Eun
    as (Hfr1 & [(-> & Hpin1 & Hc1)|(Hst1 & Hc1)]); [ | | lia | exact Howns].
  2: { rewrite notOK_match by exact Hst1. intros [= <- <- <- <-]. apply Hc1. }
  destruct (BufMgr.readPage _ w1) as [[st2 ptr] w2] eqn:Eread.
  apply (readPage_tracked 2) in Eread
    as (Hfr2 & [(-> & -> & Hpin2 & Hc2)|(Hst2 & -> & Hpin2 & Hc2)]);
    [ | | rewrite Hpin1; cbn; lia].
  2: { rewrite notOK_match by exact Hst2. intros [= <- <- <- <-]. apply Hc1, Hc2. }
  set (h1 := HeapFile.setCur (Some p) p false h).
  assert (Ho1 : owns h1 w2).
  { unfold owns. rewrite Hpin2, Hpin1. reflexivity. }
  destruct (derefPage (HeapFile.curPage h1) w2) as [pg|]; [|discriminate].
  unfold Page.getNextPage, Page.firstRecord, Page.nextRecord.
  assert (Hadv : forall h2, handlePins h2 = handlePins h1 ->
    HeapFileScan.scanLoop fuel s (Page.nextPage pg) h2 w2 = Done (st, rid, h', w') ->
    tracked 2 w w' (owns h' w')).
  { intros h2 Hh2 Hrun. apply Hc1, Hc2. apply (IH (Page.nextPage pg) h2 w2 st rid); [|exact Hrun].
    unfold owns. rewrite Hh2. exact Ho1. }
  assert (Hpage : forall r,
    match HeapFileScan.scanPage (S fuel) s pg r h1 with
    | Done (HeapFileScan.Found rid0, h0) => Done (OK, Some rid0, h0, w2)
    | Done (HeapFileScan.Failed status, h0) => Done (status, None, h0, w2)
    | Done (HeapFileScan.EndOfPage, h0) =>
        HeapFileScan.scanLoop fuel s (Page.nextPage pg) h0 w2
    | Undefined => Undefined
    | OutOfFuel => OutOfFuel
    end = Done (st, rid, h', w') ->
    tracked 2 w w' (owns h' w')).
  { intros r.
    destruct (HeapFileScan.scanPage (S fuel) s pg r h1) as [[res h0]| |] eqn:Epage;
      try discriminate.
    apply scanPage_handlePins in Epage.
    destruct res.
    - intros [= <- <- <- <-]. apply Hc1, Hc2, tracked_refl.
      unfold owns. rewrite Epage. exact Ho1.
    - intros [= <- <- <- <-]. apply Hc1, Hc2, tracked_refl.
      unfold owns. rewrite Epage. exact Ho1.
    - apply Hadv. exact Epage. }
  destruct (is_NULLRID (HeapFile.curRec h1)).
  - destruct (Page.findLive (Page.slots pg) 0) as [j|].
    + cbn [negb]. apply Hpage.
    + apply Hadv. reflexivity.
  - cbn [negb]. destruct (Page.findLive _ _) as [j|].
    + apply Hpage.
    + apply Hadv. reflexivity.
Qed.

Lemma scanNext_tracked fuel s w st rid s' w' :
  owns (HeapFileScan.base s) w ->
  HeapFileScan.scanNext fuel s w = Done (st, rid, s', w') ->
  tracked 2 w w' (owns (HeapFileScan.base s') w').
Proof.
  intros Howns. unfold HeapFileScan.scanNext.
  destruct (HeapFileScan.scanLoop fuel s _ _ w) as [[[[st0 rid0] h0] w0]| |] eqn:Eloop;
    try discriminate.
  intros [= <- <- <- <-]. exact (scanLoop_tracked s fuel _ _ _ _ _ _ _ Howns Eloop).
Qed.

End ScanOperations.

Section StorageLayer.

Lemma nextFault_same w st w1 :
  nextFault w = (st, w1) ->
  log w1 = log w /\ pinned w1 = pinned w /\ frames w1 = frames w.
Proof.
  unfold nextFault. destruct (faults w); intros [= <- <-]; auto.
Qed.

Lemma openFile_same w st w1 :
  DB.openFile w = (st, w1) ->
  log w1 = log w /\ pinned w1 = pinned w /\ frames w1 = frames w.
Proof.
  unfold DB.openFile. destruct (nextFault w) as [s w0] eqn:E.
  apply nextFault_same in E.
  destruct s; try (intros [= <- <-]; exact E).
  destruct (fileExists w0); intros [= <- <-]; exact E.
Qed.

Lemma createFile_same w st w1 :
  DB.createFile w = (st, w1) -> log w1 = log w /\ pinned w1 = pinned w.
Proof.
  unfold DB.createFile. destruct (nextFault w) as [s w0] eqn:E.
  apply nextFault_same in E as (Hl & Hp & _).
  destruct s; try (intros [= <- <-]; auto).
  destruct (fileExists w0); intros [= <- <-]; auto.
Qed.

Lemma closeFile_same w st w1 :
  DB.closeFile w = (st, w1) ->
  log w1 = log w /\ pinned w1 = pinned w /\ frames w1 = frames w.
Proof. apply nextFault_same. Qed.

Lemma getFirstPage_same w st p w1 :
  DB.getFirstPage w = (st, p, w1) ->
  log w1 = log w /\ pinned w1 = pinned w /\ frames w1 = frames w.
Proof.
  unfold DB.getFirstPage. destruct (nextFault w) as [s w0] eqn:E.
  apply nextFault_same in E.
  destruct s; try (intros [= <- <- <-]; exact E).
  destruct (fileFirstPage w0); intros [= <- <- <-]; exact E.
Qed.

Lemma tracked_after_same k w w0 w' (good : Prop) :
  log w0 = log w -> tracked k w0 w' good -> tracked k w w' good.
Proof. intros Hl (evs & He & Hp & Hg). exists evs. rewrite He, Hl. auto. Qed.

End StorageLayer.

Section InsertOperations.
Context `{Platform}.

Lemma insertLoop_tracked fuel rec :
  forall h w st rid h' w',
    owns h w ->
    InsertFileScan.insertLoop fuel rec h w = Done (st, rid, h', w') ->
    tracked 3 w w' (owns h' w').
Proof.
  induction fuel as [|fuel IH]; intros h w st rid h' w' Howns; [discriminate|].
  cbn [InsertFileScan.insertLoop].
  destruct (derefPage (HeapFile.curPage h) w) as [pg|] eqn:Hderef; [|discriminate].
  assert (Hcur : exists p, HeapFile.curPage h = Some p).
  { destruct (HeapFile.curPage h); [eauto|discriminate]. }
  destruct Hcur as (p & Hcur).
  assert (Hpins : pinned w = [HeapFile.curPageNo h; HeapFile.headerPageNo h]).
  { unfold owns, handlePins in Howns. rewrite Hcur in Howns. exact Howns. }
  destruct (insertRecord_status pg rec) as [(r & pg' & ->)| ->].
  - unfold HeapFile.updHeader, HeapFile.storeCurPage.
    cbn [HeapFile.headerPage HeapFile.setCurDirtyFlag HeapFile.setCurRec
         HeapFile.setCur HeapFile.curPage].
    rewrite Hcur.
    destruct (HeapFile.headerPage h) as [hno|]; [|discriminate].
    destruct (derefHdr _ _); [|discriminate].
    intros [= <- <- <- <-]. apply tracked_same_log; [reflexivity|].
    unfold owns, handlePins. cbn. rewrite Hcur. exact Hpins.
  - destruct (BufMgr.allocPage w) as [[st1 ptr] w1] eqn:Ealloc.
    apply (allocPage_tracked 3) in Ealloc
      as [(-> & -> & Hfr1 & Hpin1 & Hc1)|(Hst1 & -> & Hfr1 & Hpin1 & Hc1)];
      [ | | rewrite Hpins; cbn; lia].
    2: { rewrite notOK_match by exact Hst1. intros [= <- <- <- <-]. apply Hc1. }
    set (n := BufMgr.freshPageNo (frames w)) in *.
    destruct (derefPage (HeapFile.curPage h) (setFrame _ _ w1)) as [cur|];
      [|discriminate].
    destruct (BufMgr.unPinPage _ _ _) as [st2 w2] eqn:Eun.
    apply (unPinPage_tracked 3) in Eun
      as (Hfr2 & [(-> & Hpin2 & Hc2)|(Hst2 & _ & Hc2)]).
    + unfold HeapFile.updHeader.
      destruct (HeapFile.headerPage h) as [hno|]; [|discriminate].
      destruct (derefHdr _ _); [|discriminate].
      intros Hrun. apply Hc1.
      eapply tracked_after_same; [|apply Hc2].
      { unfold HeapFile.storeCurPage. rewrite Hcur. reflexivity. }
      eapply tracked_after_same; [|eapply IH; [|exact Hrun]].
      { reflexivity. }
      unfold owns, handlePins. cbn.
      unfold HeapFile.storeCurPage in Hpin2. rewrite Hcur in Hpin2.
      cbn in Hpin2. rewrite Hpin1, Hpins in Hpin2. cbn in Hpin2.
      destruct (Z.eqb_spec n (HeapFile.curPageNo h)) as [E|_].
      * injection Hpin2 as <-. rewrite E. reflexivity.
      * rewrite Z.eqb_refl in Hpin2. cbn in Hpin2. injection Hpin2 as <-. reflexivity.
    + rewrite notOK_match by exact Hst2. intros [= <- <- <- <-].
      apply Hc1. eapply tracked_after_same; [|apply Hc2].
      unfold HeapFile.storeCurPage. rewrite Hcur. reflexivity.
    + unfold HeapFile.storeCurPage. rewrite Hcur. cbn. rewrite Hpin1, Hpins. cbn. lia.
Qed.

Lemma insertRecord_tracked fuel rec h w st rid h' w' :
  owns h w ->
  InsertFileScan.insertRecord fuel rec h w = Done (st, rid, h', w') ->
  tracked 3 w w' (owns h' w').
Proof.
  intros Howns. unfold InsertFileScan.insertRecord.
  destruct (_ >? _).
  { intros [= <- <- <- <-]. apply tracked_refl. exact Howns. }
  destruct (HeapFile.curPage h) as [p|] eqn:Hcur.
  - apply insertLoop_tracked. exact Howns.
  - destruct (derefHdr _ _) as [hp|]; [|discriminate].
    destruct (negb _).
    + destruct (BufMgr.readPage _ w) as [[st1 ptr] w1] eqn:Eread.
      assert (Hpins : pinned w = [HeapFile.headerPageNo h]).
      { unfold owns, handlePins in Howns. rewrite Hcur in Howns. exact Howns. }
      apply (readPage_tracked 3) in Eread
        as (Hfr1 & [(-> & -> & Hpin1 & Hc1)|(Hst1 & -> & Hpin1 & Hc1)]);
        [ | | rewrite Hpins; cbn; lia].
      * intros Hrun. apply Hc1. eapply insertLoop_tracked; [|exact Hrun].
        unfold owns. rewrite Hpin1, Hpins. reflexivity.
      * rewrite notOK_match by exact Hst1. cbv beta iota.
        rewrite notOK_match by exact Hst1. intros [= <- <- <- <-]. apply Hc1.
    + apply insertLoop_tracked. exact Howns.
Qed.

End InsertOperations.

Section Lifecycle.
Context `{Platform}.

(** unPinPage, whether it succeeds or not, when the code goes on. *)
Lemma unPinPage_any k p d w st w1 :
  (List.length (pinned w) <= k)%nat ->
  BufMgr.unPinPage p d w = (st, w1) ->
  (List.length (pinned w1) <= List.length (pinned w))%nat
  /\ (st = OK -> BufMgr.unpin1 p (pinned w) = Some (pinned w1))
  /\ (forall w' (good : Prop),
        tracked k w1 w' (st = OK -> good) -> tracked k w w' good).
Proof.
  intros Hk Hun.
  apply unPinPage_inv in Hun
    as (_ & _ & [(-> & Hpin & Hlog)|(Hst & Hpin & Hlog)]).
  - pose proof (unpin1_length _ _ _ Hpin) as Hlen.
    split; [lia|]. split; [auto|].
    intros w' good Ht. apply (tracked_cons _ _ _ _ _ _ Hlog).
    + unfold pinsAtMost. cbn. lia.
    + eapply tracked_mono; [|exact Ht]. auto.
  - split; [rewrite Hpin; lia|]. split; [intros; contradiction|].
    intros w' good Ht. apply (tracked_cons_failed _ _ _ _ _ _ Hlog).
    + unfold pinsAtMost. cbn. lia.
    + exact Hst.
    + eapply tracked_mono; [|exact Ht]. auto.
Qed.

Lemma HeapFile_ctor_tracked h0 w st h w' :
  pinned w = [] ->
  HeapFile.ctor h0 w = Done (st, h, w') ->
  tracked 2 w w' ((st = OK /\ owns h w') \/ (st <> OK /\ pinned w' = [])).
Proof.
  intros Hpins. unfold HeapFile.ctor.
  destruct (DB.openFile w) as [st0 w0] eqn:Eopen.
  apply openFile_same in Eopen as (Hl0 & Hp0 & _).
  destruct (decide (st0 = OK)) as [->|Hne0].
  2: { rewrite notOK_match by exact Hne0. intros [= <- <- <-].
       apply tracked_same_log; [exact Hl0|]. right. split; [exact Hne0|congruence]. }
  destruct (DB.getFirstPage w0) as [[st1 first] w1] eqn:Efirst.
  apply getFirstPage_same in Efirst as (Hl1 & Hp1 & _).
  destruct (decide (st1 = OK)) as [->|Hne1].
  2: { rewrite notOK_match by exact Hne1. intros [= <- <- <-].
       apply tracked_same_log; [congruence|]. right. split; [exact Hne1|congruence]. }
  set (h1 := match first with Some p => _ | None => _ end).
  destruct (BufMgr.readPage _ w1) as [[st2 ptr] w2] eqn:Eread.
  apply (readPage_tracked 2) in Eread
    as (_ & [(-> & -> & Hpin2 & Hc2)|(Hst2 & -> & Hpin2 & Hc2)]);
    [ | | rewrite Hp1, Hp0, Hpins; cbn; lia].
  2: { rewrite notOK_match by exact Hst2. intros [= <- <- <-].
       eapply tracked_after_same; [|apply Hc2]. congruence. }
  destruct (derefHdr _ w2) as [hp|]; [|discriminate].
  destruct (BufMgr.readPage _ w2) as [[st3 ptr] w3] eqn:Eread3.
  apply (readPage_tracked 2) in Eread3
    as (_ & [(-> & -> & Hpin3 & Hc3)|(Hst3 & -> & Hpin3 & Hc3)]);
    [ | | rewrite Hpin2, Hp1, Hp0, Hpins; cbn; lia].
  - intros [= <- <- <-].
    eapply tracked_after_same; [|apply Hc2, Hc3, tracked_refl]; [congruence|].
    left. split; [reflexivity|]. unfold owns.
    rewrite Hpin3, Hpin2, Hp1, Hp0, Hpins. reflexivity.
  - rewrite notOK_match by exact Hst3. intros [= <- <- <-].
    eapply tracked_after_same; [|apply Hc2, Hc3]. congruence.
Qed.

Lemma HeapFileScan_ctor_tracked s0 w st s w' :
  pinned w = [] ->
  HeapFileScan.ctor s0 w = Done (st, s, w') ->
  tracked 2 w w'
    ((st = OK /\ owns (HeapFileScan.base s) w') \/ (st <> OK /\ pinned w' = [])).
Proof.
  intros Hpins. unfold HeapFileScan.ctor.
  destruct (HeapFile.ctor _ w) as [[[st1 b] w1]| |] eqn:E; try discriminate.
  intros [= <- <- <-]. exact (HeapFile_ctor_tracked _ _ _ _ _ Hpins E).
Qed.

Lemma HeapFile_dtor_tracked h w h' w' :
  (List.length (pinned w) <= 2)%nat ->
  HeapFile.dtor h w = Done (h', w') ->
  tracked 2 w w' (owns h w -> pinned w' = []).
Proof.
  intros Hlen. unfold HeapFile.dtor.
  destruct (derefHdr _ w); [|discriminate].
  destruct (HeapFile.curPage h) as [p|] eqn:Hcur.
  - destruct (BufMgr.unPinPage _ _ w) as [st1 w1] eqn:E1.
    apply (unPinPage_any 2) in E1 as (Hlen1 & Hok1 & Hc1); [|exact Hlen].
    destruct (BufMgr.unPinPage _ _ w1) as [st2 w2] eqn:E2.
    apply (unPinPage_any 2) in E2 as (Hlen2 & Hok2 & Hc2); [|lia].
    destruct (DB.closeFile w2) as [st3 w3] eqn:E3.
    apply closeFile_same in E3 as (Hl3 & Hp3 & _).
    intros [= <- <-]. apply Hc1, Hc2. apply tracked_same_log; [exact Hl3|].
    intros -> -> Howns. unfold owns, handlePins in Howns. rewrite Hcur in Howns.
    specialize (Hok1 eq_refl). specialize (Hok2 eq_refl).
    rewrite Howns, unpin1_head in Hok1. injection Hok1 as Hok1.
    cbn in Hok2. rewrite <- Hok1, unpin1_head in Hok2. congruence.
  - destruct (BufMgr.unPinPage _ _ w) as [st2 w2] eqn:E2.
    apply (unPinPage_any 2) in E2 as (Hlen2 & Hok2 & Hc2); [|lia].
    destruct (DB.closeFile w2) as [st3 w3] eqn:E3.
    apply closeFile_same in E3 as (Hl3 & Hp3 & _).
    intros [= <- <-]. apply Hc2. apply tracked_same_log; [exact Hl3|].
    intros -> Howns. unfold owns, handlePins in Howns. rewrite Hcur in Howns.
    specialize (Hok2 eq_refl). rewrite Howns, unpin1_head in Hok2. congruence.
Qed.

Lemma HeapFileScan_dtor_tracked s w s' w' :
  owns (HeapFileScan.base s) w ->
  HeapFileScan.dtor s w = Done (s', w') ->
  tracked 2 w w' (pinned w' = []).
Proof.
  intros Howns. unfold HeapFileScan.dtor, HeapFileScan.endScan.
  assert (Hlen : (List.length (pinned w) <= 2)%nat).
  { rewrite Howns. unfold handlePins.
    destruct (HeapFile.curPage (HeapFileScan.base s)); cbn; lia. }
  destruct (HeapFile.curPage (HeapFileScan.base s)) as [p|] eqn:Hcur.
  - destruct (BufMgr.unPinPage _ _ w) as [st1 w1] eqn:E1.
    apply (unPinPage_any 2) in E1 as (Hlen1 & Hok1 & Hc1); [|exact Hlen].
    destruct (HeapFile.dtor _ w1) as [[b w2]| |] eqn:E2; try discriminate.
    intros [= <- <-]. apply Hc1.
    apply HeapFile_dtor_tracked in E2; [|lia].
    eapply tracked_mono; [|exact E2]. intros Hgood ->. apply Hgood.
    unfold owns, handlePins in Howns |- *. rewrite Hcur in Howns.
    specialize (Hok1 eq_refl). rewrite Howns, unpin1_head in Hok1.
    injection Hok1 as Hok1. cbn. congruence.
  - destruct (HeapFile.dtor _ w) as [[b w2]| |] eqn:E2; try discriminate.
    intros [= <- <-]. apply HeapFile_dtor_tracked in E2; [|exact Hlen].
    eapply tracked_mono; [|exact E2]. auto.
Qed.

Lemma InsertFileScan_dtor_tracked h w h' w' :
  owns h w ->
  InsertFileScan.dtor h w = Done (h', w') ->
  tracked 2 w w' (pinned w' = []).
Proof.
  intros Howns. unfold InsertFileScan.dtor.
  assert (Hlen : (List.length (pinned w) <= 2)%nat).
  { rewrite Howns. unfold handlePins. destruct (HeapFile.curPage h); cbn; lia. }
  destruct (HeapFile.curPage h) as [p|] eqn:Hcur.
  - destruct (BufMgr.unPinPage _ _ w) as [st1 w1] eqn:E1.
    apply (unPinPage_any 2) in E1 as (Hlen1 & Hok1 & Hc1); [|exact Hlen].
    intros E2. apply Hc1.
    apply HeapFile_dtor_tracked in E2; [|lia].
    eapply tracked_mono; [|exact E2]. intros Hgood ->. apply Hgood.
    unfold owns, handlePins in Howns |- *. rewrite Hcur in Howns.
    specialize (Hok1 eq_refl). rewrite Howns, unpin1_head in Hok1.
    injection Hok1 as Hok1. cbn. congruence.
  - intros E2. apply HeapFile_dtor_tracked in E2; [|exact Hlen].
    eapply tracked_mono; [|exact E2]. auto.
Qed.

Lemma createHeapFile_tracked name w st w' :
  pinned w = [] ->
  createHeapFile name w = Done (st, w') ->
  tracked 2 w w' (pinned w' = []).
Proof.
  intros Hpins. unfold createHeapFile.
  destruct (DB.openFile w) as [st0 w0] eqn:E0.
  apply openFile_same in E0 as (Hl0 & Hp0 & _).
  destruct (decide (st0 = OK)) as [->|Hne0].
  { intros [= <- <-]. apply tracked_same_log; congruence. }
  rewrite notOK_match by exact Hne0.
  destruct (DB.createFile w0) as [st1 w1] eqn:E1.
  apply createFile_same in E1 as (Hl1 & Hp1).
  destruct (decide (st1 = OK)) as [->|Hne1].
  2: { rewrite notOK_match by exact Hne1. intros [= <- <-].
       apply tracked_same_log; congruence. }
  destruct (DB.openFile w1) as [st2 w2] eqn:E2.
  apply openFile_same in E2 as (Hl2 & Hp2 & _).
  destruct (decide (st2 = OK)) as [->|Hne2].
  2: { rewrite notOK_match by exact Hne2. intros [= <- <-].
       apply tracked_same_log; congruence. }
  assert (Hl : log w2 = log w) by congruence.
  assert (Hp : pinned w2 = []) by congruence.
  destruct (BufMgr.allocPage w2) as [[st3 ptr3] w3] eqn:E3.
  apply (allocPage_tracked 2) in E3
    as [(-> & -> & _ & Hpin3 & Hc3)|(Hst3 & -> & _ & Hpin3 & Hc3)];
    [ | | rewrite Hp; cbn; lia].
  2: { rewrite notOK_match by exact Hst3. intros [= <- <-].
       eapply tracked_after_same; [exact Hl|apply Hc3]. }
  set (n1 := BufMgr.freshPageNo (frames w2)) in *.
  destruct (derefHdr (Some n1) w3) as [hp|]; [|discriminate].
  destruct (strcpy MAXNAMESIZE name) as [stored|]; [|discriminate].
  destruct (BufMgr.allocPage _) as [[st4 ptr4] w4] eqn:E4.
  apply (allocPage_tracked 2) in E4
    as [(-> & -> & _ & Hpin4 & Hc4)|(Hst4 & -> & _ & Hpin4 & Hc4)];
    [ | | cbn; rewrite Hpin3, Hp; cbn; lia].
  2: { rewrite notOK_match by exact Hst4. intros [= <- <-].
       eapply tracked_after_same; [exact Hl|apply Hc3].
       eapply tracked_after_same; [|apply Hc4]. reflexivity. }
  match type of Hpin4 with _ = ?n :: _ => set (n2 := n) in * end.
  destruct (derefHdr (Some n1) _) as [hp'|]; [|discriminate].
  destruct (BufMgr.unPinPage n1 true _) as [st5 w5] eqn:E5.
  apply (unPinPage_tracked 2) in E5
    as (_ & [(-> & Hpin5 & Hc5)|(Hst5 & _ & Hc5)]);
    [ | | cbn; rewrite Hpin4; cbn; rewrite Hpin3, Hp; cbn; lia].
  2: { rewrite notOK_match by exact Hst5. intros [= <- <-].
       eapply tracked_after_same; [exact Hl|apply Hc3].
       eapply tracked_after_same; [|apply Hc4]; [reflexivity|].
       eapply tracked_after_same; [|apply Hc5]. reflexivity. }
  destruct (BufMgr.unPinPage n2 true w5) as [st6 w6] eqn:E6.
  assert (Hlen5 : (List.length (pinned w5) <= 1)%nat).
  { apply unpin1_length in Hpin5. cbn in Hpin5. rewrite Hpin4 in Hpin5.
    cbn in Hpin5. rewrite Hpin3, Hp in Hpin5. cbn in Hpin5. lia. }
  apply (unPinPage_tracked 2) in E6
    as (_ & [(-> & Hpin6 & Hc6)|(Hst6 & _ & Hc6)]); [ | | lia].
  2: { rewrite notOK_match by exact Hst6. intros [= <- <-].
       eapply tracked_after_same; [exact Hl|apply Hc3].
       eapply tracked_after_same; [|apply Hc4]; [reflexivity|].
       eapply tracked_after_same; [|apply Hc5, Hc6]. reflexivity. }
  destruct (DB.closeFile w6) as [st7 w7] eqn:E7.
  apply closeFile_same in E7 as (Hl7 & Hp7 & _).
  assert (Hfinal : pinned w7 = []).
  { apply unpin1_length in Hpin6. rewrite Hp7.
    destruct (pinned w6); [reflexivity|]. cbn in Hpin6. lia. }
  assert (Hdone : tracked 2 w w7 (pinned w7 = [])).
  { eapply tracked_after_same; [exact Hl|apply Hc3].
    eapply tracked_after_same; [|apply Hc4]; [reflexivity|].
    eapply tracked_after_same; [|apply Hc5, Hc6]; [reflexivity|].
    apply tracked_same_log; [exact Hl7|exact Hfinal]. }
  destruct st7; intros [= <- <-]; exact Hdone.
Qed.

End Lifecycle.

Section PinDiscipline.
Context `{Platform}.

(** C2, in the form that holds of the code.  Every operation is taken
    from a state in which the pages pinned are exactly those the handle
    accounts for: none before creation and construction, the header and
    the current page, if there is one, otherwise.  Then in file creation,
    in opening and tearing down a handle, and in point lookup, scan step,
    reset and endScan, at most two pages (one data page and the header)
    are pinned after every call into the buffer pool; insertRecord may
    hold three (the new page is allocated before the full one is
    unpinned).  Where none of the calls into the buffer pool failed, the
    pins held afterwards are again exactly those the handle accounts
    for: none after creation and teardown, the header and the current
    page otherwise.  So the starting condition passes from one operation
    to the next for as long as no call fails. *)
Theorem pin_discipline :
  (forall name w st w',
      pinned w = [] -> createHeapFile name w = Done (st, w') ->
      tracked 2 w w' (pinned w' = []))
  /\ (forall s0 w st s w',
        pinned w = [] -> HeapFileScan.ctor s0 w = Done (st, s, w') ->
        tracked 2 w w'
          ((st = OK /\ owns (HeapFileScan.base s) w')
           \/ (st <> OK /\ pinned w' = [])))
  /\ (forall h0 w st h w',
        pinned w = [] -> InsertFileScan.ctor h0 w = Done (st, h, w') ->
        tracked 2 w w' ((st = OK /\ owns h w') \/ (st <> OK /\ pinned w' = [])))
  /\ (forall s w s' w',
        owns (HeapFileScan.base s) w -> HeapFileScan.dtor s w = Done (s', w') ->
        tracked 2 w w' (pinned w' = []))
  /\ (forall h w h' w',
        owns h w -> InsertFileScan.dtor h w = Done (h', w') ->
        tracked 2 w w' (pinned w' = []))
  /\ (forall rid h w st rec h' w',
        owns h w -> HeapFile.getRecord rid h w = Done (st, rec, h', w') ->
        tracked 2 w w' (owns h' w'))
  /\ (forall fuel s w st rid s' w',
        owns (HeapFileScan.base s) w ->
        HeapFileScan.scanNext fuel s w = Done (st, rid, s', w') ->
        tracked 2 w w' (owns (HeapFileScan.base s') w'))
  /\ (forall s w st s' w',
        owns (HeapFileScan.base s) w ->
        HeapFileScan.resetScan s w = (st, s', w') ->
        tracked 2 w w' (owns (HeapFileScan.base s') w'))
  /\ (forall s w st s' w',
        owns (HeapFileScan.base s) w ->
        HeapFileScan.endScan s w = (st, s', w') ->
        tracked 2 w w'
          (owns (HeapFileScan.base s') w'
           /\ HeapFile.curPage (HeapFileScan.base s') = None))
  /\ (forall fuel rec h w st rid h' w',
        owns h w ->
        InsertFileScan.insertRecord fuel rec h w = Done (st, rid, h', w') ->
        tracked 3 w w' (owns h' w')).
Proof.
  split; [exact createHeapFile_tracked|].
  split; [exact HeapFileScan_ctor_tracked|].
  split; [exact HeapFile_ctor_tracked|].
  split; [exact HeapFileScan_dtor_tracked|].
  split; [exact InsertFileScan_dtor_tracked|].
  split; [exact getRecord_tracked|].
  split; [exact scanNext_tracked|].
  split; [exact resetScan_tracked|].
  split; [exact endScan_tracked|].
  exact insertRecord_tracked.
Qed.

End PinDiscipline.

(** C2 does not hold of insertRecord as it is worded.  On a file whose
    last page is full, insertRecord allocates the new page while the full
    page is still pinned: after the allocation three pages are pinned,
    the header and two data pages. *)
Lemma insertRecord_pins_two_data_pages :
  owns sampleHandle fullWorld
  /\ exists rid h' w',
       @InsertFileScan.insertRecord samplePlatform 2 sampleRec sampleHandle fullWorld
         = Done (OK, rid, h', w')
       /\ log w' = [mkEvent (UnPinPage 2 false) OK [3; 1];
                    mkEvent AllocPage OK [3; 2; 1]]
       /\ ~ Forall (pinsAtMost 2) (log w').
Proof.
  split; [reflexivity|].
  destruct (@InsertFileScan.insertRecord samplePlatform 2 sampleRec sampleHandle fullWorld)
    as [[[[st rid] h'] w']| |] eqn:E; vm_compute in E; try discriminate.
  injection E as <- <- <- <-. eexists _, _, _. split; [reflexivity|].
  split; [reflexivity|]. cbn [log].
  intros Hall. apply Forall_cons in Hall as [_ Hall].
  apply Forall_cons in Hall as [Hpin _]. unfold pinsAtMost in Hpin. cbn in Hpin. lia.
Qed.

(** The starting condition of C2 is needed.  When the unPinPage of endScan
    fails, the scan drops its page pointer although the page stays
    pinned; the handle no longer accounts for the pins, and a point
    lookup on another page then holds three of them. *)
Lemma getRecord_after_failed_endScan :
  exists st s w rec h' w',
    HeapFileScan.endScan sampleScan failingUnpin = (st, s, w)
    /\ st <> OK
    /\ pinned w = [2; 1] /\ ~ owns (HeapFileScan.base s) w
    /\ HeapFile.getRecord (mkRID 3 0) (HeapFileScan.base s) w = Done (OK, rec, h', w')
    /\ pinned w' = [3; 2; 1].
Proof.
  eexists _, _, _, _, _, _. split; [vm_compute; reflexivity|].
  split; [discriminate|]. split; [reflexivity|].
  split; [intros Ho; vm_compute in Ho; discriminate|].
  split; [vm_compute; reflexivity|reflexivity].
Qed.

(** ** The statements at sample inputs *)

Lemma scanNext_visits_live_records_sample :
  (HeapFileScan.filter sampleScan = None
   /\ HeapFile.curRec (HeapFileScan.base sampleScan) = NULLRID
   /\ chain (frames sampleWorld) 2 [samplePage2; samplePage3]
   /\ faults sampleWorld = []
   /\ owns (HeapFileScan.base sampleScan) sampleWorld)
  /\ NoDup (fileRids [samplePage2; samplePage3])
  /\ exists fuel0, forall fuel, (fuel0 <= fuel)%nat ->
       exists s' w',
         @scanMany samplePlatform fuel 4 sampleScan sampleWorld
           = Done ([mkRID 2 0; mkRID 2 2; mkRID 3 0], FILEEOF, s', w').
Proof.
  assert (Hchain : chain (frames sampleWorld) 2 [samplePage2; samplePage3]).
  { cbn. repeat split; try reflexivity; lia. }
  split.
  { split; [reflexivity|]. split; [reflexivity|]. split; [exact Hchain|].
    split; reflexivity. }
  exact (@scanNext_visits_live_records samplePlatform sampleScan sampleWorld
           [samplePage2; samplePage3] eq_refl eq_refl Hchain eq_refl eq_refl).
Defined.

Lemma pin_discipline_sample :
  owns sampleHandle fullWorld
  /\ forall st rid h' w',
       @InsertFileScan.insertRecord samplePlatform 2 sampleRec sampleHandle fullWorld
         = Done (st, rid, h', w') ->
       tracked 3 fullWorld w' (owns h' w').
Proof.
  split; [reflexivity|]. intros st rid h' w'.
  apply (proj2 (proj2 (proj2 (proj2 (proj2 (proj2 (proj2 (proj2 (proj2
           (@pin_discipline samplePlatform)))))))))).
  reflexivity.
Defined.


Lemma startScan_validation_sample :
  is_int 4
  /\ (fst (@HeapFileScan.startScan 0 4 INTEGER (Some [x07; x00; x00; x00]) EQ sampleScan)
        = BADSCANPARM <-> badScanParm 0 4 INTEGER EQ)
  /\ (badScanParm 0 4 INTEGER EQ ->
      HeapFileScan.startScan 0 4 INTEGER (Some [x07; x00; x00; x00]) EQ sampleScan
        = (BADSCANPARM, sampleScan))
  /\ (~ badScanParm 0 4 INTEGER EQ ->
      HeapFileScan.startScan 0 4 INTEGER (Some [x07; x00; x00; x00]) EQ sampleScan
        = (OK, HeapFileScan.setPredicate 0 4 INTEGER (Some [x07; x00; x00; x00]) EQ
                 sampleScan)).
Proof.
  assert (Hint : is_int 4) by (unfold is_int, INT_MIN, INT_MAX; lia).
  split; [exact Hint|].
  exact (@startScan_validation samplePlatform 0 4 INTEGER
           (Some [x07; x00; x00; x00]) EQ sampleScan Hint).
Defined.

Lemma insertRecord_rejects_oversized_sample :
  (is_int 2000 /\ @PAGESIZE samplePlatform - @DPFIXED samplePlatform < 2000)
  /\ @InsertFileScan.insertRecord samplePlatform 0 (Rec.mk [] 2000) sampleHandle
       sampleWorld
     = Done (INVALIDRECLEN, None, sampleHandle, sampleWorld).
Proof.
  assert (Hint : is_int 2000) by (unfold is_int, INT_MIN, INT_MAX; lia).
  assert (Hlong : @PAGESIZE samplePlatform - @DPFIXED samplePlatform < 2000)
    by (cbn; lia).
  split; [split; assumption|].
  exact (@insertRecord_rejects_oversized samplePlatform 0 (Rec.mk [] 2000)
           sampleHandle sampleWorld Hint Hlong).
Defined.


Lemma markScan_resetScan_scanNext_sample :
  HeapFileScan.resetScan (snd (HeapFileScan.markScan sampleScan)) sampleWorld
    = (OK, snd (HeapFileScan.markScan sampleScan), sampleWorld)
  /\ @HeapFileScan.scanNext samplePlatform 3 (snd (HeapFileScan.markScan sampleScan))
       sampleWorld
     = match @HeapFileScan.scanNext samplePlatform 3 sampleScan sampleWorld with
       | Done (status, rid, s', w') =>
           Done (status, rid, HeapFileScan.setMark 2 NULLRID s', w')
       | Undefined => Undefined
       | OutOfFuel => OutOfFuel
       end.
Proof.
  exact (proj2 (@markScan_resetScan_scanNext samplePlatform 3 sampleScan sampleWorld)).
Defined.

Lemma deleteRecord_unconditional_sample :
  (HeapFile.curPage (HeapFileScan.base sampleScan) = Some 2
   /\ frames sampleWorld !! 2 = Some (Data samplePage2)
   /\ HeapFile.headerPage (HeapFileScan.base sampleScan) = Some 1
   /\ frames sampleWorld !! 1 = Some (Hdr (mkHdr [] 2 3 2 3)))
  /\ exists s' w',
       HeapFileScan.deleteRecord sampleScan sampleWorld = Done (INVALIDSLOTNO, s', w')
       /\ HeapFile.curDirtyFlag (HeapFileScan.base s') = true
       /\ HeapFile.hdrDirtyFlag (HeapFileScan.base s') = true
       /\ HeapFile.getRecCnt (HeapFileScan.base s') w' = Done 2.
Proof.
  split; [repeat split; reflexivity|].
  exact (deleteRecord_unconditional sampleScan sampleWorld 2 samplePage2 1
           (mkHdr [] 2 3 2 3) eq_refl eq_refl eq_refl eq_refl).
Defined.

Lemma getRecord_null_page_sample :
  HeapFile.curPage
    (HeapFileScan.base (HeapFileScan.endScan sampleScan sampleWorld).1.2) = None
  /\ HeapFileScan.getRecord (HeapFileScan.endScan sampleScan sampleWorld).1.2
       (HeapFileScan.endScan sampleScan sampleWorld).2
     = Undefined.
Proof.
  split; [reflexivity|].
  exact (proj1 (getRecord_null_page
                  (HeapFileScan.endScan sampleScan sampleWorld).1.2
                  (HeapFileScan.endScan sampleScan sampleWorld).2) eq_refl).
Defined.

(** * Further properties of the code *)

(** ** File creation and opening *)

Section FileCreation.
Context `{Platform}.

Lemma nextFault_none w : faults w = [] -> nextFault w = (OK, w).
Proof. unfold nextFault. intros ->. reflexivity. Qed.

Lemma createHeapFile_existing name w :
  fileExists w = true -> faults w = [] ->
  createHeapFile name w = Done (FILEEXISTS, w).
Proof.
  intros Hex Hf. unfold createHeapFile, DB.openFile.
  rewrite (nextFault_none _ Hf), Hex. reflexivity.
Qed.

Lemma strcpy_fits cap name :
  Z.of_nat (List.length (c_str name)) < cap -> strcpy cap name = Some (c_str name).
Proof.
  intros Hfit. unfold strcpy.
  destruct (Z.ltb_spec (Z.of_nat (List.length (c_str name))) cap); [reflexivity|lia].
Qed.

Lemma createHeapFile_fresh name w :
  fileExists w = false -> faults w = [] ->
  Z.of_nat (List.length (c_str name)) < MAXNAMESIZE ->
  createHeapFile name w
    = Done (OK,
            mkWorld true (Some 1)
              (<[1 := Hdr (mkHdr (c_str name) 2 2 1 0)]>
                 (<[2 := Data (Page.init 2)]> ∅))
              (pinned w) []
              ([mkEvent (UnPinPage 2 true) OK (pinned w);
                mkEvent (UnPinPage 1 true) OK (2 :: pinned w);
                mkEvent AllocPage OK (2 :: 1 :: pinned w);
                mkEvent AllocPage OK (1 :: pinned w)] ++ log w)).
Proof.
  intros Hex Hf Hfit. unfold createHeapFile. rewrite (strcpy_fits _ _ Hfit).
  generalize (c_str name). intros stored.
  destruct w as [ex first fr pins fs lg].
  cbn in Hex, Hf. subst ex fs. vm_compute. reflexivity.
Qed.

Lemma nextFault_fileExists w st w1 :
  nextFault w = (st, w1) -> fileExists w1 = fileExists w.
Proof. unfold nextFault. destruct (faults w); intros [= <- <-]; reflexivity. Qed.

(** X4.  The constructor on a file that does not exist reports a status
    other than OK, assigns no member of the object and makes no call into
    the buffer pool. *)
Theorem HeapFile_ctor_missing_file h0 w :
  fileExists w = false ->
  exists st w',
    HeapFile.ctor h0 w = Done (st, h0, w')
    /\ st <> OK
    /\ log w' = log w /\ pinned w' = pinned w /\ frames w' = frames w.
Proof.
  intros Hex. unfold HeapFile.ctor, DB.openFile.
  destruct (nextFault w) as [s w1] eqn:E.
  pose proof (nextFault_fileExists _ _ _ E) as Hex1.
  apply nextFault_same in E as (Hl & Hp & Hf).
  rewrite Hex in Hex1.
  destruct s; rewrite ?Hex1; eexists _, w1;
    (split; [reflexivity|]); (split; [discriminate|]); auto.
Qed.

Lemma HeapFile_ctor_opens h0 w hno hp fr :
  faults w = [] -> fileExists w = true -> fileFirstPage w = Some hno ->
  frames w !! hno = Some (Hdr hp) ->
  frames w !! firstPage hp = Some fr ->
  HeapFile.ctor h0 w
    = Done (OK,
            HeapFile.mk (Some hno) hno false
                        (Some (firstPage hp)) (firstPage hp) false NULLRID,
            mkWorld true (Some hno) (frames w)
              (firstPage hp :: hno :: pinned w) []
              ([mkEvent (ReadPage (firstPage hp)) OK (firstPage hp :: hno :: pinned w);
                mkEvent (ReadPage hno) OK (hno :: pinned w)] ++ log w)).
Proof.
  intros Hf Hex Hfirst Hhdr Hpage. destruct w as [ex first frs pins fs lg].
  cbn in Hf, Hex, Hfirst, Hhdr, Hpage. subst ex fs first.
  unfold HeapFile.ctor, DB.openFile, DB.getFirstPage, BufMgr.readPage, nextFault.
  cbn. rewrite Hhdr. cbn. rewrite Hhdr. cbn. rewrite Hpage. reflexivity.
Qed.


(** X1.  createHeapFile on a file that exists: as soon as the probing
    openFile succeeds it returns FILEEXISTS; it neither creates a file nor
    calls the buffer pool, so frames, pins and log are those from before. *)
Theorem createHeapFile_refuses_existing_file name w :
  fileExists w = true ->
  faults w = [] \/ (exists fs, faults w = OK :: fs) ->
  exists w',
    createHeapFile name w = Done (FILEEXISTS, w')
    /\ fileExists w' = true
    /\ frames w' = frames w /\ pinned w' = pinned w /\ log w' = log w.
Proof.
  intros Hex Hfa. destruct w as [ex fp fr pn fa lg]. cbn in Hex, Hfa. subst ex.
  destruct Hfa as [->|[fs ->]]; eexists; (split; [reflexivity|]); cbn; auto.
Qed.

(** X5.  When the read of the first data page fails, the constructor
    reports that status with the header page still pinned; curPageNo is
    already set from the header, whereas curPage, curDirtyFlag and curRec
    have not been assigned. *)
Theorem HeapFile_ctor_failed_read_keeps_header_pinned h0 w hno hp st :
  fileExists w = true -> fileFirstPage w = Some hno ->
  frames w !! hno = Some (Hdr hp) ->
  st <> OK ->
  faults w = [OK; OK; OK; st] ->
  exists w',
    HeapFile.ctor h0 w
      = Done (st,
              HeapFile.mk (Some hno) hno false
                          (HeapFile.curPage h0) (firstPage hp)
                          (HeapFile.curDirtyFlag h0) (HeapFile.curRec h0),
              w')
    /\ pinned w' = hno :: pinned w
    /\ log w' = [mkEvent (ReadPage (firstPage hp)) st (hno :: pinned w);
                 mkEvent (ReadPage hno) OK (hno :: pinned w)] ++ log w.
Proof.
  intros Hex Hfirst Hhdr Hst Hfa. destruct w as [ex first frs pins fs lg].
  cbn in Hfa, Hex, Hfirst, Hhdr. subst ex fs first.
  unfold HeapFile.ctor, DB.openFile, DB.getFirstPage, BufMgr.readPage, nextFault.
  cbn. rewrite Hhdr. cbn. rewrite Hhdr. cbn.
  destruct st; try contradiction; eexists; (split; [reflexivity|]); cbn; auto.
Qed.


End FileCreation.

(** ** Point lookup and the end of a scan *)

Section LookupEdgeCases.
Context `{Platform}.

(** X6.  HeapFile::getRecord for a RID whose page does not exist: the
    current page is unpinned and curPageNo overwritten before readPage
    fails with BADPAGENO.  The handle is left with a page pointer (a failed
    readPage does not write its out-parameter) to a page that is no longer
    pinned, so it no longer owns the pins, and endScan on it fails with
    PAGENOTPINNED. *)
Theorem getRecord_missing_page rid h w p :
  faults w = [] -> owns h w ->
  HeapFile.curPage h = Some p ->
  pageNo rid <> HeapFile.curPageNo h ->
  pageNo rid <> HeapFile.headerPageNo h ->
  frames w !! pageNo rid = None ->
  exists w',
    HeapFile.getRecord rid h w
      = Done (BADPAGENO, None, HeapFile.setCurPageNo (pageNo rid) h, w')
    /\ pinned w' = [HeapFile.headerPageNo h]
    /\ ~ owns (HeapFile.setCurPageNo (pageNo rid) h) w'
    /\ forall s, HeapFileScan.base s = HeapFile.setCurPageNo (pageNo rid) h ->
         (HeapFileScan.endScan s w').1.1 = PAGENOTPINNED.
Proof.
  intros Hf Howns Hcur Hne Hnh Hmiss.
  unfold owns, handlePins in Howns. rewrite Hcur in Howns.
  unfold HeapFile.getRecord. rewrite Hcur.
  destruct (Z.eqb_spec (pageNo rid) (HeapFile.curPageNo h)) as [|_]; [contradiction|].
  rewrite orb_true_r.
  destruct (unPinPage_ok (HeapFile.curPageNo h) (HeapFile.curDirtyFlag h) w
              [HeapFile.headerPageNo h] Hf Howns) as (w1 & -> & Hfr1 & Hfa1 & Hpin1).
  cbn [HeapFile.curPageNo HeapFile.setCurPageNo HeapFile.setCur].
  unfold BufMgr.readPage. rewrite (nextFault_none _ Hfa1), Hfr1, Hmiss.
  eexists. split; [reflexivity|]. cbn [pinned logCall].
  split; [exact Hpin1|]. split.
  - unfold owns, handlePins. cbn. rewrite Hcur. intros E.
    rewrite Hpin1 in E. discriminate.
  - intros s Hs. unfold HeapFileScan.endScan. rewrite Hs. cbn. rewrite Hcur.
    unfold BufMgr.unPinPage, nextFault. cbn. rewrite Hfa1. cbn. rewrite Hpin1. cbn.
    destruct (Z.eqb_spec (HeapFile.headerPageNo h) (pageNo rid)); [congruence|].
    reflexivity.
Qed.

(** X7.  endScan clears the page pointer whatever unPinPage returned, so a
    second endScan returns OK and changes neither the scan nor the world. *)
Theorem endScan_twice s w :
  HeapFileScan.endScan (HeapFileScan.endScan s w).1.2 (HeapFileScan.endScan s w).2
    = (OK, (HeapFileScan.endScan s w).1.2, (HeapFileScan.endScan s w).2)
  /\ HeapFile.curPage (HeapFileScan.base (HeapFileScan.endScan s w).1.2) = None.
Proof.
  unfold HeapFileScan.endScan.
  destruct (HeapFile.curPage (HeapFileScan.base s)) eqn:Hcur.
  - destruct (BufMgr.unPinPage _ _ w) as [st w1]. cbn. auto.
  - cbn. rewrite Hcur. auto.
Qed.

End LookupEdgeCases.


(** ** What scanNext returns *)

Section ScanSoundness.
Context `{Platform}.

Lemma scanPage_result n s pg :
  forall r h res h',
    HeapFileScan.scanPage n s pg r h = Done (res, h') ->
    HeapFile.curPage h' = HeapFile.curPage h
    /\ match res with
       | HeapFileScan.Found rid =>
           HeapFile.curRec h' = rid
           /\ exists rec, Page.getRecord pg rid = (OK, Some rec)
                /\ HeapFileScan.matchRec s rec = Some true
       | HeapFileScan.Failed st => st <> OK
       | HeapFileScan.EndOfPage => HeapFile.curRec h' = NULLRID
       end.
Proof.
  induction n as [|n IH]; intros r h res h'; [discriminate|].
  cbn [HeapFileScan.scanPage].
  destruct (Page.getRecord pg r) as [st [rec|]] eqn:Eget; destruct st;
    try discriminate;
    try (intros [= <- <-]; split; [reflexivity|discriminate]).
  destruct (HeapFileScan.matchRec s rec) as [[]|] eqn:Ematch; try discriminate.
  - intros [= <- <-]. split; [reflexivity|]. split; [reflexivity|]. eauto.
  - unfold Page.nextRecord. destruct (Page.findLive _ _).
    + intros Hrun. apply IH in Hrun as (Hc & Hres). split; [exact Hc|exact Hres].
    + intros [= <- <-]. split; reflexivity.
Qed.

Lemma scanLoop_sound s fuel :
  forall p h w rid h' w',
    HeapFileScan.scanLoop fuel s p h w = Done (OK, rid, h', w') ->
    exists r pg rec,
      rid = Some r /\ HeapFile.curRec h' = r
      /\ derefPage (HeapFile.curPage h') w' = Some pg
      /\ Page.getRecord pg r = (OK, Some rec)
      /\ HeapFileScan.matchRec s rec = Some true.
Proof.
  induction fuel as [|fuel IH]; intros p h w rid h' w'; [discriminate|].
  cbn [HeapFileScan.scanLoop].
  destruct (p =? -1); [discriminate|].
  destruct (match HeapFile.curPage h with Some _ => _ | None => _ end) as [st1 w1].
  destruct (decide (st1 = OK)) as [->|Hne1];
    [|rewrite notOK_match by exact Hne1; intros [= -> _]; contradiction].
  destruct (BufMgr.readPage p w1) as [[st2 ptr] w2].
  destruct (decide (st2 = OK)) as [->|Hne2];
    [|rewrite notOK_match by exact Hne2; intros [= -> _]; contradiction].
  set (h1 := HeapFile.setCur ptr p false h).
  destruct (derefPage (HeapFile.curPage h1) w2) as [pg|] eqn:Hderef; [|discriminate].
  unfold Page.getNextPage, Page.firstRecord, Page.nextRecord.
  assert (Hpage : forall r,
    match HeapFileScan.scanPage (S fuel) s pg r h1 with
    | Done (HeapFileScan.Found rid0, h0) => Done (OK, Some rid0, h0, w2)
    | Done (HeapFileScan.Failed status, h0) => Done (status, None, h0, w2)
    | Done (HeapFileScan.EndOfPage, h0) =>
        HeapFileScan.scanLoop fuel s (Page.nextPage pg) h0 w2
    | Undefined => Undefined
    | OutOfFuel => OutOfFuel
    end = Done (OK, rid, h', w') ->
    exists r0 pg0 rec,
      rid = Some r0 /\ HeapFile.curRec h' = r0
      /\ derefPage (HeapFile.curPage h') w' = Some pg0
      /\ Page.getRecord pg0 r0 = (OK, Some rec)
      /\ HeapFileScan.matchRec s rec = Some true).
  { intros r.
    destruct (HeapFileScan.scanPage (S fuel) s pg r h1) as [[res h0]| |] eqn:Epage;
      try discriminate.
    apply scanPage_result in Epage as (Hc & Hres).
    destruct res.
    - intros [= <- <- <-]. destruct Hres as (Hrec & rec & Hget & Hm).
      exists rid0, pg, rec. rewrite Hc. auto.
    - intros [= -> _]. contradiction.
    - apply IH. }
  destruct (is_NULLRID (HeapFile.curRec h1)).
  - destruct (Page.findLive (Page.slots pg) 0) as [j|].
    + cbn [negb]. apply Hpage.
    + apply IH.
  - cbn [negb]. destruct (Page.findLive _ _) as [j|].
    + apply Hpage.
    + apply IH.
Qed.

(** X8.  Whenever scanNext returns OK it has written outRid, the cursor
    curRec is that RID, the record there satisfies the predicate, and
    HeapFileScan::getRecord fetches that record from the page left
    pinned. *)
Theorem scanNext_sound fuel s w rid s' w' :
  HeapFileScan.scanNext fuel s w = Done (OK, rid, s', w') ->
  exists r rec,
    rid = Some r
    /\ HeapFile.curRec (HeapFileScan.base s') = r
    /\ HeapFileScan.matchRec s rec = Some true
    /\ HeapFileScan.getRecord s' w' = Done (OK, Some rec).
Proof.
  unfold HeapFileScan.scanNext.
  destruct (HeapFileScan.scanLoop fuel s _ _ w) as [[[[st0 rid0] h0] w0]| |] eqn:Eloop;
    try discriminate.
  intros [= -> <- <- <-].
  apply scanLoop_sound in Eloop as (r & pg & rec & -> & Hc & Hd & Hg & Hm).
  exists r, rec. split; [reflexivity|]. split; [exact Hc|]. split; [exact Hm|].
  unfold HeapFileScan.getRecord. cbn [HeapFileScan.base HeapFileScan.setBase].
  rewrite Hd, Hc. rewrite Hg. reflexivity.
Qed.

End ScanSoundness.

(** ** Predicates accepted by startScan *)

Section PredicateSafety.
Context `{Platform}.

Lemma strncmp_defined s1 : forall s2 n,
  n <= Z.of_nat (List.length s1) -> n <= Z.of_nat (List.length s2) ->
  exists d, strncmp s1 s2 n = Some d.
Proof.
  induction s1 as [|c1 t1 IH]; intros s2 n H1 H2.
  - cbn in H1. cbn. destruct (Z.leb_spec n 0); [eauto|lia].
  - destruct s2 as [|c2 t2].
    + cbn in H2. cbn. destruct (Z.leb_spec n 0); [eauto|lia].
    + cbn [strncmp]. destruct (n <=? 0); [eauto|].
      destruct (negb _); [eauto|]. destruct (_ =? 0); [eauto|].
      apply IH; cbn [List.length] in H1, H2; lia.
Qed.

Lemma readBytes_defined buf off len :
  0 <= off -> 0 <= len -> off + len <= Z.of_nat (List.length buf) ->
  exists bs, readBytes buf off len = Some bs.
Proof.
  intros Ho Hl Hb. unfold readBytes.
  destruct (Z.ltb_spec off 0); [lia|]. destruct (Z.ltb_spec len 0); [lia|].
  destruct (Z.ltb_spec (Z.of_nat (List.length buf)) (off + len)); [lia|].
  cbn. eauto.
Qed.

Lemma to_size_t_id z : 0 <= z <= INT_MAX -> to_size_t z = z.
Proof. unfold INT_MAX, to_size_t. intros Hz. apply Z.mod_small. lia. Qed.

(** X9.  A predicate that startScan has accepted is evaluated without an
    access outside the record or the filter value: every memcpy and
    strncmp of matchRec stays inside its buffers, for every record whose
    buffer holds [length] bytes, provided the filter holds [length_]
    bytes and [offset_ + length_ - 1] does not overflow.  This says
    nothing of the subtraction of the two integers of an INTEGER
    predicate, which overflows for values far apart. *)
Theorem matchRec_in_bounds offset_ length_ type_ flt op_ s0 s rec :
  HeapFileScan.startScan offset_ length_ type_ (Some flt) op_ s0 = (OK, s) ->
  is_int length_ ->
  is_int (offset_ + length_ - 1) ->
  length_ <= Z.of_nat (List.length flt) ->
  Rec.length rec <= Z.of_nat (List.length (Rec.data rec)) ->
  exists b, HeapFileScan.matchRec s rec = Some b.
Proof.
  intros Hstart Hl Hsum Hflt Hrec.
  pose proof (startScan_reject_iff offset_ length_ type_ op_ Hl) as Hiff.
  unfold HeapFileScan.startScan in Hstart.
  destruct (_ || _ || _ || _) eqn:E; [discriminate|].
  injection Hstart as <-.
  assert (Hgood : ~ badScanParm offset_ length_ type_ op_).
  { intros Hbad. apply Hiff in Hbad. congruence. }
  unfold badScanParm in Hgood.
  assert (Hoff : 0 <= offset_) by lia.
  assert (Hlen : 1 <= length_) by lia.
  assert (Hsz : to_size_t length_ = length_).
  { apply to_size_t_id. unfold is_int in Hl. lia. }
  unfold HeapFileScan.matchRec.
  cbn [HeapFileScan.filter HeapFileScan.setPredicate HeapFileScan.offset
       HeapFileScan.length HeapFileScan.type HeapFileScan.op].
  rewrite wrap32_sub_wrap32, (wrap32_id _ Hsum), Z.geb_leb, Hsz.
  destruct (Z.leb_spec (Rec.length rec) (offset_ + length_ - 1)); [eauto|].
  destruct (Z.eqb_spec type_ INTEGER) as [Hty|_].
  { assert (length_ = sizeof_int) as -> by (destruct (Z.eq_dec length_ sizeof_int); [auto|exfalso; apply Hgood; tauto]).
    unfold loadObject. rewrite Z.eqb_refl.
    destruct (readBytes_defined (Rec.data rec) offset_ sizeof_int) as (a & ->);
      [lia|unfold sizeof_int; lia|lia|].
    destruct (readBytes_defined flt 0 sizeof_int) as (f & ->);
      [lia|unfold sizeof_int; lia|lia|]. eauto. }
  destruct (Z.eqb_spec type_ FLOAT) as [Hty|_].
  { assert (length_ = sizeof_float) as -> by (destruct (Z.eq_dec length_ sizeof_float); [auto|exfalso; apply Hgood; tauto]).
    unfold loadObject. rewrite Z.eqb_refl.
    destruct (readBytes_defined (Rec.data rec) offset_ sizeof_float) as (a & ->);
      [lia|unfold sizeof_float; lia|lia|].
    destruct (readBytes_defined flt 0 sizeof_float) as (f & ->);
      [lia|unfold sizeof_float; lia|lia|]. eauto. }
  destruct (Z.eqb_spec type_ STRING) as [Hty|_]; [|eauto].
  destruct (Z.ltb_spec offset_ 0); [lia|].
  destruct (strncmp_defined (drop (Z.to_nat offset_) (Rec.data rec)) flt length_)
    as (d & ->); [rewrite length_drop; lia|lia|]. cbn. eauto.
Qed.

End PredicateSafety.


(** ** What insertRecord does to the file *)

Lemma allocPage_ok w :
  faults w = [] ->
  exists w',
    BufMgr.allocPage w = (OK, Some (BufMgr.freshPageNo (frames w)), w')
    /\ frames w' = <[BufMgr.freshPageNo (frames w) := Raw]> (frames w)
    /\ pinned w' = BufMgr.freshPageNo (frames w) :: pinned w
    /\ faults w' = []
    /\ log w' = mkEvent AllocPage OK (BufMgr.freshPageNo (frames w) :: pinned w)
                  :: log w.
Proof.
  intros Hf. unfold BufMgr.allocPage. rewrite (nextFault_none _ Hf).
  eexists. split; [reflexivity|]. cbn. rewrite Hf. auto.
Qed.

Lemma unPinPage_logged p d w l :
  faults w = [] -> BufMgr.unpin1 p (pinned w) = Some l ->
  exists w',
    BufMgr.unPinPage p d w = (OK, w')
    /\ frames w' = frames w /\ pinned w' = l /\ faults w' = []
    /\ log w' = mkEvent (UnPinPage p d) OK l :: log w.
Proof.
  intros Hf Hp. unfold BufMgr.unPinPage. rewrite (nextFault_none _ Hf), Hp.
  eexists. split; [reflexivity|]. cbn. rewrite Hf. auto.
Qed.

Section InsertEffects.
Context `{Platform}.

Lemma insertRecord_fits_effect fuel rec h w p pg hno hp rid pg' :
  HeapFile.curPage h = Some p -> frames w !! p = Some (Data pg) ->
  HeapFile.headerPage h = Some hno -> frames w !! hno = Some (Hdr hp) ->
  to_unsigned (Rec.length rec) <= PAGESIZE - DPFIXED ->
  Page.insertRecord pg rec = (OK, Some rid, pg') ->
  InsertFileScan.insertRecord (S fuel) rec h w
    = Done (OK, Some rid,
            HeapFile.setHdrDirtyFlag true
              (HeapFile.setCurDirtyFlag true (HeapFile.setCurRec rid h)),
            setFrame hno (Hdr (oneMoreRecord hp)) (setFrame p (Data pg') w)).
Proof.
  intros Hcur Hpg Hhdr Hhp Hfit Hins.
  assert (Hne : p <> hno) by (intros ->; rewrite Hpg in Hhp; discriminate).
  unfold InsertFileScan.insertRecord.
  destruct (Z.gtb_spec (to_unsigned (Rec.length rec)) (PAGESIZE - DPFIXED)); [lia|].
  rewrite Hcur. cbn [InsertFileScan.insertLoop]. unfold derefPage at 1.
  rewrite Hcur, Hpg, Hins.
  unfold HeapFile.updHeader, HeapFile.storeCurPage, derefHdr.
  cbn. rewrite Hcur, Hhdr. cbn. rewrite lookup_insert_ne by exact Hne.
  rewrite Hhp. reflexivity.
Qed.

Lemma insertRecord_grows_effect fuel rec h w p pg hno hp tl :
  HeapFile.curPage h = Some p -> HeapFile.curPageNo h = p ->
  frames w !! p = Some (Data pg) ->
  HeapFile.headerPage h = Some hno -> frames w !! hno = Some (Hdr hp) ->
  is_int (Rec.length rec) ->
  to_unsigned (Rec.length rec) <= PAGESIZE - DPFIXED ->
  Page.insertRecord pg rec = (NOSPACE, None, pg) ->
  faults w = [] -> pinned w = p :: tl ->
  exists w',
    InsertFileScan.insertRecord (S (S fuel)) rec h w
      = Done (OK, Some (mkRID (BufMgr.freshPageNo (frames w)) 0),
              HeapFile.setHdrDirtyFlag true
                (HeapFile.setCurDirtyFlag true
                  (HeapFile.setCurRec (mkRID (BufMgr.freshPageNo (frames w)) 0)
                    (HeapFile.setCur (Some (BufMgr.freshPageNo (frames w)))
                       (BufMgr.freshPageNo (frames w)) true
                       (HeapFile.setHdrDirtyFlag true h)))),
              w')
    /\ frames w'
       = <[hno := Hdr (oneMoreRecord
                         (mkHdr (fileName hp) (firstPage hp)
                            (BufMgr.freshPageNo (frames w)) (pageCnt hp) (recCnt hp)))]>
           (<[BufMgr.freshPageNo (frames w)
                := Data (Page.mk (BufMgr.freshPageNo (frames w)) (-1) [Some rec])]>
              (<[hno := Hdr (mkHdr (fileName hp) (firstPage hp)
                               (BufMgr.freshPageNo (frames w)) (pageCnt hp) (recCnt hp))]>
                 (<[p := Data (Page.setNextPage pg (BufMgr.freshPageNo (frames w)))]>
                    (<[BufMgr.freshPageNo (frames w)
                         := Data (Page.init (BufMgr.freshPageNo (frames w)))]>
                       (<[BufMgr.freshPageNo (frames w) := Raw]> (frames w))))))
    /\ pinned w' = BufMgr.freshPageNo (frames w) :: tl
    /\ faults w' = []
    /\ log w'
       = [mkEvent (UnPinPage p (HeapFile.curDirtyFlag h)) OK
                  (BufMgr.freshPageNo (frames w) :: tl);
          mkEvent AllocPage OK (BufMgr.freshPageNo (frames w) :: p :: tl)]
         ++ log w.
Proof.
  intros Hcur Hno Hpg Hhdr Hhp Hint Hfit Hins Hfa Hpins.
  pose proof (to_unsigned_ge _ Hint) as Hge.
  assert (Hle : Rec.length rec <= PAGESIZE - DPFIXED) by lia.
  assert (Hne : p <> hno) by (intros ->; rewrite Hpg in Hhp; discriminate).
  set (n := BufMgr.freshPageNo (frames w)).
  assert (Hfresh : frames w !! n = None) by apply freshPageNo_fresh.
  assert (Hnp : n <> p) by (intros E; rewrite E, Hpg in Hfresh; discriminate).
  assert (Hnh : n <> hno) by (intros E; rewrite E, Hhp in Hfresh; discriminate).
  unfold InsertFileScan.insertRecord.
  destruct (Z.gtb_spec (to_unsigned (Rec.length rec)) (PAGESIZE - DPFIXED)); [lia|].
  rewrite Hcur. remember (S fuel) as fuel1 eqn:Hfuel.
  cbn [InsertFileScan.insertLoop]. unfold derefPage at 1.
  rewrite Hcur, Hpg, Hins.
  destruct (allocPage_ok w Hfa) as (w1 & -> & Hfr1 & Hpin1 & Hfa1 & Hlog1). fold n in Hfr1, Hpin1, Hlog1 |- *.
  unfold derefPage at 1. cbn [setFrame setFrames frames].
  rewrite Hfr1, !lookup_insert_ne, Hpg by congruence.
  unfold HeapFile.storeCurPage. rewrite Hcur, Hno.
  match goal with
  | |- context [BufMgr.unPinPage p ?d ?w2] =>
      destruct (unPinPage_logged p d w2 (n :: tl)) as (w3 & -> & Hfr3 & Hpin3 & Hfa3 & Hlog3)
  end.
  { exact Hfa1. }
  { cbn. rewrite Hpin1, Hpins. cbn.
    destruct (Z.eqb_spec n p); [contradiction|]. rewrite Z.eqb_refl. reflexivity. }
  cbn in Hfr3, Hlog3. rewrite Hfr1 in Hfr3. rewrite Hlog1 in Hlog3.
  unfold HeapFile.updHeader, derefHdr. rewrite Hhdr, Hfr3.
  rewrite !lookup_insert_ne, Hhp by congruence.
  match goal with
  | |- context [InsertFileScan.insertLoop fuel1 rec ?h2 ?w4] =>
      set (hnew := h2); set (w5 := w4)
  end.
  subst fuel1. cbn [InsertFileScan.insertLoop]. unfold derefPage at 1.
  assert (Hfr5 : frames w5
                 = <[hno := Hdr (mkHdr (fileName hp) (firstPage hp) n (pageCnt hp) (recCnt hp))]>
                     (<[p := Data (Page.setNextPage pg n)]>
                        (<[n := Data (Page.init n)]> (<[n := Raw]> (frames w))))).
  { unfold w5. cbn. rewrite Hfr3. reflexivity. }
  change (HeapFile.curPage hnew) with (Some n).
  rewrite Hfr5. rewrite lookup_insert_ne by congruence.
  rewrite lookup_insert_ne by congruence. rewrite lookup_insert_eq.
  rewrite (insertRecord_fresh_page n rec Hle).
  unfold HeapFile.updHeader, HeapFile.storeCurPage, derefHdr.
  change (HeapFile.headerPage (HeapFile.setCurDirtyFlag true
            (HeapFile.setCurRec (mkRID n 0) hnew))) with (HeapFile.headerPage h).
  change (HeapFile.curPage hnew) with (Some n).
  rewrite Hhdr. cbn [frames setFrame setFrames]. rewrite Hfr5.
  rewrite lookup_insert_ne by congruence. rewrite lookup_insert_eq.
  eexists. split; [reflexivity|]. subst w5 hnew. cbn [frames pinned faults log setFrame setFrames].
  split; [rewrite Hfr3; reflexivity|]. split; [exact Hpin3|]. split; [exact Hfa3|].
  rewrite Hlog3, Hpins. reflexivity.
Qed.

End InsertEffects.


Section ChainSurgery.
Context `{Platform}.

Lemma chain_lookup fr first pgs q :
  chain fr first pgs -> q ∈ pgs -> fr !! Page.curPage q = Some (Data q).
Proof.
  revert first. induction pgs as [|pg rest IH]; intros first Hc Hin.
  - inversion Hin.
  - destruct Hc as (_ & Hf & Hs & Hr).
    apply elem_of_cons in Hin as [->|Hin]; [rewrite Hs; exact Hf|eauto].
Qed.

Lemma chain_agree fr fr' first pgs :
  (forall q, q ∈ pgs -> fr' !! Page.curPage q = fr !! Page.curPage q) ->
  chain fr first pgs -> chain fr' first pgs.
Proof.
  revert first. induction pgs as [|pg rest IH]; intros first Hag Hc; [exact Hc|].
  destruct Hc as (Hp & Hf & Hs & Hr). cbn.
  split; [exact Hp|]. split.
  - rewrite <- Hs, Hag by (apply elem_of_cons; auto). rewrite Hs. exact Hf.
  - split; [exact Hs|]. apply IH; [|exact Hr].
    intros q Hq. apply Hag. apply elem_of_cons. auto.
Qed.

Lemma chain_suffix fr first l1 l2 :
  chain fr first (l1 ++ l2) -> exists mid, chain fr mid l2.
Proof.
  revert first. induction l1 as [|pg l1 IH]; intros first Hc; [eauto|].
  destruct Hc as (_ & _ & _ & Hr). eauto.
Qed.

(** Replacing the page [pg] of a chain and what follows it. *)
Lemma chain_splice fr fr' first pre pg post pg2 post2 :
  chain fr first (pre ++ pg :: post) ->
  (forall q, q ∈ pre -> fr' !! Page.curPage q = fr !! Page.curPage q) ->
  fr' !! Page.curPage pg = Some (Data pg2) ->
  Page.curPage pg2 = Page.curPage pg ->
  chain fr' (Page.nextPage pg2) post2 ->
  chain fr' first (pre ++ pg2 :: post2).
Proof.
  revert first. induction pre as [|q pre IH]; intros first Hc Hag Hf2 Hs2 Hc2.
  - destruct Hc as (Hp & Hf & Hs & _). cbn.
    split; [exact Hp|]. split; [rewrite <- Hs; exact Hf2|].
    split; [congruence|exact Hc2].
  - destruct Hc as (Hp & Hf & Hs & Hr). cbn.
    split; [exact Hp|]. split.
    + rewrite <- Hs, Hag by (apply elem_of_cons; auto). rewrite Hs. exact Hf.
    + split; [exact Hs|]. apply IH; auto.
      intros q' Hq'. apply Hag. apply elem_of_cons. auto.
Qed.

Lemma chain_others_differ fr first pre pg post q :
  chain fr first (pre ++ pg :: post) ->
  q ∈ pre \/ q ∈ post -> Page.curPage q <> Page.curPage pg.
Proof.
  intros Hc Hin. apply chain_NoDup in Hc.
  rewrite fmap_app, fmap_cons in Hc.
  apply NoDup_app in Hc as (_ & Hdis & Hnd).
  apply NoDup_cons in Hnd as (Hnot & _).
  destruct Hin as [Hin|Hin].
  - intros E. apply (Hdis (Page.curPage q)).
    + apply list_elem_of_fmap. eauto.
    + rewrite E. apply elem_of_cons. auto.
  - intros E. apply Hnot. rewrite <- E. apply list_elem_of_fmap. eauto.
Qed.

Lemma fileRids_app l1 l2 : fileRids (l1 ++ l2) = fileRids l1 ++ fileRids l2.
Proof. unfold fileRids. rewrite map_app, concat_app. reflexivity. Qed.

Lemma fileRids_cons pg l : fileRids (pg :: l) = Page.liveRids pg ++ fileRids l.
Proof. reflexivity. Qed.

Lemma liveFrom_snoc l p i rec :
  Page.liveFrom (l ++ [Some rec]) p i
    = Page.liveFrom l p i ++ [mkRID p (i + Z.of_nat (List.length l))].
Proof.
  revert i. induction l as [|[x|] l IH]; intros i; cbn [Page.liveFrom app List.length].
  - rewrite Z.add_0_r. reflexivity.
  - rewrite IH. cbn [app]. f_equal. f_equal. f_equal. f_equal. lia.
  - rewrite IH. f_equal. f_equal. f_equal. lia.
Qed.

Lemma liveFrom_delete l p i j rec :
  l !! j = Some (Some rec) ->
  exists a b,
    Page.liveFrom l p i = a ++ mkRID p (i + Z.of_nat j) :: b
    /\ Page.liveFrom (<[j := None]> l) p i = a ++ b.
Proof.
  revert i j. induction l as [|x l IH]; intros i j Hl; [discriminate|].
  destruct j as [|j].
  - injection Hl as ->. exists [], (Page.liveFrom l p (i + 1)).
    cbn. rewrite Z.add_0_r. auto.
  - cbn in Hl. destruct (IH (i + 1) j Hl) as (a & b & Ha & Hb).
    replace (i + 1 + Z.of_nat j) with (i + Z.of_nat (S j)) in Ha by lia.
    destruct x as [r0|]; cbn [Page.liveFrom].
    + exists (mkRID p i :: a), b.
      change (<[S j := None]> (Some r0 :: l)) with (Some r0 :: <[j := None]> l).
      cbn [Page.liveFrom]. rewrite Ha, Hb. auto.
    + exists a, b.
      change (<[S j := None]> (None :: l)) with (None :: <[j := None]> l).
      cbn [Page.liveFrom]. rewrite Ha, Hb. auto.
Qed.

Lemma liveFrom_put l p i rec :
  exists a b,
    Page.liveFrom l p i = a ++ b
    /\ Page.liveFrom (Page.putSlot l (Page.slotFor l rec) rec) p i
       = a ++ mkRID p (i + Z.of_nat (Page.slotFor l rec)) :: b.
Proof.
  unfold Page.putSlot.
  destruct (Nat.ltb_spec (Page.slotFor l rec) (List.length l)) as [Hlt|Hge].
  - destruct (slotFor_spec l rec) as [E|E]; [lia|].
    destruct (liveFrom_delete (<[Page.slotFor l rec := Some rec]> l) p i
                (Page.slotFor l rec) rec) as (a & b & Ha & Hb).
    { apply list_lookup_insert_eq. exact Hlt. }
    rewrite list_insert_insert_eq, (list_insert_id _ _ _ E) in Hb.
    exists a, b. auto.
  - destruct (slotFor_spec l rec) as [E|E]; [|apply lookup_lt_Some in E; lia].
    rewrite E, liveFrom_snoc. exists (Page.liveFrom l p i), [].
    rewrite app_nil_r. auto.
Qed.

End ChainSurgery.


Section InsertProperties.
Context `{Platform}.

Lemma setCurRec_same h : HeapFile.setCurRec (HeapFile.curRec h) h = h.
Proof. destruct h. reflexivity. Qed.

(** X10.  Round trip: after insertRecord has returned OK with a RID,
    HeapFile::getRecord on the same handle returns the inserted record for
    that RID, without a call into the buffer pool and without changing the
    handle.  This holds whether the record went on the current page or on
    a newly allocated one. *)
Theorem insertRecord_then_getRecord fuel rec h w p pg hno hp tl :
  onPage h w p pg hno hp ->
  is_int (Rec.length rec) ->
  to_unsigned (Rec.length rec) <= PAGESIZE - DPFIXED ->
  faults w = [] -> pinned w = p :: tl -> (2 <= fuel)%nat ->
  exists rid h' w',
    InsertFileScan.insertRecord fuel rec h w = Done (OK, Some rid, h', w')
    /\ HeapFile.getRecord rid h' w' = Done (OK, Some rec, h', w').
Proof.
  intros (Hcur & Hno & Hpg & Hself & Hhdr & Hhp) Hint Hfit Hfa Hpins Hfuel.
  assert (Hne : p <> hno) by (intros ->; rewrite Hpg in Hhp; discriminate).
  destruct fuel as [|[|fuel]]; try lia.
  destruct (Page.insertRecord pg rec) as [[st orid] pg'] eqn:Hins.
  pose proof Hins as Hins0. unfold Page.insertRecord in Hins0.
  destruct (Rec.length rec <=? Page.freeSpace pg); injection Hins0 as <- <- <-.
  - eexists _, _, _. split.
    { eapply insertRecord_fits_effect; eassumption. }
    unfold HeapFile.getRecord.
    cbn [HeapFile.curPage HeapFile.curPageNo HeapFile.setHdrDirtyFlag
         HeapFile.setCurDirtyFlag HeapFile.setCurRec HeapFile.setCur pageNo].
    rewrite Hcur, Hno, Hself, Z.eqb_refl.
    replace (bool_decide (Some p = None)) with false
      by (symmetry; apply bool_decide_eq_false; discriminate).
    cbn [orb negb]. unfold derefPage. cbn [HeapFile.curPage].
    cbn [frames setFrame setFrames].
    rewrite lookup_insert_ne by congruence. rewrite lookup_insert_eq.
    unfold Page.getRecord, Page.slotAt. cbn [slotNo Page.slots].
    destruct (Z.ltb_spec (Z.of_nat (Page.slotFor (Page.slots pg) rec)) 0); [lia|].
    rewrite Nat2Z.id, putSlot_lookup. cbn. destruct h; reflexivity.
  - destruct (insertRecord_grows_effect fuel rec h w p pg hno hp tl)
      as (w' & Hrun & Hfr & _); try assumption.
    set (n := BufMgr.freshPageNo (frames w)) in *.
    assert (Hfresh : frames w !! n = None) by apply freshPageNo_fresh.
    assert (Hnh : n <> hno) by (intros E; rewrite E, Hhp in Hfresh; discriminate).
    eexists _, _, w'. split; [exact Hrun|].
    unfold HeapFile.getRecord.
    cbn [HeapFile.curPage HeapFile.curPageNo HeapFile.setHdrDirtyFlag
         HeapFile.setCurDirtyFlag HeapFile.setCurRec HeapFile.setCur pageNo].
    rewrite Z.eqb_refl.
    replace (bool_decide (Some n = None)) with false
      by (symmetry; apply bool_decide_eq_false; discriminate).
    cbn [orb negb]. unfold derefPage. cbn [HeapFile.curPage]. rewrite Hfr.
    rewrite lookup_insert_ne by congruence. rewrite lookup_insert_eq.
    destruct h; reflexivity.
Qed.

(** X11.  The header after a successful insertRecord: recCnt is one more
    (modulo 2^32), firstPage is unchanged, and so is pageCnt, also when a
    page has been allocated, in which case lastPage is the new page and
    the new page is the current page.  Both dirty flags are set. *)
Theorem insertRecord_header_counts fuel rec h w p pg hno hp tl :
  onPage h w p pg hno hp ->
  is_int (Rec.length rec) ->
  to_unsigned (Rec.length rec) <= PAGESIZE - DPFIXED ->
  faults w = [] -> pinned w = p :: tl -> (2 <= fuel)%nat ->
  exists rid h' w' hp',
    InsertFileScan.insertRecord fuel rec h w = Done (OK, Some rid, h', w')
    /\ HeapFile.hdrDirtyFlag h' = true /\ HeapFile.curDirtyFlag h' = true
    /\ frames w' !! hno = Some (Hdr hp')
    /\ recCnt hp' = wrap32 (recCnt hp + 1)
    /\ pageCnt hp' = pageCnt hp
    /\ firstPage hp' = firstPage hp
    /\ ((HeapFile.curPageNo h' = p /\ lastPage hp' = lastPage hp)
        \/ (frames w !! HeapFile.curPageNo h' = None
            /\ is_Some (frames w' !! HeapFile.curPageNo h')
            /\ lastPage hp' = HeapFile.curPageNo h')).
Proof.
  intros (Hcur & Hno & Hpg & Hself & Hhdr & Hhp) Hint Hfit Hfa Hpins Hfuel.
  destruct fuel as [|[|fuel]]; try lia.
  destruct (Page.insertRecord pg rec) as [[st orid] pg'] eqn:Hins.
  pose proof Hins as Hins0. unfold Page.insertRecord in Hins0.
  destruct (Rec.length rec <=? Page.freeSpace pg); injection Hins0 as <- <- <-.
  - eexists _, _, _, _. split.
    { eapply insertRecord_fits_effect; eassumption. }
    cbn [HeapFile.hdrDirtyFlag HeapFile.curDirtyFlag HeapFile.curPageNo
         HeapFile.setHdrDirtyFlag HeapFile.setCurDirtyFlag HeapFile.setCurRec
         HeapFile.setCur frames setFrame setFrames].
    split; [reflexivity|]. split; [reflexivity|].
    split; [apply lookup_insert_eq|].
    split; [reflexivity|]. split; [reflexivity|]. split; [reflexivity|].
    left. auto.
  - destruct (insertRecord_grows_effect fuel rec h w p pg hno hp tl)
      as (w' & Hrun & Hfr & _); try assumption.
    set (n := BufMgr.freshPageNo (frames w)) in *.
    assert (Hfresh : frames w !! n = None) by apply freshPageNo_fresh.
    assert (Hnh : n <> hno) by (intros E; rewrite E, Hhp in Hfresh; discriminate).
    eexists _, _, w', _. split; [exact Hrun|].
    cbn [HeapFile.hdrDirtyFlag HeapFile.curDirtyFlag HeapFile.curPageNo
         HeapFile.setHdrDirtyFlag HeapFile.setCurDirtyFlag HeapFile.setCurRec
         HeapFile.setCur].
    split; [reflexivity|]. split; [reflexivity|].
    split; [rewrite Hfr; apply lookup_insert_eq|].
    split; [reflexivity|]. split; [reflexivity|]. split; [reflexivity|].
    right. split; [exact Hfresh|]. split; [|reflexivity].
    rewrite Hfr. rewrite lookup_insert_ne by congruence.
    rewrite lookup_insert_eq. eauto.
Qed.

(** X12.  When the current page is full and its dirty flag is clear,
    insertRecord writes the forward link into that page and then unpins it
    with dirty = false: no unPinPage of that page declares it dirty. *)
Theorem insertRecord_unpins_full_page_clean fuel rec h w p pg hno hp tl :
  onPage h w p pg hno hp ->
  is_int (Rec.length rec) ->
  to_unsigned (Rec.length rec) <= PAGESIZE - DPFIXED ->
  faults w = [] -> pinned w = p :: tl -> (2 <= fuel)%nat ->
  Page.freeSpace pg < Rec.length rec ->
  HeapFile.curDirtyFlag h = false ->
  exists rid h' w' evs,
    InsertFileScan.insertRecord fuel rec h w = Done (OK, Some rid, h', w')
    /\ frames w' !! p = Some (Data (Page.setNextPage pg (pageNo rid)))
    /\ log w' = evs ++ log w
    /\ Exists (fun e => ev_call e = UnPinPage p false /\ ev_status e = OK) evs
    /\ Forall (fun e => ev_call e <> UnPinPage p true) evs.
Proof.
  intros (Hcur & Hno & Hpg & Hself & Hhdr & Hhp) Hint Hfit Hfa Hpins Hfuel Hfull Hclean.
  assert (Hne : p <> hno) by (intros ->; rewrite Hpg in Hhp; discriminate).
  destruct fuel as [|[|fuel]]; try lia.
  assert (Hins : Page.insertRecord pg rec = (NOSPACE, None, pg)).
  { unfold Page.insertRecord.
    destruct (Z.leb_spec (Rec.length rec) (Page.freeSpace pg)); [lia|reflexivity]. }
  destruct (insertRecord_grows_effect fuel rec h w p pg hno hp tl)
    as (w' & Hrun & Hfr & _ & _ & Hlog); try assumption.
  set (n := BufMgr.freshPageNo (frames w)) in *.
  assert (Hfresh : frames w !! n = None) by apply freshPageNo_fresh.
  assert (Hnp : n <> p) by (intros E; rewrite E, Hpg in Hfresh; discriminate).
  assert (Hnh : n <> hno) by (intros E; rewrite E, Hhp in Hfresh; discriminate).
  eexists _, _, w', _. split; [exact Hrun|].
  split.
  { rewrite Hfr. cbn [pageNo]. rewrite !lookup_insert_ne by congruence.
    rewrite lookup_insert_eq. reflexivity. }
  split; [exact Hlog|]. rewrite Hclean. split.
  - apply Exists_cons_hd. split; reflexivity.
  - repeat constructor; cbn; discriminate.
Qed.

(** X13.  insertRecord when the record fits on the current page: no call
    into the buffer pool, and the chain of data pages keeps its pages.
    The RID handed out is on the current page and was not a RID of the
    file; the records of the file are those from before, in their order,
    with the new RID among those of the current page.  Where among them
    is the page layer's choice. *)
Theorem insertRecord_fits_chain fuel rec h w p pg hno hp first pre post :
  onPage h w p pg hno hp ->
  to_unsigned (Rec.length rec) <= PAGESIZE - DPFIXED ->
  Rec.length rec <= Page.freeSpace pg ->
  chain (frames w) first (pre ++ pg :: post) ->
  (1 <= fuel)%nat ->
  exists rid h' w' pg' a b,
    InsertFileScan.insertRecord fuel rec h w = Done (OK, Some rid, h', w')
    /\ log w' = log w
    /\ chain (frames w') first (pre ++ pg' :: post)
    /\ pageNo rid = p
    /\ Page.liveRids pg = a ++ b
    /\ fileRids (pre ++ pg' :: post)
       = fileRids pre ++ (a ++ rid :: b) ++ fileRids post
    /\ (rid ∉ fileRids (pre ++ pg :: post)).
Proof.
  intros (Hcur & Hno & Hpg & Hself & Hhdr & Hhp) Hfit Hroom Hchain Hfuel.
  assert (Hne : p <> hno) by (intros ->; rewrite Hpg in Hhp; discriminate).
  destruct fuel as [|fuel]; try lia.
  set (j := Page.slotFor (Page.slots pg) rec).
  set (pg' := Page.mk (Page.curPage pg) (Page.nextPage pg)
                (Page.putSlot (Page.slots pg) j rec)).
  assert (Hins : Page.insertRecord pg rec
                 = (OK, Some (mkRID (Page.curPage pg) (Z.of_nat j)), pg')).
  { unfold Page.insertRecord.
    destruct (Z.leb_spec (Rec.length rec) (Page.freeSpace pg)); [reflexivity|lia]. }
  destruct (liveFrom_put (Page.slots pg) (Page.curPage pg) 0 rec) as (a & b & Ha & Hb).
  fold j in Hb. rewrite Z.add_0_l in Hb.
  exists (mkRID (Page.curPage pg) (Z.of_nat j)),
         (HeapFile.setHdrDirtyFlag true
            (HeapFile.setCurDirtyFlag true
               (HeapFile.setCurRec (mkRID (Page.curPage pg) (Z.of_nat j)) h))),
         (setFrame hno (Hdr (oneMoreRecord hp)) (setFrame p (Data pg') w)),
         pg', a, b.
  split.
  { eapply insertRecord_fits_effect; eassumption. }
  split; [reflexivity|]. cbn [frames setFrame setFrames].
  assert (Hother : forall q, q ∈ pre \/ q ∈ post ->
            (<[hno:=Hdr (oneMoreRecord hp)]> (<[p:=Data pg']> (frames w)))
              !! Page.curPage q = frames w !! Page.curPage q).
  { intros q Hq.
    assert (Hin : q ∈ pre ++ pg :: post).
    { apply elem_of_app. destruct Hq; [auto|right; apply elem_of_cons; auto]. }
    pose proof (chain_lookup _ _ _ _ Hchain Hin) as Hlk.
    pose proof (chain_others_differ _ _ _ _ _ _ Hchain Hq) as Hd.
    rewrite lookup_insert_ne by (intros E; rewrite <- E, Hhp in Hlk; discriminate).
    rewrite lookup_insert_ne by congruence. reflexivity. }
  split; [|split; [exact Hself|split; [exact Ha|split]]].
  - eapply chain_splice; [exact Hchain| | | |].
    + intros q Hq. apply Hother. auto.
    + rewrite Hself. rewrite lookup_insert_ne by congruence. apply lookup_insert_eq.
    + reflexivity.
    + destruct (chain_suffix _ _ pre (pg :: post) Hchain) as (mid & Hmid).
      destruct Hmid as (_ & _ & _ & Hpost). cbn [Page.nextPage pg'].
      eapply chain_agree; [|exact Hpost]. intros q Hq. apply Hother. auto.
  - rewrite fileRids_app, fileRids_cons. unfold Page.liveRids at 1.
    cbn [Page.slots Page.curPage pg']. rewrite Hb. reflexivity.
  - intros Hin. rewrite fileRids_app, fileRids_cons in Hin.
    apply elem_of_app in Hin as [Hin|Hin];
      [|apply elem_of_app in Hin as [Hin|Hin]].
    + apply fileRids_pageNo in Hin. cbn [pageNo] in Hin.
      apply list_elem_of_fmap in Hin as (q & Hq & Hin).
      symmetry in Hq. revert Hq.
      apply (chain_others_differ _ _ _ _ _ _ Hchain). auto.
    + unfold Page.liveRids in Hin. rewrite Ha in Hin.
      pose proof (liveFrom_NoDup (Page.putSlot (Page.slots pg) j rec)
                    (Page.curPage pg) 0) as Hnd.
      rewrite Hb in Hnd. apply NoDup_app in Hnd as (_ & Hdis & Hnd).
      apply NoDup_cons in Hnd as [Hnot _].
      apply elem_of_app in Hin as [Hin|Hin]; [|contradiction].
      apply (Hdis _ Hin). apply elem_of_cons. auto.
    + apply fileRids_pageNo in Hin. cbn [pageNo] in Hin.
      apply list_elem_of_fmap in Hin as (q & Hq & Hin).
      symmetry in Hq. revert Hq.
      apply (chain_others_differ _ _ _ _ _ _ Hchain). auto.
Qed.

(** X14.  insertRecord when the record does not fit on the current page:
    the current page is linked to a new page holding the one record, and
    the chain ends there.  The pages that followed the current page are
    no longer on the chain, so none of their records is a record of the
    file any more; the constructor leaves the handle on the first page. *)
Theorem insertRecord_grows_chain fuel rec h w p pg hno hp tl first pre post :
  onPage h w p pg hno hp ->
  is_int (Rec.length rec) ->
  to_unsigned (Rec.length rec) <= PAGESIZE - DPFIXED ->
  Page.freeSpace pg < Rec.length rec ->
  faults w = [] -> pinned w = p :: tl ->
  chain (frames w) first (pre ++ pg :: post) ->
  (2 <= fuel)%nat ->
  exists rid h' w' pgs',
    InsertFileScan.insertRecord fuel rec h w = Done (OK, Some rid, h', w')
    /\ pgs' = pre ++ [Page.setNextPage pg (pageNo rid);
                      Page.mk (pageNo rid) (-1) [Some rec]]
    /\ chain (frames w') first pgs'
    /\ fileRids pgs' = fileRids pre ++ Page.liveRids pg ++ [rid]
    /\ forall r, r ∈ fileRids post -> r ∉ fileRids pgs'.
Proof.
  intros (Hcur & Hno & Hpg & Hself & Hhdr & Hhp) Hint Hfit Hfull Hfa Hpins Hchain Hfuel.
  assert (Hne : p <> hno) by (intros ->; rewrite Hpg in Hhp; discriminate).
  destruct fuel as [|[|fuel]]; try lia.
  assert (Hins : Page.insertRecord pg rec = (NOSPACE, None, pg)).
  { unfold Page.insertRecord.
    destruct (Z.leb_spec (Rec.length rec) (Page.freeSpace pg)); [lia|reflexivity]. }
  destruct (insertRecord_grows_effect fuel rec h w p pg hno hp tl)
    as (w' & Hrun & Hfr & _); try assumption.
  set (n := BufMgr.freshPageNo (frames w)) in *.
  assert (Hfresh : frames w !! n = None) by apply freshPageNo_fresh.
  assert (Hnp : n <> p) by (intros E; rewrite E, Hpg in Hfresh; discriminate).
  assert (Hnh : n <> hno) by (intros E; rewrite E, Hhp in Hfresh; discriminate).
  assert (Hn1 : n <> -1) by (unfold n, BufMgr.freshPageNo; lia).
  assert (Hold : forall q, q ∈ pre ++ pg :: post ->
            Page.curPage q <> n /\ Page.curPage q <> hno).
  { intros q Hin. pose proof (chain_lookup _ _ _ _ Hchain Hin) as Hlk.
    split; intros E; rewrite E in Hlk; congruence. }
  assert (Hother : forall q, q ∈ pre \/ q ∈ post ->
            frames w' !! Page.curPage q = frames w !! Page.curPage q).
  { intros q Hq.
    assert (Hin : q ∈ pre ++ pg :: post).
    { apply elem_of_app. destruct Hq; [auto|right; apply elem_of_cons; auto]. }
    destruct (Hold q Hin) as (Hqn & Hqh).
    pose proof (chain_others_differ _ _ _ _ _ _ Hchain Hq) as Hd.
    rewrite Hfr, !lookup_insert_ne by congruence. reflexivity. }
  eexists _, _, w', _. split; [exact Hrun|]. split; [reflexivity|].
  cbn [pageNo]. split; [|split].
  - eapply chain_splice; [exact Hchain| | | |].
    + intros q Hq. apply Hother. auto.
    + rewrite Hself, Hfr, !lookup_insert_ne by congruence. apply lookup_insert_eq.
    + reflexivity.
    + cbn. split; [exact Hn1|]. split; [|auto].
      rewrite Hfr, lookup_insert_ne by congruence. apply lookup_insert_eq.
  - rewrite fileRids_app. unfold fileRids at 2. cbn. reflexivity.
  - intros r Hr Hin. apply fileRids_pageNo in Hr.
    apply list_elem_of_fmap in Hr as (q & Hq & Hqin).
    assert (Hin' : q ∈ pre ++ pg :: post).
    { apply elem_of_app. right. apply elem_of_cons. auto. }
    destruct (Hold q Hin') as (Hqn & _).
    pose proof (chain_NoDup _ _ _ Hchain) as Hnd.
    apply fileRids_pageNo in Hin. rewrite fmap_app in Hin. cbn in Hin.
    apply elem_of_app in Hin as [Hin|Hin].
    + apply list_elem_of_fmap in Hin as (q' & Hq' & Hin).
      rewrite fmap_app, fmap_cons in Hnd.
      apply NoDup_app in Hnd as (_ & Hdis & _).
      apply (Hdis (Page.curPage q')); [apply list_elem_of_fmap; eauto|].
      apply elem_of_cons. right. apply list_elem_of_fmap.
      exists q. split; [congruence|exact Hqin].
    + apply elem_of_cons in Hin as [Hin|Hin].
      * assert (Hd := chain_others_differ _ _ _ _ _ _ Hchain (or_intror Hqin)).
        congruence.
      * apply elem_of_cons in Hin as [Hin|Hin]; [congruence|inversion Hin].
Qed.

End InsertProperties.


(** ** Filtered scans *)

Section FilteredScan.
Context `{Platform}.

Lemma drop_head_lookup {A} (l : list A) k x l' :
  drop k l = x :: l' -> l !! k = Some x /\ drop (S k) l = l'.
Proof.
  revert k. induction l as [|y l IH]; intros k Hd.
  - rewrite drop_nil in Hd. discriminate.
  - destruct k as [|k]; cbn in Hd.
    + injection Hd as -> ->. split; [reflexivity|]. cbn. apply drop_0.
    + apply IH in Hd. exact Hd.
Qed.

Lemma findLive_matchFrom s l p i :
  match Page.findLive l i with
  | Some j =>
      i <= j
      /\ exists r l', drop (Z.to_nat (j - i)) l = Some r :: l'
           /\ matchFrom s l p i = matchFrom s (Some r :: l') p j
  | None => matchFrom s l p i = []
  end.
Proof.
  revert i. induction l as [|[r|] l IH]; intros i; cbn [Page.findLive].
  - reflexivity.
  - split; [lia|]. exists r, l. rewrite Z.sub_diag. cbn. auto.
  - specialize (IH (i + 1)). destruct (Page.findLive l (i + 1)) as [j|].
    + destruct IH as (Hle & r & l' & Hd & Hm). split; [lia|]. exists r, l'.
      replace (Z.to_nat (j - i)) with (S (Z.to_nat (j - (i + 1)))) by lia.
      cbn. auto.
    + cbn. exact IH.
Qed.

(** The inner loop of scanNext from a live slot. *)
Lemma scanPage_filtered s pg n :
  forall j r0 l' h,
    0 <= j ->
    drop (Z.to_nat j) (Page.slots pg) = Some r0 :: l' ->
    (List.length l' < n)%nat ->
    (forall r, Some r ∈ Page.slots pg -> HeapFileScan.matchRec s r <> None) ->
    HeapFileScan.scanPage n s pg (mkRID (Page.curPage pg) j) h
      = match matchFrom s (Some r0 :: l') (Page.curPage pg) j with
        | r :: _ => Done (HeapFileScan.Found r, HeapFile.setCurRec r h)
        | [] => Done (HeapFileScan.EndOfPage, HeapFile.setCurRec NULLRID h)
        end.
Proof.
  induction n as [|n IH]; intros j r0 l' h Hj Hd Hlen Hev; [lia|].
  destruct (drop_head_lookup _ _ _ _ Hd) as (Hlk & Hd').
  cbn [HeapFileScan.scanPage]. unfold Page.getRecord, Page.slotAt. cbn [slotNo].
  destruct (Z.ltb_spec j 0); [lia|]. rewrite Hlk. cbn [mjoin option_join].
  cbn [matchFrom].
  assert (Hin0 : Some r0 ∈ Page.slots pg).
  { apply list_elem_of_lookup. eauto. }
  destruct (HeapFileScan.matchRec s r0) as [[]|] eqn:Em;
    [reflexivity| |exfalso; exact (Hev r0 Hin0 Em)].
  unfold Page.nextRecord. cbn [slotNo].
  replace (Z.max 0 (j + 1)) with (j + 1) by lia.
  replace (Z.to_nat (j + 1)) with (S (Z.to_nat j)) by lia. rewrite Hd'.
  pose proof (findLive_matchFrom s l' (Page.curPage pg) (j + 1)) as Hfind.
  destruct (Page.findLive l' (j + 1)) as [j2|].
  - destruct Hfind as (Hle & r2 & l2 & Hd2 & Hm2). rewrite Hm2.
    rewrite (IH j2 r2 l2 (HeapFile.setCurRec (mkRID (Page.curPage pg) j) h));
      [destruct (matchFrom s (Some r2 :: l2) (Page.curPage pg) j2); reflexivity
      |lia| | |exact Hev].
    + rewrite <- Hd' in Hd2. rewrite drop_drop in Hd2. rewrite <- Hd2.
      f_equal. lia.
    + apply (f_equal List.length) in Hd2. rewrite length_drop in Hd2.
      cbn in Hd2. lia.
  - rewrite Hfind. reflexivity.
Qed.

Lemma matchFrom_head s l p i r tl :
  matchFrom s l p i = r :: tl ->
  exists d : nat,
    r = mkRID p (i + Z.of_nat d)
    /\ tl = matchFrom s (drop (S d) l) p (i + Z.of_nat d + 1).
Proof.
  revert i. induction l as [|[x|] l IH]; intros i; cbn [matchFrom]; [discriminate| |].
  - destruct (HeapFileScan.matchRec s x) as [[]|].
    + intros [= <- <-]. exists 0%nat. rewrite Z.add_0_r. cbn. rewrite drop_0. auto.
    + intros Hm. apply IH in Hm as (d & -> & ->). exists (S d).
      split; [f_equal; lia|]. cbn. f_equal. lia.
    + intros Hm. apply IH in Hm as (d & -> & ->). exists (S d).
      split; [f_equal; lia|]. cbn. f_equal. lia.
  - intros Hm. apply IH in Hm as (d & -> & ->). exists (S d).
    split; [f_equal; lia|]. cbn. f_equal. lia.
Qed.

Lemma matchAfter_head s pg k r tl :
  0 <= k -> matchAfter s pg k = r :: tl ->
  pageNo r = Page.curPage pg /\ 0 <= slotNo r
  /\ tl = matchAfter s pg (slotNo r + 1).
Proof.
  intros Hk Hm. unfold matchAfter in Hm.
  apply matchFrom_head in Hm as (d & -> & ->). cbn.
  split; [reflexivity|]. split; [lia|]. unfold matchAfter.
  rewrite drop_drop. f_equal. f_equal. lia.
Qed.

Lemma remainingMatches_NULLRID s pgs :
  remainingMatches s NULLRID pgs = fileMatches s pgs.
Proof. destruct pgs; reflexivity. Qed.

Lemma scanFuel_cons pg rest :
  scanFuel (pg :: rest)
    = S (List.length (Page.slots pg) + scanFuel rest)%nat.
Proof. unfold scanFuel. cbn. rewrite length_app. lia. Qed.

End FilteredScan.


Section FilteredLoop.
Context `{Platform}.

Lemma evaluable_tail s pg rest : evaluable s (pg :: rest) -> evaluable s rest.
Proof. intros Hev q r Hq. apply Hev. apply elem_of_cons. auto. Qed.

Lemma is_NULLRID_true c : is_NULLRID c = true -> c = NULLRID.
Proof.
  unfold is_NULLRID. intros E. apply andb_true_iff in E as [E1 E2].
  apply Z.eqb_eq in E1, E2. destruct c as [a b]. cbn in E1, E2. subst. reflexivity.
Qed.

Lemma scanLoop_filtered s tl :
  forall pgs fuel p h w,
    chain (frames w) p pgs -> faults w = [] ->
    (scanFuel pgs <= fuel)%nat ->
    pinned w = pinsOf h tl ->
    evaluable s pgs ->
    match remainingMatches s (HeapFile.curRec h) pgs with
    | [] =>
        exists h' w',
          HeapFileScan.scanLoop fuel s p h w = Done (FILEEOF, None, h', w')
          /\ frames w' = frames w /\ faults w' = []
          /\ pinned w' = pinsOf h' tl
          /\ (pgs = [] -> h' = h)
          /\ (forall pg, last pgs = Some pg ->
                HeapFile.curPageNo h' = Page.curPage pg
                /\ HeapFile.curRec h' = NULLRID)
    | r :: rem' =>
        exists h' w' pre pgs',
          HeapFileScan.scanLoop fuel s p h w = Done (OK, Some r, h', w')
          /\ frames w' = frames w /\ faults w' = []
          /\ pinned w' = pinsOf h' tl
          /\ pgs = pre ++ pgs' /\ pgs' <> []
          /\ chain (frames w') (HeapFile.curPageNo h') pgs'
          /\ remainingMatches s (HeapFile.curRec h') pgs' = rem'
    end.
Proof.
  intros pgs.
  induction pgs as [|pg rest IH]; intros fuel p h w Hchain Hfaults Hfuel Hpins Hev.
  - cbn in Hchain. subst p.
    destruct fuel as [|fuel]; [unfold scanFuel in Hfuel; cbn in Hfuel; lia|].
    cbn. exists h, w. repeat split; auto; discriminate.
  - destruct Hchain as (Hp & Hframe & Hself & Hrest).
    rewrite scanFuel_cons in Hfuel.
    destruct fuel as [|fuel]; [lia|].
    cbn [HeapFileScan.scanLoop].
    destruct (Z.eqb_spec p (-1)) as [|_]; [contradiction|].
    assert (Hunpin : exists w1,
      match HeapFile.curPage h with
      | Some _ => BufMgr.unPinPage (HeapFile.curPageNo h) (HeapFile.curDirtyFlag h) w
      | None => (OK, w)
      end = (OK, w1)
      /\ frames w1 = frames w /\ faults w1 = [] /\ pinned w1 = tl).
    { unfold pinsOf in Hpins. destruct (HeapFile.curPage h).
      - apply unPinPage_ok; assumption.
      - exists w. auto. }
    destruct Hunpin as (w1 & -> & Hfr1 & Hfa1 & Hpin1).
    destruct (readPage_ok p w1 (Data pg) Hfa1) as (w2 & -> & Hfr2 & Hfa2 & Hpin2);
      [rewrite Hfr1; exact Hframe|].
    set (h1 := HeapFile.setCur (Some p) p false h).
    unfold derefPage. cbn [HeapFile.curPage HeapFile.setCur h1].
    rewrite Hfr2, Hfr1, Hframe.
    change (HeapFile.curRec h1) with (HeapFile.curRec h).
    assert (Hfr : frames w2 = frames w) by congruence.
    assert (Hpins2 : forall c, pinned w2 = pinsOf (HeapFile.setCurRec c h1) tl).
    { intros c. rewrite Hpin2, Hpin1. reflexivity. }
    assert (Hchain2 : chain (frames w2) p (pg :: rest)).
    { rewrite Hfr. cbn. auto. }
    assert (Hrest2 : chain (frames w2) (Page.nextPage pg) rest).
    { rewrite Hfr. exact Hrest. }
    assert (Hevpg : forall r, Some r ∈ Page.slots pg -> HeapFileScan.matchRec s r <> None).
    { intros r Hr. apply (Hev pg r); [apply elem_of_cons; auto|exact Hr]. }
    (* moving on to the next page with the cursor NULLRID *)
    assert (Hadvance : forall h2,
      HeapFile.curRec h2 = NULLRID -> HeapFile.curPageNo h2 = p ->
      pinned w2 = pinsOf h2 tl ->
      matchAfter s pg (startIdx (HeapFile.curRec h)) = [] ->
      match remainingMatches s (HeapFile.curRec h) (pg :: rest) with
      | [] =>
          exists h' w',
            HeapFileScan.scanLoop fuel s (Page.nextPage pg) h2 w2
              = Done (FILEEOF, None, h', w')
            /\ frames w' = frames w /\ faults w' = []
            /\ pinned w' = pinsOf h' tl
            /\ (pg :: rest = [] -> h' = h)
            /\ (forall pg0, last (pg :: rest) = Some pg0 ->
                  HeapFile.curPageNo h' = Page.curPage pg0
                  /\ HeapFile.curRec h' = NULLRID)
      | r :: rem' =>
          exists h' w' pre pgs',
            HeapFileScan.scanLoop fuel s (Page.nextPage pg) h2 w2
              = Done (OK, Some r, h', w')
            /\ frames w' = frames w /\ faults w' = []
            /\ pinned w' = pinsOf h' tl
            /\ pg :: rest = pre ++ pgs' /\ pgs' <> []
            /\ chain (frames w') (HeapFile.curPageNo h') pgs'
            /\ remainingMatches s (HeapFile.curRec h') pgs' = rem'
      end).
    { intros h2 Hc2 Hn2 Hp2 Hnone.
      pose proof (IH fuel (Page.nextPage pg) h2 w2 Hrest2 Hfa2 ltac:(lia) Hp2
                    (evaluable_tail _ _ _ Hev)) as IH2.
      rewrite Hc2, remainingMatches_NULLRID in IH2.
      unfold remainingMatches. rewrite Hnone. cbn [app].
      destruct (fileMatches s rest) as [|r rem'].
      - destruct IH2 as (h' & w' & Hrun & Hf' & Hfa' & Hp' & Hnil & Hlast).
        exists h', w'. split; [exact Hrun|]. split; [congruence|].
        split; [exact Hfa'|]. split; [exact Hp'|]. split; [discriminate|].
        intros pg0 Hl. destruct rest as [|pg1 rest'].
        + cbn in Hl. injection Hl as <-. rewrite (Hnil eq_refl).
          split; [congruence|exact Hc2].
        + apply Hlast. exact Hl.
      - destruct IH2 as (h' & w' & pre & pgs' & Hrun & Hf' & Hfa' & Hp' & Hsplit & Hne' & Hc' & Hr').
        exists h', w', (pg :: pre), pgs'. split; [exact Hrun|].
        split; [congruence|]. split; [exact Hfa'|]. split; [exact Hp'|].
        split; [rewrite Hsplit; reflexivity|]. auto. }
    (* the search on the page from a live slot *)
    assert (Hfound : forall j,
      Page.findLive (drop (Z.to_nat (startIdx (HeapFile.curRec h))) (Page.slots pg))
                    (startIdx (HeapFile.curRec h)) = Some j ->
      match remainingMatches s (HeapFile.curRec h) (pg :: rest) with
      | [] =>
          exists h' w',
            match HeapFileScan.scanPage (S fuel) s pg
                    (mkRID (Page.curPage pg) j) h1 with
            | Done (HeapFileScan.Found rid, h0) => Done (OK, Some rid, h0, w2)
            | Done (HeapFileScan.Failed status, h0) => Done (status, None, h0, w2)
            | Done (HeapFileScan.EndOfPage, h0) =>
                HeapFileScan.scanLoop fuel s (Page.nextPage pg) h0 w2
            | Undefined => Undefined
            | OutOfFuel => OutOfFuel
            end = Done (FILEEOF, None, h', w')
            /\ frames w' = frames w /\ faults w' = []
            /\ pinned w' = pinsOf h' tl
            /\ (pg :: rest = [] -> h' = h)
            /\ (forall pg0, last (pg :: rest) = Some pg0 ->
                  HeapFile.curPageNo h' = Page.curPage pg0
                  /\ HeapFile.curRec h' = NULLRID)
      | r :: rem' =>
          exists h' w' pre pgs',
            match HeapFileScan.scanPage (S fuel) s pg
                    (mkRID (Page.curPage pg) j) h1 with
            | Done (HeapFileScan.Found rid, h0) => Done (OK, Some rid, h0, w2)
            | Done (HeapFileScan.Failed status, h0) => Done (status, None, h0, w2)
            | Done (HeapFileScan.EndOfPage, h0) =>
                HeapFileScan.scanLoop fuel s (Page.nextPage pg) h0 w2
            | Undefined => Undefined
            | OutOfFuel => OutOfFuel
            end = Done (OK, Some r, h', w')
            /\ frames w' = frames w /\ faults w' = []
            /\ pinned w' = pinsOf h' tl
            /\ pg :: rest = pre ++ pgs' /\ pgs' <> []
            /\ chain (frames w') (HeapFile.curPageNo h') pgs'
            /\ remainingMatches s (HeapFile.curRec h') pgs' = rem'
      end).
    { intros j Hj.
      pose proof (findLive_matchFrom s
                    (drop (Z.to_nat (startIdx (HeapFile.curRec h))) (Page.slots pg))
                    (Page.curPage pg) (startIdx (HeapFile.curRec h))) as Hfm.
      rewrite Hj in Hfm. destruct Hfm as (Hle & r0 & l' & Hd & Hm).
      pose proof (startIdx_nonneg (HeapFile.curRec h)) as Hk.
      rewrite drop_drop in Hd.
      replace (Z.to_nat (startIdx (HeapFile.curRec h))
               + Z.to_nat (j - startIdx (HeapFile.curRec h)))%nat
        with (Z.to_nat j) in Hd by lia.
      rewrite (scanPage_filtered s pg (S fuel) j r0 l' h1); [|lia|exact Hd| |exact Hevpg].
      2: { apply (f_equal List.length) in Hd. rewrite length_drop in Hd.
           cbn in Hd. lia. }
      assert (Hma : matchAfter s pg (startIdx (HeapFile.curRec h))
                    = matchFrom s (Some r0 :: l') (Page.curPage pg) j) by exact Hm.
      destruct (matchFrom s (Some r0 :: l') (Page.curPage pg) j) as [|r tl'] eqn:Emf.
      - apply (Hadvance (HeapFile.setCurRec NULLRID h1));
          [reflexivity|reflexivity|apply Hpins2|exact Hma].
      - unfold remainingMatches. rewrite Hma. cbn [app].
        destruct (matchAfter_head s pg _ r tl' Hk Hma) as (Hpn & Hsn & Htl).
        exists (HeapFile.setCurRec r h1), w2, [], (pg :: rest).
        split; [reflexivity|]. split; [exact Hfr|]. split; [exact Hfa2|].
        split; [apply Hpins2|]. split; [reflexivity|]. split; [discriminate|].
        split; [exact Hchain2|].
        cbn [HeapFile.curRec HeapFile.setCurRec].
        assert (Hsi : startIdx r = slotNo r + 1).
        { destruct r as [a b]. apply startIdx_found. exact Hsn. }
        rewrite Hsi, <- Htl. reflexivity. }
    unfold Page.firstRecord, Page.nextRecord, Page.getNextPage.
    destruct (is_NULLRID (HeapFile.curRec h)) eqn:Enull.
    + assert (Hk : startIdx (HeapFile.curRec h) = 0)
        by (unfold startIdx; rewrite Enull; reflexivity).
      rewrite Hk in Hfound, Hadvance. cbn [drop Z.to_nat] in Hfound.
      pose proof (findLive_matchFrom s (Page.slots pg) (Page.curPage pg) 0) as Hnone.
      destruct (Page.findLive (Page.slots pg) 0) as [j|] eqn:Efirst.
      * cbn [negb]. apply Hfound. exact Efirst.
      * apply (Hadvance h1); [|reflexivity| |exact Hnone].
        -- change (HeapFile.curRec h1) with (HeapFile.curRec h).
           apply is_NULLRID_true. exact Enull.
        -- rewrite Hpin2, Hpin1. reflexivity.
    + assert (Hk : startIdx (HeapFile.curRec h)
                   = Z.max 0 (slotNo (HeapFile.curRec h) + 1))
        by (unfold startIdx; rewrite Enull; reflexivity).
      rewrite Hk in Hfound, Hadvance.
      pose proof (findLive_matchFrom s
                    (drop (Z.to_nat (Z.max 0 (slotNo (HeapFile.curRec h) + 1)))
                          (Page.slots pg))
                    (Page.curPage pg)
                    (Z.max 0 (slotNo (HeapFile.curRec h) + 1))) as Hnone.
      cbn [negb].
      destruct (Page.findLive _ _) as [j|] eqn:Enext.
      * apply Hfound. first [exact Enext | reflexivity].
      * apply (Hadvance (HeapFile.setCurRec NULLRID h1));
          [reflexivity|reflexivity|apply Hpins2|exact Hnone].
Qed.

End FilteredLoop.


Section FilteredFile.
Context `{Platform}.

Lemma scanPage_setBase s b n :
  forall pg r h,
    HeapFileScan.scanPage n (HeapFileScan.setBase b s) pg r h
      = HeapFileScan.scanPage n s pg r h.
Proof.
  induction n as [|n IH]; intros pg r h; [reflexivity|].
  cbn [HeapFileScan.scanPage].
  destruct (Page.getRecord pg r) as [st [rec0|]]; destruct st; try reflexivity.
  change (HeapFileScan.matchRec (HeapFileScan.setBase b s) rec0)
    with (HeapFileScan.matchRec s rec0).
  repeat case_match; try reflexivity; apply IH.
Qed.

Lemma scanLoop_setBase s b n :
  forall p h w,
    HeapFileScan.scanLoop n (HeapFileScan.setBase b s) p h w
      = HeapFileScan.scanLoop n s p h w.
Proof.
  induction n as [|n IH]; intros p h w; [reflexivity|].
  cbn [HeapFileScan.scanLoop].
  repeat first [rewrite scanPage_setBase | rewrite IH | reflexivity | case_match].
Qed.

Lemma matchFrom_setBase s b l p :
  forall i, matchFrom (HeapFileScan.setBase b s) l p i = matchFrom s l p i.
Proof.
  induction l as [|[x|] l IH]; intros i; cbn [matchFrom]; [reflexivity| |apply IH].
  change (HeapFileScan.matchRec (HeapFileScan.setBase b s) x)
    with (HeapFileScan.matchRec s x).
  rewrite IH. reflexivity.
Qed.

Lemma fileMatches_setBase s b pgs :
  fileMatches (HeapFileScan.setBase b s) pgs = fileMatches s pgs.
Proof.
  unfold fileMatches, matchAfter. induction pgs as [|pg rest IH]; [reflexivity|].
  cbn [map concat]. rewrite IH, matchFrom_setBase. reflexivity.
Qed.

Lemma scanFuel_suffix pre pgs : (scanFuel pgs <= scanFuel (pre ++ pgs))%nat.
Proof.
  unfold scanFuel. rewrite map_app, concat_app, !length_app. lia.
Qed.

Lemma evaluable_suffix s pre pgs : evaluable s (pre ++ pgs) -> evaluable s pgs.
Proof. intros Hev q r Hq. apply Hev. apply elem_of_app. auto. Qed.

Lemma scanMany_filtered s fuel tl rem :
  forall h w pgs,
    chain (frames w) (HeapFile.curPageNo h) pgs ->
    faults w = [] ->
    (scanFuel pgs <= fuel)%nat ->
    pinned w = pinsOf h tl ->
    evaluable s pgs ->
    remainingMatches s (HeapFile.curRec h) pgs = rem ->
    exists h' w',
      scanMany fuel (S (List.length rem)) (HeapFileScan.setBase h s) w
        = Done (rem, FILEEOF, HeapFileScan.setBase h' s, w')
      /\ frames w' = frames w /\ faults w' = []
      /\ pinned w' = pinsOf h' tl
      /\ (pgs = [] -> h' = h)
      /\ (forall pg, last pgs = Some pg ->
            HeapFile.curPageNo h' = Page.curPage pg
            /\ HeapFile.curRec h' = NULLRID).
Proof.
  induction rem as [|r rem IH]; intros h w pgs Hchain Hfa Hfuel Hpins Hev Hrem.
  - pose proof (scanLoop_filtered s tl pgs fuel _ h w Hchain Hfa Hfuel Hpins Hev) as Hstep.
    rewrite Hrem in Hstep.
    destruct Hstep as (h' & w' & Hrun & Hf' & Hfa' & Hp' & Hnil & Hlast).
    exists h', w'. split; [|auto].
    cbn [scanMany List.length]. unfold HeapFileScan.scanNext.
    cbn [HeapFileScan.base HeapFileScan.setBase].
    rewrite scanLoop_setBase, Hrun. reflexivity.
  - pose proof (scanLoop_filtered s tl pgs fuel _ h w Hchain Hfa Hfuel Hpins Hev) as Hstep.
    rewrite Hrem in Hstep.
    destruct Hstep as (h1 & w1 & pre & pgs' & Hrun & Hf1 & Hfa1 & Hp1 & Hsplit & Hne & Hc1 & Hr1).
    subst pgs.
    destruct (IH h1 w1 pgs' Hc1 Hfa1) as (h' & w' & Hmany & Hf' & Hfa' & Hp' & Hnil & Hlast);
      [pose proof (scanFuel_suffix pre pgs'); lia|exact Hp1
      |exact (evaluable_suffix _ _ _ Hev)|exact Hr1|].
    exists h', w'. split.
    + change (scanMany fuel (S (List.length (r :: rem))) (HeapFileScan.setBase h s) w)
        with (match HeapFileScan.scanNext fuel (HeapFileScan.setBase h s) w with
              | Done (OK, Some rid, s0, w0) =>
                  match scanMany fuel (S (List.length rem)) s0 w0 with
                  | Done (rids, status, s1, w2) => Done (rid :: rids, status, s1, w2)
                  | Undefined => Undefined
                  | OutOfFuel => OutOfFuel
                  end
              | Done (OK, None, _, _) => Undefined
              | Done (status, _, s0, w0) => Done ([], status, s0, w0)
              | Undefined => Undefined
              | OutOfFuel => OutOfFuel
              end).
      unfold HeapFileScan.scanNext. cbn [HeapFileScan.base HeapFileScan.setBase].
      rewrite scanLoop_setBase, Hrun.
      change (HeapFileScan.setBase h1 (HeapFileScan.setBase h s))
        with (HeapFileScan.setBase h1 s).
      rewrite Hmany. reflexivity.
    + split; [congruence|]. split; [exact Hfa'|]. split; [exact Hp'|].
      split.
      * intros Hnilp. destruct pre; destruct pgs'; try discriminate; try contradiction.
      * intros pg Hl. apply Hlast. rewrite last_app in Hl.
        destruct (last pgs') eqn:El; [exact Hl|].
        apply last_None in El. contradiction.
Qed.

Lemma setBase_base s : HeapFileScan.setBase (HeapFileScan.base s) s = s.
Proof. destruct s. reflexivity. Qed.

Lemma matchFrom_elem s l p i r :
  r ∈ matchFrom s l p i <->
  pageNo r = p /\ i <= slotNo r
  /\ exists rec, l !! Z.to_nat (slotNo r - i) = Some (Some rec)
       /\ HeapFileScan.matchRec s rec = Some true.
Proof.
  revert i. induction l as [|x l IH]; intros i.
  - cbn. split; [intros Hin; inversion Hin|].
    intros (_ & _ & rec & Hl & _). discriminate.
  - assert (Hrest : r ∈ matchFrom s l p (i + 1) <->
              pageNo r = p /\ i < slotNo r
              /\ exists rec, (x :: l) !! Z.to_nat (slotNo r - i) = Some (Some rec)
                   /\ HeapFileScan.matchRec s rec = Some true).
    { rewrite IH. split.
      - intros (Hp & Hle & rec & Hl & Hm). split; [exact Hp|]. split; [lia|].
        exists rec. split; [|exact Hm].
        replace (Z.to_nat (slotNo r - i)) with (S (Z.to_nat (slotNo r - (i + 1)))) by lia.
        exact Hl.
      - intros (Hp & Hlt & rec & Hl & Hm). split; [exact Hp|]. split; [lia|].
        exists rec. split; [|exact Hm].
        replace (Z.to_nat (slotNo r - i)) with (S (Z.to_nat (slotNo r - (i + 1)))) in Hl by lia.
        exact Hl. }
    assert (Hhere : forall rec, x = Some rec ->
              HeapFileScan.matchRec s rec = Some true ->
              (r = mkRID p i <->
               pageNo r = p /\ i = slotNo r)).
    { intros rec _ _. destruct r as [a b]. cbn. split; [intros [= -> ->]; auto|].
      intros (-> & ->). reflexivity. }
    cbn [matchFrom]. destruct x as [rec|].
    + destruct (HeapFileScan.matchRec s rec) as [[]|] eqn:Em.
      * rewrite elem_of_cons, Hrest, (Hhere rec eq_refl Em). split.
        -- intros [(Hp & Hi)|(Hp & Hlt & Hex)].
           ++ split; [exact Hp|]. split; [lia|]. exists rec.
              rewrite <- Hi, Z.sub_diag. cbn. auto.
           ++ split; [exact Hp|]. split; [lia|]. exact Hex.
        -- intros (Hp & Hle & rec' & Hl & Hm).
           destruct (Z.eq_dec i (slotNo r)) as [E|E]; [left; auto|].
           right. split; [exact Hp|]. split; [lia|]. eauto.
      * rewrite Hrest. split.
        -- intros (Hp & Hlt & Hex). split; [exact Hp|]. split; [lia|]. exact Hex.
        -- intros (Hp & Hle & rec' & Hl & Hm).
           destruct (Z.eq_dec i (slotNo r)) as [E|E].
           ++ rewrite <- E, Z.sub_diag in Hl. change (Z.to_nat 0) with 0%nat in Hl. simpl in Hl. congruence.
           ++ split; [exact Hp|]. split; [lia|]. eauto.
      * rewrite Hrest. split.
        -- intros (Hp & Hlt & Hex). split; [exact Hp|]. split; [lia|]. exact Hex.
        -- intros (Hp & Hle & rec' & Hl & Hm).
           destruct (Z.eq_dec i (slotNo r)) as [E|E].
           ++ rewrite <- E, Z.sub_diag in Hl. change (Z.to_nat 0) with 0%nat in Hl. simpl in Hl. congruence.
           ++ split; [exact Hp|]. split; [lia|]. eauto.
    + rewrite Hrest. split.
      * intros (Hp & Hlt & Hex). split; [exact Hp|]. split; [lia|]. exact Hex.
      * intros (Hp & Hle & rec' & Hl & Hm).
        destruct (Z.eq_dec i (slotNo r)) as [E|E].
        -- rewrite <- E, Z.sub_diag in Hl. change (Z.to_nat 0) with 0%nat in Hl. simpl in Hl. congruence.
        -- split; [exact Hp|]. split; [lia|]. eauto.
Qed.

Lemma fileMatches_elem s pgs r :
  r ∈ fileMatches s pgs <->
  exists pg rec,
    pg ∈ pgs /\ pageNo r = Page.curPage pg
    /\ Page.getRecord pg r = (OK, Some rec)
    /\ HeapFileScan.matchRec s rec = Some true.
Proof.
  assert (Hpage : forall pg,
    r ∈ matchAfter s pg 0 <->
    pageNo r = Page.curPage pg
    /\ exists rec, Page.getRecord pg r = (OK, Some rec)
         /\ HeapFileScan.matchRec s rec = Some true).
  { intros pg. unfold matchAfter. cbn [Z.to_nat]. rewrite drop_0, matchFrom_elem.
    unfold Page.getRecord, Page.slotAt. rewrite Z.sub_0_r. split.
    - intros (Hp & Hle & rec & Hl & Hm). split; [exact Hp|]. exists rec.
      destruct (Z.ltb_spec (slotNo r) 0); [lia|]. rewrite Hl. auto.
    - intros (Hp & rec & Hg & Hm).
      destruct (Z.ltb_spec (slotNo r) 0); [discriminate|].
      split; [exact Hp|]. split; [lia|]. exists rec. split; [|exact Hm].
      destruct (Page.slots pg !! Z.to_nat (slotNo r)) as [[x|]|]; cbn in Hg;
        congruence. }
  unfold fileMatches. induction pgs as [|pg rest IH]; cbn [map concat].
  - split; [intros Hin; inversion Hin|]. intros (pg & rec & Hin & _). inversion Hin.
  - rewrite elem_of_app, IH, Hpage. split.
    + intros [(Hp & rec & Hg & Hm)|(pg' & rec & Hin & Hrest)].
      * exists pg, rec. split; [apply elem_of_cons; auto|auto].
      * exists pg', rec. split; [apply elem_of_cons; auto|auto].
    + intros (pg' & rec & Hin & Hp & Hg & Hm).
      apply elem_of_cons in Hin as [->|Hin]; [left; eauto|right; eauto 6].
Qed.

(** X15.  A scan with a predicate, from the beginning of the file: the
    successive scanNext calls return exactly the RIDs of [fileMatches], in
    chain and slot order, and then FILEEOF; and a RID is among them exactly
    when it names a live record of a page of the file that satisfies the
    predicate. *)
Theorem scanNext_filtered_file s w pgs :
  HeapFile.curRec (HeapFileScan.base s) = NULLRID ->
  chain (frames w) (HeapFile.curPageNo (HeapFileScan.base s)) pgs ->
  faults w = [] ->
  owns (HeapFileScan.base s) w ->
  evaluable s pgs ->
  (forall r,
      r ∈ fileMatches s pgs <->
      exists pg rec,
        pg ∈ pgs /\ pageNo r = Page.curPage pg
        /\ Page.getRecord pg r = (OK, Some rec)
        /\ HeapFileScan.matchRec s rec = Some true)
  /\ forall fuel, (scanFuel pgs <= fuel)%nat ->
       exists s' w',
         scanMany fuel (S (List.length (fileMatches s pgs))) s w
           = Done (fileMatches s pgs, FILEEOF, s', w').
Proof.
  intros Hcur Hchain Hfa Howns Hev. split; [intros r; apply fileMatches_elem|].
  intros fuel Hfuel.
  destruct (scanMany_filtered s fuel [HeapFile.headerPageNo (HeapFileScan.base s)]
              (fileMatches s pgs) (HeapFileScan.base s) w pgs Hchain Hfa Hfuel)
    as (h' & w' & Hmany & _).
  - unfold owns, handlePins in Howns. unfold pinsOf.
    destruct (HeapFile.curPage (HeapFileScan.base s)); exact Howns.
  - exact Hev.
  - rewrite Hcur. apply remainingMatches_NULLRID.
  - rewrite setBase_base in Hmany. eauto.
Qed.

End FilteredFile.


Section ReplayAndWrapAround.
Context `{Platform}.

Lemma chain_last fr p pgs pg :
  chain fr p pgs -> last pgs = Some pg ->
  chain fr (Page.curPage pg) [pg] /\ pg ∈ pgs.
Proof.
  revert p. induction pgs as [|q rest IH]; intros p Hc Hl; [discriminate|].
  destruct Hc as (Hne & Hfr & Hself & Hrest).
  destruct rest as [|q' rest'].
  - injection Hl as <-. split; [|apply elem_of_cons; auto].
    cbn in Hrest. cbn. rewrite Hself. auto.
  - destruct (IH _ Hrest Hl) as [Hc' Hin]. split; [exact Hc'|].
    apply elem_of_cons. auto.
Qed.

(** X16.  resetScan takes the scan back to the mark: with the mark on
    another page it unpins the current page, pins the marked one and
    clears the dirty flag; in either case the following scanNext calls
    return the matching records after the marked record, to the end of
    the file. *)
Theorem resetScan_replays s w pg rest fuel :
  chain (frames w) (HeapFileScan.markedPageNo s) (pg :: rest) ->
  faults w = [] ->
  owns (HeapFileScan.base s) w ->
  evaluable s (pg :: rest) ->
  (scanFuel (pg :: rest) <= fuel)%nat ->
  let rem := remainingMatches s (HeapFileScan.markedRec s) (pg :: rest) in
  exists s1 w1,
    HeapFileScan.resetScan s w = (OK, s1, w1)
    /\ frames w1 = frames w
    /\ HeapFile.curPageNo (HeapFileScan.base s1) = HeapFileScan.markedPageNo s
    /\ HeapFile.curRec (HeapFileScan.base s1) = HeapFileScan.markedRec s
    /\ (HeapFileScan.markedPageNo s <> HeapFile.curPageNo (HeapFileScan.base s) ->
        owns (HeapFileScan.base s1) w1
        /\ HeapFile.curDirtyFlag (HeapFileScan.base s1) = false)
    /\ exists s' w',
         scanMany fuel (S (List.length rem)) s1 w1 = Done (rem, FILEEOF, s', w').
Proof.
  intros Hchain Hfa Howns Hev Hfuel rem.
  set (h := HeapFileScan.base s) in *.
  set (tl := [HeapFile.headerPageNo h]).
  assert (Hpins : pinned w = pinsOf h tl).
  { unfold owns, handlePins in Howns. unfold pinsOf, tl.
    destruct (HeapFile.curPage h); exact Howns. }
  unfold HeapFileScan.resetScan. fold h.
  destruct (Z.eqb_spec (HeapFileScan.markedPageNo s) (HeapFile.curPageNo h)) as [Esame|Ediff];
    cbn [negb].
  - set (h1 := HeapFile.setCurRec (HeapFileScan.markedRec s) h).
    destruct (scanMany_filtered s fuel tl rem h1 w (pg :: rest))
      as (h' & w' & Hmany & _); try assumption; try reflexivity.
    { unfold h1. cbn [HeapFile.curPageNo HeapFile.setCurRec]. rewrite <- Esame.
      exact Hchain. }
    exists (HeapFileScan.setBase h1 s), w.
    split; [reflexivity|]. split; [reflexivity|].
    split; [cbn; congruence|]. split; [reflexivity|].
    split; [intros Hne; contradiction|]. eauto.
  - assert (Hpage : frames w !! HeapFileScan.markedPageNo s = Some (Data pg))
      by (destruct Hchain as (_ & Hfr & _); exact Hfr).
    assert (Hun : exists w0,
      match HeapFile.curPage h with
      | Some _ => BufMgr.unPinPage (HeapFile.curPageNo h) (HeapFile.curDirtyFlag h) w
      | None => (OK, w)
      end = (OK, w0)
      /\ frames w0 = frames w /\ faults w0 = [] /\ pinned w0 = tl).
    { unfold pinsOf in Hpins. destruct (HeapFile.curPage h).
      - destruct (unPinPage_ok (HeapFile.curPageNo h) (HeapFile.curDirtyFlag h) w tl Hfa Hpins)
          as (w0 & Hrun & Hrest).
        exists w0. auto.
      - exists w. auto. }
    destruct Hun as (w0 & -> & Hf0 & Hfa0 & Hp0).
    cbn [HeapFile.curPageNo HeapFile.setCurPageNo HeapFile.setCurRec HeapFile.setCur].
    rewrite <- Hf0 in Hpage.
    destruct (readPage_ok _ w0 _ Hfa0 Hpage) as (w1 & -> & Hf1 & Hfa1 & Hp1).
    set (h1 := HeapFile.setCurDirtyFlag false _).
    destruct (scanMany_filtered s fuel tl rem h1 w1 (pg :: rest))
      as (h' & w' & Hmany & _); try assumption; try reflexivity.
    { rewrite Hf1, Hf0. exact Hchain. }
    { rewrite Hp1, Hp0. reflexivity. }
    exists (HeapFileScan.setBase h1 s), w1.
    split; [reflexivity|]. split; [congruence|].
    split; [reflexivity|]. split; [reflexivity|].
    split; [|eauto]. intros _. split; [|reflexivity].
    unfold owns, handlePins. cbn. rewrite Hp1, Hp0. reflexivity.
Qed.

(** X17.  FILEEOF does not stick: the scan that has reported FILEEOF is
    left on the last page with the cursor NULLRID, so calling scanNext
    again returns the matching records of the last page once more before
    the next FILEEOF. *)
Theorem scanNext_past_FILEEOF s w pgs pg fuel :
  HeapFile.curRec (HeapFileScan.base s) = NULLRID ->
  chain (frames w) (HeapFile.curPageNo (HeapFileScan.base s)) pgs ->
  last pgs = Some pg ->
  faults w = [] ->
  owns (HeapFileScan.base s) w ->
  evaluable s pgs ->
  (scanFuel pgs <= fuel)%nat ->
  exists s1 w1 s2 w2,
    scanMany fuel (S (List.length (fileMatches s pgs))) s w
      = Done (fileMatches s pgs, FILEEOF, s1, w1)
    /\ HeapFile.curPageNo (HeapFileScan.base s1) = Page.curPage pg
    /\ HeapFile.curRec (HeapFileScan.base s1) = NULLRID
    /\ scanMany fuel (S (List.length (matchAfter s pg 0))) s1 w1
         = Done (matchAfter s pg 0, FILEEOF, s2, w2).
Proof.
  intros Hcur Hchain Hlast Hfa Howns Hev Hfuel.
  set (tl := [HeapFile.headerPageNo (HeapFileScan.base s)]).
  destruct (scanMany_filtered s fuel tl (fileMatches s pgs) (HeapFileScan.base s) w pgs
              Hchain Hfa Hfuel)
    as (h1 & w1 & Hmany & Hf1 & Hfa1 & Hp1 & _ & Hend).
  { unfold owns, handlePins in Howns. unfold pinsOf, tl.
    destruct (HeapFile.curPage (HeapFileScan.base s)); exact Howns. }
  { exact Hev. }
  { rewrite Hcur. apply remainingMatches_NULLRID. }
  destruct (Hend pg Hlast) as [Hno Hrec].
  destruct (chain_last _ _ _ _ Hchain Hlast) as [Hc1 Hin].
  destruct (scanMany_filtered s fuel tl (matchAfter s pg 0) h1 w1 [pg])
    as (h2 & w2 & Hmany2 & _).
  { rewrite Hf1, Hno. exact Hc1. }
  { exact Hfa1. }
  { apply last_Some in Hlast as [pre ->].
    pose proof (scanFuel_suffix pre [pg]). lia. }
  { exact Hp1. }
  { intros q r Hq. apply list_elem_of_singleton in Hq as ->. apply Hev. exact Hin. }
  { rewrite Hrec. rewrite remainingMatches_NULLRID. unfold fileMatches. cbn.
    apply app_nil_r. }
  rewrite setBase_base in Hmany.
  exists (HeapFileScan.setBase h1 s), w1, (HeapFileScan.setBase h2 s), w2.
  auto.
Qed.

End ReplayAndWrapAround.


Section DeleteAtCursor.
Context `{Platform}.

Lemma chain_tail fr first pre pg post :
  chain fr first (pre ++ pg :: post) -> chain fr (Page.nextPage pg) post.
Proof.
  intros Hc. apply chain_suffix in Hc as [mid Hc].
  destruct Hc as (_ & _ & _ & Hr). exact Hr.
Qed.

(** X18.  deleteRecord with the cursor on a live record of the current
    page: the chain keeps its shape, exactly that RID leaves the records
    of the file (the order of the others is kept), the cursor stays where
    it was although HeapFileScan::getRecord now finds no record there, and
    the records the scan has still to return are those from before. *)
Theorem deleteRecord_removes_cursor_record s w p pg hno hp first pre post rec :
  onPage (HeapFileScan.base s) w p pg hno hp ->
  pageNo (HeapFile.curRec (HeapFileScan.base s)) = p ->
  Page.getRecord pg (HeapFile.curRec (HeapFileScan.base s)) = (OK, Some rec) ->
  chain (frames w) first (pre ++ pg :: post) ->
  let r := HeapFile.curRec (HeapFileScan.base s) in
  exists s' w' pg' l1 l2,
    HeapFileScan.deleteRecord s w = Done (OK, s', w')
    /\ chain (frames w') first (pre ++ pg' :: post)
    /\ fileRids (pre ++ pg :: post) = l1 ++ r :: l2
    /\ fileRids (pre ++ pg' :: post) = l1 ++ l2
    /\ (r ∉ fileRids (pre ++ pg' :: post))
    /\ HeapFile.curRec (HeapFileScan.base s') = r
    /\ HeapFileScan.getRecord s' w' = Done (INVALIDSLOTNO, None)
    /\ remainingMatches s' r (pg' :: post) = remainingMatches s r (pg :: post).
Proof.
  intros (Hcur & Hno & Hpg & Hself & Hhdr & Hhp) Hrp Hget Hchain. cbv zeta.
  set (h := HeapFileScan.base s) in *.
  set (r := HeapFile.curRec h) in *.
  assert (Hne : p <> hno) by (intros ->; rewrite Hpg in Hhp; discriminate).
  unfold Page.getRecord in Hget.
  destruct (Page.slotAt pg (slotNo r)) as [rec'|] eqn:Hslot; [|discriminate].
  injection Hget as ->.
  assert (Hj : 0 <= slotNo r /\ Page.slots pg !! Z.to_nat (slotNo r) = Some (Some rec)).
  { unfold Page.slotAt in Hslot. destruct (Z.ltb_spec (slotNo r) 0); [discriminate|].
    split; [lia|].
    destruct (Page.slots pg !! Z.to_nat (slotNo r)) as [[x|]|]; cbn in Hslot; congruence. }
  destruct Hj as [Hj0 Hj].
  set (pg' := Page.mk (Page.curPage pg) (Page.nextPage pg)
                (<[Z.to_nat (slotNo r) := None]> (Page.slots pg))).
  set (hp' := mkHdr (fileName hp) (firstPage hp) (lastPage hp) (pageCnt hp)
                (wrap32 (recCnt hp - 1))).
  set (w' := setFrame hno (Hdr hp') (setFrame p (Data pg') w)).
  set (h' := HeapFile.setHdrDirtyFlag true (HeapFile.setCurDirtyFlag true h)).
  assert (Hrun : HeapFileScan.deleteRecord s w = Done (OK, HeapFileScan.setBase h' s, w')).
  { unfold HeapFileScan.deleteRecord, derefPage. fold h. rewrite Hcur, Hpg.
    unfold Page.deleteRecord. fold r. rewrite Hslot.
    unfold HeapFile.updHeader, HeapFile.storeCurPage, derefHdr.
    cbn [HeapFile.headerPage HeapFile.setCurDirtyFlag HeapFile.setCur HeapFile.curPage].
    rewrite Hcur, Hhdr. cbn [setFrame setFrames frames].
    rewrite lookup_insert_ne by exact Hne. rewrite Hhp. reflexivity. }
  assert (Hfr : forall q, q <> p -> q <> hno -> frames w' !! q = frames w !! q).
  { intros q Hq1 Hq2. unfold w'. cbn [setFrame setFrames frames].
    rewrite !lookup_insert_ne by congruence. reflexivity. }
  assert (Hother : forall q, q ∈ pre \/ q ∈ post ->
            frames w' !! Page.curPage q = frames w !! Page.curPage q).
  { intros q Hq. apply Hfr.
    - rewrite <- Hself. exact (chain_others_differ _ _ _ _ _ _ Hchain Hq).
    - intros E. assert (Hin : q ∈ pre ++ pg :: post).
      { apply elem_of_app. destruct Hq; [left; assumption|right; apply elem_of_cons; auto]. }
      pose proof (chain_lookup _ _ _ _ Hchain Hin) as Hl. rewrite E, Hhp in Hl.
      discriminate. }
  assert (Hchain' : chain (frames w') first (pre ++ pg' :: post)).
  { apply (chain_splice (frames w) (frames w') first pre pg post pg' post Hchain).
    - intros q Hq. apply Hother. auto.
    - rewrite Hself. unfold w'. cbn [setFrame setFrames frames].
      rewrite lookup_insert_ne by congruence. rewrite lookup_insert_eq. reflexivity.
    - reflexivity.
    - apply (chain_agree (frames w)); [|exact (chain_tail _ _ _ _ _ Hchain)].
      intros q Hq. apply Hother. auto. }
  destruct (liveFrom_delete (Page.slots pg) (Page.curPage pg) 0 _ rec Hj) as (a & b & Ha & Hb).
  assert (Hr : mkRID (Page.curPage pg) (0 + Z.of_nat (Z.to_nat (slotNo r))) = r).
  { rewrite Hself, <- Hrp, Z.add_0_l, Z2Nat.id by exact Hj0. destruct r; reflexivity. }
  rewrite Hr in Ha.
  assert (Hold : fileRids (pre ++ pg :: post) = (fileRids pre ++ a) ++ r :: (b ++ fileRids post)).
  { rewrite fileRids_app, fileRids_cons. unfold Page.liveRids. rewrite Ha.
    rewrite <- !app_assoc. reflexivity. }
  assert (Hnew : fileRids (pre ++ pg' :: post) = (fileRids pre ++ a) ++ (b ++ fileRids post)).
  { rewrite fileRids_app, fileRids_cons. unfold Page.liveRids.
    change (Page.slots pg') with (<[Z.to_nat (slotNo r) := None]> (Page.slots pg)).
    change (Page.curPage pg') with (Page.curPage pg). rewrite Hb.
    rewrite <- !app_assoc. reflexivity. }
  exists (HeapFileScan.setBase h' s), w', pg', (fileRids pre ++ a), (b ++ fileRids post).
  split; [exact Hrun|]. split; [exact Hchain'|]. split; [exact Hold|].
  split; [exact Hnew|]. split.
  { rewrite Hnew. pose proof (fileRids_NoDup _ (chain_NoDup _ _ _ Hchain)) as Hnd. rewrite Hold in Hnd.
    apply NoDup_app in Hnd as (_ & Hdis & Hnd). apply NoDup_cons in Hnd as [Hnot _].
    intros Hin. apply elem_of_app in Hin as [Hin|Hin]; [|contradiction].
    apply (Hdis r Hin). apply elem_of_cons. auto. }
  split; [reflexivity|]. split.
  { unfold HeapFileScan.getRecord, derefPage.
    cbn [HeapFileScan.base HeapFileScan.setBase HeapFile.curPage HeapFile.curRec
         HeapFile.setHdrDirtyFlag HeapFile.setCurDirtyFlag HeapFile.setCur h'].
    fold h. rewrite Hcur. unfold w'. cbn [setFrame setFrames frames].
    rewrite lookup_insert_ne by congruence. rewrite lookup_insert_eq.
    unfold Page.getRecord, Page.slotAt. fold r.
    destruct (Z.ltb_spec (slotNo r) 0); [lia|].
    change (Page.slots pg') with (<[Z.to_nat (slotNo r) := None]> (Page.slots pg)).
    rewrite list_lookup_insert_eq; [reflexivity|].
    apply lookup_lt_Some in Hj. exact Hj. }
  unfold remainingMatches, matchAfter.
  change (Page.slots pg') with (<[Z.to_nat (slotNo r) := None]> (Page.slots pg)).
  change (Page.curPage pg') with (Page.curPage pg).
  assert (Hk : startIdx r = slotNo r + 1).
  { unfold startIdx, is_NULLRID. cbn [NULLRID pageNo slotNo].
    destruct (Z.eqb_spec (slotNo r) (-1)) as [E|E]; [lia|].
    destruct (pageNo r =? -1); cbn [andb]; lia. }
  rewrite Hk, drop_insert_lt by lia.
  rewrite matchFrom_setBase, fileMatches_setBase. reflexivity.
Qed.

End DeleteAtCursor.


Section ReadOnlyScan.
Context `{Platform}.

Lemma scanPage_flags n s pg :
  forall r h res h',
    HeapFileScan.scanPage n s pg r h = Done (res, h') ->
    HeapFile.curDirtyFlag h' = HeapFile.curDirtyFlag h
    /\ HeapFile.hdrDirtyFlag h' = HeapFile.hdrDirtyFlag h.
Proof.
  induction n as [|n IH]; intros r h res h'; [discriminate|].
  cbn [HeapFileScan.scanPage].
  destruct (Page.getRecord pg r) as [st [rec|]]; destruct st;
    try discriminate; try (intros [= <- <-]; auto).
  destruct (HeapFileScan.matchRec s rec) as [[]|]; try discriminate.
  - intros [= <- <-]. auto.
  - unfold Page.nextRecord. destruct (Page.findLive _ _).
    + intros Hrun. apply IH in Hrun. exact Hrun.
    + intros [= <- <-]. auto.
Qed.

Lemma scanLoop_read_only s fuel :
  forall p h w st rid h' w',
    HeapFile.curDirtyFlag h = false ->
    HeapFileScan.scanLoop fuel s p h w = Done (st, rid, h', w') ->
    frames w' = frames w
    /\ HeapFile.curDirtyFlag h' = false
    /\ HeapFile.hdrDirtyFlag h' = HeapFile.hdrDirtyFlag h
    /\ exists evs, log w' = evs ++ log w /\ Forall readOnlyCall evs.
Proof.
  induction fuel as [|fuel IH]; intros p h w st rid h' w' Hclean; [discriminate|].
  cbn [HeapFileScan.scanLoop].
  destruct (p =? -1).
  { intros [= <- <- <- <-]. repeat split; auto. exists []. auto. }
  destruct (match HeapFile.curPage h with Some _ => _ | None => _ end)
    as [st1 w1] eqn:Eun.
  assert (Hun : frames w1 = frames w
                /\ exists evs1, log w1 = evs1 ++ log w /\ Forall readOnlyCall evs1).
  { destruct (HeapFile.curPage h).
    - apply unPinPage_inv in Eun as (Hfr & _ & [(_ & _ & Hlog)|(_ & _ & Hlog)]);
        (split; [exact Hfr|]); eexists [_]; (split; [exact Hlog|]);
        repeat constructor; exact Hclean.
    - injection Eun as <- <-. split; [reflexivity|]. exists []. auto. }
  destruct Hun as (Hfr1 & evs1 & Hlog1 & Hall1).
  assert (Hstop : forall h0, HeapFile.curDirtyFlag h0 = false ->
            HeapFile.hdrDirtyFlag h0 = HeapFile.hdrDirtyFlag h ->
            forall evs2 w2, frames w2 = frames w -> log w2 = evs2 ++ log w ->
            Forall readOnlyCall evs2 ->
            Done (st, rid, h', w') = Done (st, rid, h0, w2) ->
            frames w' = frames w
            /\ HeapFile.curDirtyFlag h' = false
            /\ HeapFile.hdrDirtyFlag h' = HeapFile.hdrDirtyFlag h
            /\ exists evs, log w' = evs ++ log w /\ Forall readOnlyCall evs).
  { intros h0 Hc0 Hh0 evs2 w2 Hf2 Hl2 Ha2 [= -> ->]. eauto 8. }
  destruct st1.
  2-12: intros [= <- <- <- <-]; apply (Hstop h Hclean eq_refl evs1 w1 Hfr1 Hlog1 Hall1);
        reflexivity.
  destruct (BufMgr.readPage _ w1) as [[st2 ptr] w2] eqn:Eread.
  assert (Hrd : frames w2 = frames w
                /\ exists evs2, log w2 = evs2 ++ log w /\ Forall readOnlyCall evs2).
  { apply readPage_inv in Eread
      as (Hfr & _ & [(_ & _ & _ & _ & Hlog)|(_ & _ & _ & Hlog)]);
      (split; [congruence|]); eexists (_ :: evs1);
      (split; [rewrite Hlog, Hlog1; reflexivity|]);
      (constructor; [exact I|exact Hall1]). }
  destruct Hrd as (Hfr2 & evs2 & Hlog2 & Hall2).
  destruct st2.
  2-12: intros [= <- <- <- <-]; apply (Hstop h Hclean eq_refl evs2 w2 Hfr2 Hlog2 Hall2);
        reflexivity.
  set (h1 := HeapFile.setCur ptr p false h).
  destruct (derefPage (HeapFile.curPage h1) w2) as [pg|]; [|discriminate].
  unfold Page.getNextPage, Page.firstRecord, Page.nextRecord.
  assert (Hadv : forall h2,
    HeapFile.curDirtyFlag h2 = false ->
    HeapFile.hdrDirtyFlag h2 = HeapFile.hdrDirtyFlag h ->
    HeapFileScan.scanLoop fuel s (Page.nextPage pg) h2 w2 = Done (st, rid, h', w') ->
    frames w' = frames w
    /\ HeapFile.curDirtyFlag h' = false
    /\ HeapFile.hdrDirtyFlag h' = HeapFile.hdrDirtyFlag h
    /\ exists evs, log w' = evs ++ log w /\ Forall readOnlyCall evs).
  { intros h2 Hc2 Hh2 Hrun.
    destruct (IH _ _ _ _ _ _ _ Hc2 Hrun) as (Hf & Hc & Hh & evs & Hl & Ha).
    split; [congruence|]. split; [exact Hc|]. split; [congruence|].
    exists (evs ++ evs2). split; [rewrite Hl, Hlog2, app_assoc; reflexivity|].
    apply Forall_app. auto. }
  assert (Hpage : forall r,
    match HeapFileScan.scanPage (S fuel) s pg r h1 with
    | Done (HeapFileScan.Found rid0, h0) => Done (OK, Some rid0, h0, w2)
    | Done (HeapFileScan.Failed status, h0) => Done (status, None, h0, w2)
    | Done (HeapFileScan.EndOfPage, h0) =>
        HeapFileScan.scanLoop fuel s (Page.nextPage pg) h0 w2
    | Undefined => Undefined
    | OutOfFuel => OutOfFuel
    end = Done (st, rid, h', w') ->
    frames w' = frames w
    /\ HeapFile.curDirtyFlag h' = false
    /\ HeapFile.hdrDirtyFlag h' = HeapFile.hdrDirtyFlag h
    /\ exists evs, log w' = evs ++ log w /\ Forall readOnlyCall evs).
  { intros r.
    destruct (HeapFileScan.scanPage (S fuel) s pg r h1) as [[res h0]| |] eqn:Epage;
      try discriminate.
    apply scanPage_flags in Epage as [Hc0 Hh0].
    destruct res.
    - intros [= <- <- <- <-]. eauto 8.
    - intros [= <- <- <- <-]. eauto 8.
    - apply Hadv; [exact Hc0|exact Hh0]. }
  destruct (is_NULLRID (HeapFile.curRec h1)).
  - destruct (Page.findLive (Page.slots pg) 0) as [j|].
    + cbn [negb]. apply Hpage.
    + apply Hadv; reflexivity.
  - cbn [negb]. destruct (Page.findLive _ _) as [j|].
    + apply Hpage.
    + apply Hadv; reflexivity.
Qed.

(** X19.  scanNext started with a clean current page is read-only, whatever
    fails on the way: it writes no frame, allocates no page, every
    unPinPage it issues passes dirty = false, and it leaves both dirty
    flags as they were. *)
Theorem scanNext_read_only fuel s w st rid s' w' :
  HeapFile.curDirtyFlag (HeapFileScan.base s) = false ->
  HeapFileScan.scanNext fuel s w = Done (st, rid, s', w') ->
  frames w' = frames w
  /\ HeapFile.curDirtyFlag (HeapFileScan.base s') = false
  /\ HeapFile.hdrDirtyFlag (HeapFileScan.base s')
       = HeapFile.hdrDirtyFlag (HeapFileScan.base s)
  /\ exists evs, log w' = evs ++ log w /\ Forall readOnlyCall evs.
Proof.
  intros Hclean. unfold HeapFileScan.scanNext.
  destruct (HeapFileScan.scanLoop fuel s _ _ w) as [[[[st0 rid0] h0] w0]| |] eqn:Eloop;
    try discriminate.
  intros [= <- <- <- <-].
  exact (scanLoop_read_only s fuel _ _ _ _ _ _ _ Hclean Eloop).
Qed.

End ReadOnlyScan.


Section Teardown.
Context `{Platform}.

Lemma closeFile_inv w st w' :
  DB.closeFile w = (st, w') ->
  frames w' = frames w /\ pinned w' = pinned w /\ log w' = log w
  /\ faults w' = tail (faults w).
Proof.
  unfold DB.closeFile, nextFault.
  destruct (faults w) eqn:Hf; intros [= <- <-]; cbn; rewrite ?Hf; auto.
Qed.

Lemma unPinPage_event p d w st w' :
  BufMgr.unPinPage p d w = (st, w') ->
  frames w' = frames w /\ faults w' = tail (faults w)
  /\ exists pins, log w' = mkEvent (UnPinPage p d) st pins :: log w.
Proof.
  intros Hun.
  apply unPinPage_inv in Hun as (Hfr & Hfa & [(-> & _ & Hlog)|(_ & _ & Hlog)]);
    eauto.
Qed.

(** X20.  The destructor of HeapFile goes on after every failure: whatever
    the statuses, it issues the unPinPage of the current page with
    curDirtyFlag, then the unPinPage of the header page with
    hdrDirtyFlag, then closes the file, and it clears curPage, curPageNo
    and curDirtyFlag. *)
Theorem HeapFile_dtor_ignores_failures h w hp p :
  derefHdr (HeapFile.headerPage h) w = Some hp ->
  HeapFile.curPage h = Some p ->
  exists h' w' st1 st2 pins1 pins2,
    HeapFile.dtor h w = Done (h', w')
    /\ log w'
       = [mkEvent (UnPinPage (HeapFile.headerPageNo h) (HeapFile.hdrDirtyFlag h)) st2 pins2;
          mkEvent (UnPinPage (HeapFile.curPageNo h) (HeapFile.curDirtyFlag h)) st1 pins1]
         ++ log w
    /\ frames w' = frames w
    /\ faults w' = drop 3 (faults w)
    /\ HeapFile.curPage h' = None
    /\ HeapFile.curPageNo h' = 0
    /\ HeapFile.curDirtyFlag h' = false.
Proof.
  intros Hhdr Hcur. unfold HeapFile.dtor. rewrite Hhdr, Hcur.
  destruct (BufMgr.unPinPage (HeapFile.curPageNo h) _ w) as [st1 w1] eqn:E1.
  cbn [HeapFile.headerPageNo HeapFile.hdrDirtyFlag HeapFile.setCur].
  destruct (BufMgr.unPinPage (HeapFile.headerPageNo h) _ w1) as [st2 w2] eqn:E2.
  destruct (DB.closeFile w2) as [st3 w3] eqn:E3.
  apply unPinPage_event in E1 as (Hf1 & Hfa1 & pins1 & Hl1).
  apply unPinPage_event in E2 as (Hf2 & Hfa2 & pins2 & Hl2).
  apply closeFile_inv in E3 as (Hf3 & _ & Hl3 & Hfa3).
  eexists _, w3, st1, st2, pins1, pins2. split; [reflexivity|].
  split; [rewrite Hl3, Hl2, Hl1; reflexivity|].
  split; [congruence|].
  split; [|auto].
  rewrite Hfa3, Hfa2, Hfa1. destruct (faults w) as [|a [|b [|c l]]]; reflexivity.
Qed.

(** X21.  The destructor of InsertFileScan unpins the current page with
    dirty = true whatever curDirtyFlag says, then the destructor of the
    base class unpins the header page with hdrDirtyFlag; no pin is left. *)
Theorem InsertFileScan_dtor_writes_back h w hp p :
  derefHdr (HeapFile.headerPage h) w = Some hp ->
  HeapFile.curPage h = Some p ->
  owns h w ->
  faults w = [] ->
  exists h' w',
    InsertFileScan.dtor h w = Done (h', w')
    /\ log w'
       = [mkEvent (UnPinPage (HeapFile.headerPageNo h) (HeapFile.hdrDirtyFlag h)) OK [];
          mkEvent (UnPinPage (HeapFile.curPageNo h) true) OK [HeapFile.headerPageNo h]]
         ++ log w
    /\ frames w' = frames w
    /\ pinned w' = []
    /\ HeapFile.curPage h' = None.
Proof.
  intros Hhdr Hcur Howns Hfa. unfold owns, handlePins in Howns. rewrite Hcur in Howns.
  unfold InsertFileScan.dtor. rewrite Hcur.
  destruct (unPinPage_logged (HeapFile.curPageNo h) true w [HeapFile.headerPageNo h] Hfa)
    as (w1 & -> & Hf1 & Hp1 & Hfa1 & Hl1).
  { rewrite Howns. apply unpin1_head. }
  unfold HeapFile.dtor.
  cbn [HeapFile.headerPage HeapFile.setCurPageNo HeapFile.setCurPage HeapFile.setCur
       HeapFile.curPage HeapFile.headerPageNo HeapFile.hdrDirtyFlag].
  assert (Hhdr1 : derefHdr (HeapFile.headerPage h) w1 = Some hp).
  { unfold derefHdr in *. rewrite Hf1. exact Hhdr. }
  rewrite Hhdr1.
  destruct (unPinPage_logged (HeapFile.headerPageNo h) (HeapFile.hdrDirtyFlag h) w1 [] Hfa1)
    as (w2 & -> & Hf2 & Hp2 & Hfa2 & Hl2).
  { rewrite Hp1. apply unpin1_head. }
  destruct (DB.closeFile w2) as [st3 w3] eqn:E3.
  apply closeFile_inv in E3 as (Hf3 & Hp3 & Hl3 & _).
  eexists _, w3. split; [reflexivity|].
  split; [rewrite Hl3, Hl2, Hl1; reflexivity|].
  split; [congruence|]. split; [congruence|reflexivity].
Qed.

(** X22.  After deleteRecord, whatever its status, the destructor of the
    scan unpins both the current page and the header page with
    dirty = true, and releases every pin. *)
Theorem deleteRecord_then_dtor_writes_back s w p pg hno hp :
  onPage (HeapFileScan.base s) w p pg hno hp ->
  HeapFile.headerPageNo (HeapFileScan.base s) = hno ->
  owns (HeapFileScan.base s) w ->
  faults w = [] ->
  exists st s1 w1 s2 w2,
    HeapFileScan.deleteRecord s w = Done (st, s1, w1)
    /\ HeapFileScan.dtor s1 w1 = Done (s2, w2)
    /\ log w2
       = [mkEvent (UnPinPage hno true) OK []; mkEvent (UnPinPage p true) OK [hno]]
         ++ log w
    /\ frames w2 = frames w1
    /\ pinned w2 = [].
Proof.
  intros (Hcur & Hno & Hpg & Hself & Hhdr & Hhp) Hhno Howns Hfa.
  set (h := HeapFileScan.base s) in *.
  assert (Hne : p <> hno) by (intros ->; rewrite Hpg in Hhp; discriminate).
  unfold owns, handlePins in Howns. rewrite Hcur, Hno, Hhno in Howns.
  destruct (Page.deleteRecord pg (HeapFile.curRec h)) as [st pg'] eqn:Hdel.
  set (hp' := mkHdr (fileName hp) (firstPage hp) (lastPage hp) (pageCnt hp)
                (wrap32 (recCnt hp - 1))).
  set (w1 := setFrame hno (Hdr hp') (setFrame p (Data pg') w)).
  set (h1 := HeapFile.setHdrDirtyFlag true (HeapFile.setCurDirtyFlag true h)).
  assert (Hrun : HeapFileScan.deleteRecord s w = Done (st, HeapFileScan.setBase h1 s, w1)).
  { unfold HeapFileScan.deleteRecord, derefPage. fold h. rewrite Hcur, Hpg, Hdel.
    unfold HeapFile.updHeader, HeapFile.storeCurPage, derefHdr.
    cbn [HeapFile.headerPage HeapFile.setCurDirtyFlag HeapFile.setCur HeapFile.curPage].
    rewrite Hcur, Hhdr. cbn [setFrame setFrames frames].
    rewrite lookup_insert_ne by exact Hne. rewrite Hhp. reflexivity. }
  rewrite Hrun.
  assert (Hfa1 : faults w1 = []) by exact Hfa.
  assert (Hp1 : pinned w1 = [p; hno]) by exact Howns.
  exists st, (HeapFileScan.setBase h1 s), w1.
  unfold HeapFileScan.dtor, HeapFileScan.endScan.
  cbn [HeapFileScan.base HeapFileScan.setBase].
  assert (Hcur1 : HeapFile.curPage h1 = Some p) by exact Hcur.
  assert (Hno1 : HeapFile.curPageNo h1 = p) by exact Hno.
  rewrite Hcur1, Hno1.
  change (HeapFile.curDirtyFlag h1) with true.
  destruct (unPinPage_logged p true w1 [hno] Hfa1) as (w2 & -> & Hf2 & Hp2 & Hfa2 & Hl2).
  { rewrite Hp1. apply unpin1_head. }
  cbn [HeapFileScan.base HeapFileScan.setBase].
  unfold HeapFile.dtor.
  cbn [HeapFile.headerPage HeapFile.setCur HeapFile.curPage HeapFile.headerPageNo
       HeapFile.hdrDirtyFlag HeapFile.setHdrDirtyFlag h1].
  change (HeapFile.headerPage (HeapFile.setCurDirtyFlag true h)) with (HeapFile.headerPage h).
  change (HeapFile.headerPageNo (HeapFile.setCurDirtyFlag true h))
    with (HeapFile.headerPageNo h).
  rewrite Hhdr, Hhno.
  assert (Hd : derefHdr (Some hno) w2 <> None).
  { unfold derefHdr. rewrite Hf2. unfold w1. cbn [setFrame setFrames frames].
    rewrite lookup_insert_eq. discriminate. }
  destruct (derefHdr (Some hno) w2); [|contradiction].
  destruct (unPinPage_logged hno true w2 [] Hfa2) as (w3 & -> & Hf3 & Hp3 & Hfa3 & Hl3).
  { rewrite Hp2. apply unpin1_head. }
  destruct (DB.closeFile w3) as [st4 w4] eqn:E4.
  apply closeFile_inv in E4 as (Hf4 & Hp4 & Hl4 & _).
  eexists _, w4. split; [reflexivity|]. split; [reflexivity|].
  split; [rewrite Hl4, Hl3, Hl2; reflexivity|].
  split; [congruence|congruence].
Qed.

End Teardown.


Section Lifecycle.
Context `{Platform}.

(** X2.  createHeapFile when the file does not exist, its name fits the
    [fileName] array of the header and no call fails: it returns OK and
    leaves a file whose first page, page 1, is the header (the file name
    up to its first NUL, firstPage = lastPage = 2, pageCnt = 1,
    recCnt = 0) and whose chain of data pages is the empty page 2; both
    pages have been unpinned dirty and the pins are those from before.
    A second createHeapFile then returns FILEEXISTS and changes nothing. *)
Theorem createHeapFile_creates_empty_file name w :
  fileExists w = false -> faults w = [] ->
  Z.of_nat (List.length (c_str name)) < MAXNAMESIZE ->
  exists w',
    createHeapFile name w = Done (OK, w')
    /\ fileExists w' = true
    /\ fileFirstPage w' = Some 1
    /\ frames w' !! 1 = Some (Hdr (mkHdr (c_str name) 2 2 1 0))
    /\ chain (frames w') 2 [Page.init 2]
    /\ fileRids [Page.init 2] = []
    /\ pinned w' = pinned w
    /\ (exists pins1 pins2 evs,
          log w' = mkEvent (UnPinPage 2 true) OK pins2
                     :: mkEvent (UnPinPage 1 true) OK pins1 :: evs)
    /\ createHeapFile name w' = Done (FILEEXISTS, w').
Proof.
  intros Hex Hfa Hfit. eexists. split; [apply createHeapFile_fresh; assumption|].
  split; [reflexivity|]. split; [reflexivity|]. split; [reflexivity|].
  split; [cbn; repeat split; discriminate|].
  split; [reflexivity|]. split; [reflexivity|].
  split; [cbn; eauto|].
  apply createHeapFile_existing; reflexivity.
Qed.

(** X25.  createHeapFile does not check the length of the file name: when
    the name, up to its first NUL, does not fit the [fileName] array of
    the header together with its terminator, the strcpy into the header
    page writes past the end of the array, which is undefined
    behaviour; by then the file has been created and the header page
    allocated. *)
Theorem createHeapFile_long_name_overflows name w :
  fileExists w = false -> faults w = [] ->
  MAXNAMESIZE <= Z.of_nat (List.length (c_str name)) ->
  createHeapFile name w = Undefined.
Proof.
  intros Hex Hfa Hlong. unfold createHeapFile, strcpy.
  destruct (Z.ltb_spec (Z.of_nat (List.length (c_str name))) MAXNAMESIZE); [lia|].
  destruct w as [ex fp fr pn fa lg]. cbn in Hex, Hfa. subst ex fa.
  vm_compute. reflexivity.
Qed.

(** X3.  When the allocation of the first data page fails, createHeapFile
    (for a file name that fits the header) returns that status at once:
    the header page it has allocated stays pinned and the file stays
    created, so a retry returns FILEEXISTS. *)
Theorem createHeapFile_failed_alloc_leaks_pin name w st :
  fileExists w = false -> st <> OK ->
  faults w = [OK; OK; OK; OK; st] ->
  Z.of_nat (List.length (c_str name)) < MAXNAMESIZE ->
  exists w',
    createHeapFile name w = Done (st, w')
    /\ fileExists w' = true
    /\ pinned w' = 1 :: pinned w
    /\ log w' = [mkEvent AllocPage st (1 :: pinned w);
                 mkEvent AllocPage OK (1 :: pinned w)] ++ log w
    /\ createHeapFile name w' = Done (FILEEXISTS, w').
Proof.
  intros Hex Hst Hfa Hfit. unfold createHeapFile at 1.
  rewrite (strcpy_fits _ _ Hfit). generalize (c_str name) at 1. intros stored.
  destruct w as [ex fp fr pn fa lg]. cbn in Hex, Hfa. subst ex fa.
  destruct st; try contradiction;
    (eexists; split; [vm_compute; reflexivity|]);
    (split; [reflexivity|]); (split; [reflexivity|]); (split; [reflexivity|]);
    apply createHeapFile_existing; reflexivity.
Qed.

(** X23.  The whole life cycle on a new file: createHeapFile, an
    InsertFileScan that inserts one record and is destroyed, then a
    HeapFileScan without predicate.  Every step returns OK, no pin is left
    in between, the header counts one record, and the scan returns the RID
    insertRecord handed out and then FILEEOF; the record read back at that
    RID is the one inserted.  The file name must fit the header. *)
Theorem create_insert_scan_round_trip name rec h0 s0 w fuel :
  fileExists w = false -> faults w = [] -> pinned w = [] ->
  Z.of_nat (List.length (c_str name)) < MAXNAMESIZE ->
  0 <= Rec.length rec <= PAGESIZE - DPFIXED ->
  is_int (Rec.length rec) ->
  exists w1 h2 w2 rid h3 w3 h4 w4 s5 w5 s6 w6,
    createHeapFile name w = Done (OK, w1)
    /\ InsertFileScan.ctor h0 w1 = Done (OK, h2, w2)
    /\ InsertFileScan.insertRecord (S fuel) rec h2 w2 = Done (OK, Some rid, h3, w3)
    /\ InsertFileScan.dtor h3 w3 = Done (h4, w4)
    /\ pinned w4 = []
    /\ HeapFileScan.ctor s0 w4 = Done (OK, s5, w5)
    /\ HeapFile.getRecCnt (HeapFileScan.base s5) w5 = Done 1
    /\ scanMany (S (S fuel)) 2
         (snd (HeapFileScan.startScan 0 0 STRING None LT s5)) w5
       = Done ([rid], FILEEOF, s6, w6)
    /\ HeapFileScan.getRecord
         (HeapFileScan.setBase
            (HeapFile.setCurRec rid (HeapFileScan.base s6)) s6) w6
       = Done (OK, Some rec).
Proof.
  intros Hex Hfa Hpin Hname Hlen Hint.
  destruct w as [ex fp fr pn fa lg]. cbn in Hex, Hfa, Hpin. subst ex fa pn.
  eexists. eexists. eexists. eexists. eexists. eexists.
  eexists. eexists. eexists. eexists. eexists. eexists.
  split; [apply createHeapFile_fresh; [reflexivity|reflexivity|exact Hname]|].
  split.
  { unfold InsertFileScan.ctor.
    apply (HeapFile_ctor_opens h0 _ 1 (mkHdr (c_str name) 2 2 1 0)
             (Data (Page.init 2)));
      reflexivity. }
  split.
  { apply (insertRecord_fits_effect fuel rec _ _ 2 (Page.init 2) 1
             (mkHdr (c_str name) 2 2 1 0));
      try reflexivity.
    - unfold to_unsigned. rewrite Z.mod_small; [lia|].
      unfold is_int, INT_MIN, INT_MAX in Hint. lia.
    - apply insertRecord_fresh_page. lia. }
  split; [vm_compute; reflexivity|].
  split; [reflexivity|].
  split; [vm_compute; reflexivity|].
  split; [vm_compute; reflexivity|].
  split; [vm_compute; reflexivity|].
  vm_compute. reflexivity.
Qed.

End Lifecycle.


(** ** Dirty pages *)

Section DirtyPages.
Context `{Platform}.

Lemma scanLoop_first_call s fuel :
  forall p h w st rid h' w',
    HeapFileScan.scanLoop fuel s p h w = Done (st, rid, h', w') ->
    exists evs,
      log w' = evs ++ log w
      /\ (p <> -1 -> forall q, HeapFile.curPage h = Some q ->
          exists evs' st1 pins,
            evs = evs' ++ [mkEvent (UnPinPage (HeapFile.curPageNo h)
                                      (HeapFile.curDirtyFlag h)) st1 pins]).
Proof.
  induction fuel as [|fuel IH]; intros p h w st rid h' w'; [discriminate|].
  cbn [HeapFileScan.scanLoop].
  destruct (Z.eqb_spec p (-1)) as [Hp|Hp].
  { intros [= <- <- <- <-]. exists []. split; [reflexivity|]. intros Hne. contradiction. }
  destruct (match HeapFile.curPage h with Some _ => _ | None => _ end)
    as [st1 w1] eqn:Eun.
  assert (Hun : exists evs1, log w1 = evs1 ++ log w
                /\ forall q, HeapFile.curPage h = Some q ->
                   exists pins,
                     evs1 = [mkEvent (UnPinPage (HeapFile.curPageNo h)
                                        (HeapFile.curDirtyFlag h)) st1 pins]).
  { destruct (HeapFile.curPage h).
    - apply unPinPage_inv in Eun as (_ & _ & [(-> & _ & Hlog)|(_ & _ & Hlog)]);
        eexists [_]; (split; [exact Hlog|]); intros q _; eauto.
    - injection Eun as <- <-. exists []. split; [reflexivity|]. intros q Hq.
      discriminate. }
  destruct Hun as (evs1 & Hlog1 & Hfirst).
  assert (Hwrap : (exists X, log w' = X ++ log w1) ->
    exists evs,
      log w' = evs ++ log w
      /\ (p <> -1 -> forall q, HeapFile.curPage h = Some q ->
          exists evs' st0 pins,
            evs = evs' ++ [mkEvent (UnPinPage (HeapFile.curPageNo h)
                                      (HeapFile.curDirtyFlag h)) st0 pins])).
  { intros [X HX]. exists (X ++ evs1).
    split; [rewrite HX, Hlog1, app_assoc; reflexivity|].
    intros _ q Hq. destruct (Hfirst q Hq) as [pins ->]. eauto. }
  destruct st1.
  2-12: intros [= <- <- <- <-]; apply Hwrap; exists []; reflexivity.
  destruct (BufMgr.readPage _ w1) as [[st2 ptr] w2] eqn:Eread.
  assert (Hrd : exists e2, log w2 = e2 :: log w1).
  { apply readPage_inv in Eread
      as (_ & _ & [(_ & _ & _ & _ & Hlog)|(_ & _ & _ & Hlog)]); eauto. }
  destruct Hrd as (e2 & Hlog2).
  assert (Hstop : forall h0,
            Done (st, rid, h', w') = Done (st, rid, h0, w2) ->
            exists X, log w' = X ++ log w1).
  { intros h0 [= -> ->]. exists [e2]. exact Hlog2. }
  destruct st2.
  2-12: intros [= <- <- <- <-]; apply Hwrap, (Hstop h); reflexivity.
  intros Hrun. apply Hwrap. revert Hrun.
  set (h1 := HeapFile.setCur ptr p false h).
  destruct (derefPage (HeapFile.curPage h1) w2) as [pg|]; [|discriminate].
  unfold Page.getNextPage, Page.firstRecord, Page.nextRecord.
  assert (Hadv : forall h2,
    HeapFileScan.scanLoop fuel s (Page.nextPage pg) h2 w2 = Done (st, rid, h', w') ->
    exists X, log w' = X ++ log w1).
  { intros h2 Hrun. destruct (IH _ _ _ _ _ _ _ Hrun) as (evs & Hl & _).
    exists (evs ++ [e2]). rewrite Hl, Hlog2, <- app_assoc. reflexivity. }
  assert (Hpage : forall r,
    match HeapFileScan.scanPage (S fuel) s pg r h1 with
    | Done (HeapFileScan.Found rid0, h0) => Done (OK, Some rid0, h0, w2)
    | Done (HeapFileScan.Failed status, h0) => Done (status, None, h0, w2)
    | Done (HeapFileScan.EndOfPage, h0) =>
        HeapFileScan.scanLoop fuel s (Page.nextPage pg) h0 w2
    | Undefined => Undefined
    | OutOfFuel => OutOfFuel
    end = Done (st, rid, h', w') ->
    exists X, log w' = X ++ log w1).
  { intros r.
    destruct (HeapFileScan.scanPage (S fuel) s pg r h1) as [[res h0]| |];
      try discriminate.
    destruct res.
    - intros [= <- <- <- <-]. exists [e2]. exact Hlog2.
    - intros [= <- <- <- <-]. exists [e2]. exact Hlog2.
    - apply Hadv. }
  destruct (is_NULLRID (HeapFile.curRec h1)).
  - destruct (Page.findLive (Page.slots pg) 0) as [j|].
    + cbn [negb]. apply Hpage.
    + apply Hadv.
  - cbn [negb]. destruct (Page.findLive _ _) as [j|].
    + apply Hpage.
    + apply Hadv.
Qed.

(** X24.  markDirty takes effect at the next page switch: the first call
    the following scanNext makes into the buffer pool is the unPinPage of
    the current page with dirty = true. *)
Theorem markDirty_then_scanNext_unpins_dirty fuel s w p st rid s' w' :
  HeapFile.curPage (HeapFileScan.base s) = Some p ->
  HeapFile.curPageNo (HeapFileScan.base s) <> -1 ->
  HeapFileScan.scanNext fuel (snd (HeapFileScan.markDirty s)) w
    = Done (st, rid, s', w') ->
  fst (HeapFileScan.markDirty s) = OK
  /\ exists evs st1 pins,
       log w' = evs ++ [mkEvent (UnPinPage (HeapFile.curPageNo (HeapFileScan.base s))
                                   true) st1 pins] ++ log w.
Proof.
  intros Hcur Hno. unfold HeapFileScan.scanNext, HeapFileScan.markDirty.
  cbn [snd fst HeapFileScan.base HeapFileScan.setBase HeapFile.curPageNo
       HeapFile.setCurDirtyFlag HeapFile.setCur].
  destruct (HeapFileScan.scanLoop fuel _ _ _ w) as [[[[st0 rid0] h0] w0]| |] eqn:Eloop;
    try discriminate.
  intros [= <- <- <- <-]. split; [reflexivity|].
  apply scanLoop_first_call in Eloop as (evs & Hlog & Hfirst).
  destruct (Hfirst Hno p Hcur) as (evs' & st1 & pins & ->).
  exists evs', st1, pins. rewrite Hlog, <- app_assoc. reflexivity.
Qed.

End DirtyPages.

(** ** The properties above on the sample data *)

Lemma sampleWorld_chain : chain (frames sampleWorld) 2 [samplePage2; samplePage3].
Proof.
  split; [discriminate|]. split; [reflexivity|]. split; [reflexivity|].
  split; [discriminate|]. split; [reflexivity|]. split; reflexivity.
Qed.

Lemma evaluable_unfiltered `{Platform} s pgs :
  HeapFileScan.filter s = None -> evaluable s pgs.
Proof.
  intros Hf pg r _ _. unfold HeapFileScan.matchRec. rewrite Hf. discriminate.
Qed.

Lemma equalsSeven_evaluable :
  @evaluable samplePlatform equalsSeven [samplePage2; samplePage3].
Proof.
  intros pg r Hpg Hr.
  apply elem_of_cons in Hpg as [->|Hpg];
    [|apply elem_of_cons in Hpg as [->|Hpg]; [|inversion Hpg]].
  - cbn in Hr.
    apply elem_of_cons in Hr as [[= ->]|Hr]; [vm_compute; discriminate|].
    apply elem_of_cons in Hr as [Hr|Hr]; [discriminate|].
    apply elem_of_cons in Hr as [[= ->]|Hr]; [vm_compute; discriminate|].
    inversion Hr.
  - cbn in Hr.
    apply elem_of_cons in Hr as [[= ->]|Hr]; [vm_compute; discriminate|].
    inversion Hr.
Qed.

Lemma createHeapFile_refuses_existing_file_sample :
  (fileExists sampleWorld = true
   /\ (faults sampleWorld = [] \/ exists fs, faults sampleWorld = OK :: fs))
  /\ exists w',
       @createHeapFile samplePlatform [] sampleWorld = Done (FILEEXISTS, w')
       /\ fileExists w' = true
       /\ frames w' = frames sampleWorld /\ pinned w' = pinned sampleWorld
       /\ log w' = log sampleWorld.
Proof.
  assert (Hfa : faults sampleWorld = [] \/ exists fs, faults sampleWorld = OK :: fs)
    by (left; reflexivity).
  split; [split; [reflexivity|exact Hfa]|].
  exact (@createHeapFile_refuses_existing_file samplePlatform [] sampleWorld
           eq_refl Hfa).
Defined.

Lemma sampleName_fits :
  Z.of_nat (List.length (c_str [x66; x00; x67])) < @MAXNAMESIZE samplePlatform.
Proof. vm_compute. reflexivity. Qed.

Lemma createHeapFile_creates_empty_file_sample :
  (fileExists noFile = false /\ faults noFile = []
   /\ Z.of_nat (List.length (c_str [x66; x00; x67])) < @MAXNAMESIZE samplePlatform)
  /\ c_str [x66; x00; x67] = [x66]
  /\ exists w',
       @createHeapFile samplePlatform [x66; x00; x67] noFile = Done (OK, w')
       /\ fileExists w' = true
       /\ fileFirstPage w' = Some 1
       /\ frames w' !! 1 = Some (Hdr (mkHdr (c_str [x66; x00; x67]) 2 2 1 0))
       /\ chain (frames w') 2 [@Page.init 2]
       /\ fileRids [@Page.init 2] = []
       /\ pinned w' = pinned noFile
       /\ (exists pins1 pins2 evs,
             log w' = mkEvent (UnPinPage 2 true) OK pins2
                        :: mkEvent (UnPinPage 1 true) OK pins1 :: evs)
       /\ @createHeapFile samplePlatform [x66; x00; x67] w' = Done (FILEEXISTS, w').
Proof.
  split; [split; [reflexivity|split; [reflexivity|exact sampleName_fits]]|].
  split; [reflexivity|].
  exact (@createHeapFile_creates_empty_file samplePlatform [x66; x00; x67] noFile
           eq_refl eq_refl sampleName_fits).
Defined.

Lemma createHeapFile_long_name_overflows_sample :
  (fileExists noFile = false /\ faults noFile = []
   /\ @MAXNAMESIZE samplePlatform
      <= Z.of_nat (List.length (c_str (List.repeat x61 60))))
  /\ @createHeapFile samplePlatform (List.repeat x61 60) noFile = Undefined.
Proof.
  assert (Hlong : @MAXNAMESIZE samplePlatform
                  <= Z.of_nat (List.length (c_str (List.repeat x61 60))))
    by (vm_compute; discriminate).
  split; [split; [reflexivity|split; [reflexivity|exact Hlong]]|].
  exact (@createHeapFile_long_name_overflows samplePlatform (List.repeat x61 60) noFile
           eq_refl eq_refl Hlong).
Defined.

Lemma createHeapFile_failed_alloc_leaks_pin_sample :
  (fileExists failingAlloc = false /\ OtherError 1 <> OK
   /\ faults failingAlloc = [OK; OK; OK; OK; OtherError 1]
   /\ Z.of_nat (List.length (c_str [x66; x00; x67])) < @MAXNAMESIZE samplePlatform)
  /\ exists w',
       @createHeapFile samplePlatform [x66; x00; x67] failingAlloc
         = Done (OtherError 1, w')
       /\ fileExists w' = true
       /\ pinned w' = 1 :: pinned failingAlloc
       /\ log w' = [mkEvent AllocPage (OtherError 1) (1 :: pinned failingAlloc);
                    mkEvent AllocPage OK (1 :: pinned failingAlloc)]
                   ++ log failingAlloc
       /\ @createHeapFile samplePlatform [x66; x00; x67] w' = Done (FILEEXISTS, w').
Proof.
  assert (Hst : OtherError 1 <> OK) by discriminate.
  split; [split; [reflexivity|split; [exact Hst|split; [reflexivity|
          exact sampleName_fits]]]|].
  exact (@createHeapFile_failed_alloc_leaks_pin samplePlatform [x66; x00; x67]
           failingAlloc (OtherError 1) eq_refl Hst eq_refl sampleName_fits).
Defined.

Lemma HeapFile_ctor_missing_file_sample :
  fileExists noFile = false
  /\ exists st w',
       HeapFile.ctor sampleHandle noFile = Done (st, sampleHandle, w')
       /\ st <> OK
       /\ log w' = log noFile /\ pinned w' = pinned noFile
       /\ frames w' = frames noFile.
Proof.
  split; [reflexivity|].
  exact (HeapFile_ctor_missing_file sampleHandle noFile eq_refl).
Defined.

Lemma HeapFile_ctor_failed_read_keeps_header_pinned_sample :
  (fileExists failingRead = true /\ fileFirstPage failingRead = Some 1
   /\ frames failingRead !! 1 = Some (Hdr (mkHdr [] 2 3 2 3))
   /\ OtherError 1 <> OK
   /\ faults failingRead = [OK; OK; OK; OtherError 1])
  /\ exists w',
       HeapFile.ctor sampleHandle failingRead
         = Done (OtherError 1,
                 HeapFile.mk (Some 1) 1 false
                   (HeapFile.curPage sampleHandle) 2
                   (HeapFile.curDirtyFlag sampleHandle) (HeapFile.curRec sampleHandle),
                 w')
       /\ pinned w' = 1 :: pinned failingRead
       /\ log w' = [mkEvent (ReadPage 2) (OtherError 1) (1 :: pinned failingRead);
                    mkEvent (ReadPage 1) OK (1 :: pinned failingRead)]
                   ++ log failingRead.
Proof.
  assert (Hst : OtherError 1 <> OK) by discriminate.
  split; [repeat split; [exact Hst]|].
  exact (HeapFile_ctor_failed_read_keeps_header_pinned sampleHandle failingRead 1
           (mkHdr [] 2 3 2 3) (OtherError 1) eq_refl eq_refl eq_refl Hst eq_refl).
Defined.

Lemma getRecord_missing_page_sample :
  (faults sampleWorld = [] /\ owns sampleHandle sampleWorld
   /\ HeapFile.curPage sampleHandle = Some 2
   /\ pageNo (mkRID 9 0) <> HeapFile.curPageNo sampleHandle
   /\ pageNo (mkRID 9 0) <> HeapFile.headerPageNo sampleHandle
   /\ frames sampleWorld !! pageNo (mkRID 9 0) = None)
  /\ exists w',
       HeapFile.getRecord (mkRID 9 0) sampleHandle sampleWorld
         = Done (BADPAGENO, None, HeapFile.setCurPageNo 9 sampleHandle, w')
       /\ pinned w' = [1]
       /\ ~ owns (HeapFile.setCurPageNo 9 sampleHandle) w'
       /\ forall s, HeapFileScan.base s = HeapFile.setCurPageNo 9 sampleHandle ->
            (HeapFileScan.endScan s w').1.1 = PAGENOTPINNED.
Proof.
  assert (H1 : pageNo (mkRID 9 0) <> HeapFile.curPageNo sampleHandle) by (cbn; lia).
  assert (H2 : pageNo (mkRID 9 0) <> HeapFile.headerPageNo sampleHandle) by (cbn; lia).
  split; [split; [reflexivity|split; [reflexivity|split; [reflexivity|
          split; [exact H1|split; [exact H2|reflexivity]]]]]|].
  exact (getRecord_missing_page (mkRID 9 0) sampleHandle sampleWorld 2
           eq_refl eq_refl eq_refl H1 H2 eq_refl).
Defined.

Lemma scanNext_sound_sample :
  exists rid s' w',
    @HeapFileScan.scanNext samplePlatform 3 equalsSeven sampleWorld
      = Done (OK, rid, s', w')
    /\ exists r rec,
         rid = Some r
         /\ HeapFile.curRec (HeapFileScan.base s') = r
         /\ @HeapFileScan.matchRec samplePlatform equalsSeven rec = Some true
         /\ HeapFileScan.getRecord s' w' = Done (OK, Some rec).
Proof.
  destruct (@HeapFileScan.scanNext samplePlatform 3 equalsSeven sampleWorld)
    as [[[[st rid] s'] w']| |] eqn:Erun; try (vm_compute in Erun; discriminate).
  assert (Hst : st = OK) by (vm_compute in Erun; congruence).
  subst st. exists rid, s', w'. split; [reflexivity|].
  exact (@scanNext_sound samplePlatform 3 equalsSeven sampleWorld rid s' w' Erun).
Defined.

Lemma matchRec_in_bounds_sample :
  (@HeapFileScan.startScan 0 4 INTEGER (Some [x07; x00; x00; x00]) EQ sampleScan
     = (OK, equalsSeven)
   /\ is_int 4 /\ is_int (0 + 4 - 1)
   /\ 4 <= Z.of_nat (List.length [x07; x00; x00; x00])
   /\ Rec.length sampleRec <= Z.of_nat (List.length (Rec.data sampleRec)))
  /\ exists b, @HeapFileScan.matchRec samplePlatform equalsSeven sampleRec = Some b.
Proof.
  assert (H1 : is_int 4) by (unfold is_int, INT_MIN, INT_MAX; lia).
  assert (H2 : is_int (0 + 4 - 1)) by (unfold is_int, INT_MIN, INT_MAX; lia).
  assert (H3 : 4 <= Z.of_nat (List.length [x07; x00; x00; x00])) by (cbn; lia).
  assert (H4 : Rec.length sampleRec <= Z.of_nat (List.length (Rec.data sampleRec)))
    by (cbn; lia).
  split; [split; [reflexivity|auto]|].
  exact (@matchRec_in_bounds samplePlatform 0 4 INTEGER [x07; x00; x00; x00] EQ
           sampleScan equalsSeven sampleRec eq_refl H1 H2 H3 H4).
Defined.


Lemma sampleRec_is_int : is_int (Rec.length sampleRec).
Proof. unfold is_int, INT_MIN, INT_MAX. cbn. lia. Qed.

Lemma sampleRec_fits :
  to_unsigned (Rec.length sampleRec) <= @PAGESIZE samplePlatform - @DPFIXED samplePlatform.
Proof. vm_compute. discriminate. Qed.

Lemma fullWorld_onPage :
  onPage sampleHandle fullWorld 2 fullPage 1 (mkHdr [] 2 2 1 1).
Proof. repeat split. Qed.

Lemma sampleWorld_onPage s :
  HeapFile.curPage s = Some 2 -> HeapFile.curPageNo s = 2 ->
  HeapFile.headerPage s = Some 1 ->
  onPage s sampleWorld 2 samplePage2 1 (mkHdr [] 2 3 2 3).
Proof. intros H1 H2 H3. repeat split; assumption. Qed.

Lemma fullFirstWorld_onPage :
  onPage sampleHandle fullFirstWorld 2 fullPage2 1 (mkHdr [] 2 3 2 2).
Proof. repeat split. Qed.

Lemma fullFirstWorld_chain :
  chain (frames fullFirstWorld) 2 ([] ++ fullPage2 :: [samplePage3]).
Proof.
  split; [discriminate|]. split; [reflexivity|]. split; [reflexivity|].
  split; [discriminate|]. split; [reflexivity|]. split; reflexivity.
Qed.

Lemma insertRecord_then_getRecord_sample :
  (onPage sampleHandle fullWorld 2 fullPage 1 (mkHdr [] 2 2 1 1)
   /\ is_int (Rec.length sampleRec)
   /\ to_unsigned (Rec.length sampleRec)
      <= @PAGESIZE samplePlatform - @DPFIXED samplePlatform
   /\ faults fullWorld = [] /\ pinned fullWorld = 2 :: [1] /\ (2 <= 2)%nat)
  /\ exists rid h' w',
       @InsertFileScan.insertRecord samplePlatform 2 sampleRec sampleHandle fullWorld
         = Done (OK, Some rid, h', w')
       /\ HeapFile.getRecord rid h' w' = Done (OK, Some sampleRec, h', w').
Proof.
  assert (Hfuel : (2 <= 2)%nat) by lia.
  split; [split; [exact fullWorld_onPage|split; [exact sampleRec_is_int|
          split; [exact sampleRec_fits|split; [reflexivity|split; [reflexivity|exact Hfuel]]]]]|].
  exact (@insertRecord_then_getRecord samplePlatform 2 sampleRec sampleHandle fullWorld
           2 fullPage 1 (mkHdr [] 2 2 1 1) [1]
           fullWorld_onPage sampleRec_is_int sampleRec_fits eq_refl eq_refl Hfuel).
Defined.

Lemma insertRecord_header_counts_sample :
  (onPage sampleHandle fullWorld 2 fullPage 1 (mkHdr [] 2 2 1 1)
   /\ is_int (Rec.length sampleRec)
   /\ to_unsigned (Rec.length sampleRec)
      <= @PAGESIZE samplePlatform - @DPFIXED samplePlatform
   /\ faults fullWorld = [] /\ pinned fullWorld = 2 :: [1] /\ (2 <= 2)%nat)
  /\ exists rid h' w' hp',
       @InsertFileScan.insertRecord samplePlatform 2 sampleRec sampleHandle fullWorld
         = Done (OK, Some rid, h', w')
       /\ HeapFile.hdrDirtyFlag h' = true /\ HeapFile.curDirtyFlag h' = true
       /\ frames w' !! 1 = Some (Hdr hp')
       /\ recCnt hp' = wrap32 (recCnt (mkHdr [] 2 2 1 1) + 1)
       /\ pageCnt hp' = pageCnt (mkHdr [] 2 2 1 1)
       /\ firstPage hp' = firstPage (mkHdr [] 2 2 1 1)
       /\ ((HeapFile.curPageNo h' = 2 /\ lastPage hp' = lastPage (mkHdr [] 2 2 1 1))
           \/ (frames fullWorld !! HeapFile.curPageNo h' = None
               /\ is_Some (frames w' !! HeapFile.curPageNo h')
               /\ lastPage hp' = HeapFile.curPageNo h')).
Proof.
  assert (Hfuel : (2 <= 2)%nat) by lia.
  split; [split; [exact fullWorld_onPage|split; [exact sampleRec_is_int|
          split; [exact sampleRec_fits|split; [reflexivity|split; [reflexivity|exact Hfuel]]]]]|].
  exact (@insertRecord_header_counts samplePlatform 2 sampleRec sampleHandle fullWorld
           2 fullPage 1 (mkHdr [] 2 2 1 1) [1]
           fullWorld_onPage sampleRec_is_int sampleRec_fits eq_refl eq_refl Hfuel).
Defined.

Lemma insertRecord_unpins_full_page_clean_sample :
  (onPage sampleHandle fullWorld 2 fullPage 1 (mkHdr [] 2 2 1 1)
   /\ is_int (Rec.length sampleRec)
   /\ to_unsigned (Rec.length sampleRec)
      <= @PAGESIZE samplePlatform - @DPFIXED samplePlatform
   /\ faults fullWorld = [] /\ pinned fullWorld = 2 :: [1] /\ (2 <= 2)%nat
   /\ @Page.freeSpace samplePlatform fullPage < Rec.length sampleRec
   /\ HeapFile.curDirtyFlag sampleHandle = false)
  /\ exists rid h' w' evs,
       @InsertFileScan.insertRecord samplePlatform 2 sampleRec sampleHandle fullWorld
         = Done (OK, Some rid, h', w')
       /\ frames w' !! 2 = Some (Data (Page.setNextPage fullPage (pageNo rid)))
       /\ log w' = evs ++ log fullWorld
       /\ Exists (fun e => ev_call e = UnPinPage 2 false /\ ev_status e = OK) evs
       /\ Forall (fun e => ev_call e <> UnPinPage 2 true) evs.
Proof.
  assert (Hfuel : (2 <= 2)%nat) by lia.
  assert (Hfull : @Page.freeSpace samplePlatform fullPage < Rec.length sampleRec)
    by (vm_compute; reflexivity).
  split; [split; [exact fullWorld_onPage|split; [exact sampleRec_is_int|
          split; [exact sampleRec_fits|split; [reflexivity|split; [reflexivity|
          split; [exact Hfuel|split; [exact Hfull|reflexivity]]]]]]]|].
  exact (@insertRecord_unpins_full_page_clean samplePlatform 2 sampleRec sampleHandle
           fullWorld 2 fullPage 1 (mkHdr [] 2 2 1 1) [1]
           fullWorld_onPage sampleRec_is_int sampleRec_fits eq_refl eq_refl Hfuel
           Hfull eq_refl).
Defined.

Lemma insertRecord_fits_chain_sample :
  (onPage sampleHandle sampleWorld 2 samplePage2 1 (mkHdr [] 2 3 2 3)
   /\ to_unsigned (Rec.length sampleRec)
      <= @PAGESIZE samplePlatform - @DPFIXED samplePlatform
   /\ Rec.length sampleRec <= @Page.freeSpace samplePlatform samplePage2
   /\ chain (frames sampleWorld) 2 ([] ++ samplePage2 :: [samplePage3])
   /\ (1 <= 1)%nat)
  /\ exists rid h' w' pg' a b,
       @InsertFileScan.insertRecord samplePlatform 1 sampleRec sampleHandle sampleWorld
         = Done (OK, Some rid, h', w')
       /\ log w' = log sampleWorld
       /\ chain (frames w') 2 ([] ++ pg' :: [samplePage3])
       /\ pageNo rid = 2
       /\ Page.liveRids samplePage2 = a ++ b
       /\ fileRids ([] ++ pg' :: [samplePage3])
          = fileRids [] ++ (a ++ rid :: b) ++ fileRids [samplePage3]
       /\ (rid ∉ fileRids ([] ++ samplePage2 :: [samplePage3])).
Proof.
  assert (Hfuel : (1 <= 1)%nat) by lia.
  assert (Hroom : Rec.length sampleRec <= @Page.freeSpace samplePlatform samplePage2)
    by (vm_compute; discriminate).
  assert (Hon : onPage sampleHandle sampleWorld 2 samplePage2 1 (mkHdr [] 2 3 2 3))
    by (apply sampleWorld_onPage; reflexivity).
  split; [split; [exact Hon|split; [exact sampleRec_fits|split; [exact Hroom|
          split; [exact sampleWorld_chain|exact Hfuel]]]]|].
  exact (@insertRecord_fits_chain samplePlatform 1 sampleRec sampleHandle sampleWorld
           2 samplePage2 1 (mkHdr [] 2 3 2 3) 2 [] [samplePage3]
           Hon sampleRec_fits Hroom sampleWorld_chain Hfuel).
Defined.

Lemma insertRecord_grows_chain_sample :
  (onPage sampleHandle fullFirstWorld 2 fullPage2 1 (mkHdr [] 2 3 2 2)
   /\ is_int (Rec.length sampleRec)
   /\ to_unsigned (Rec.length sampleRec)
      <= @PAGESIZE samplePlatform - @DPFIXED samplePlatform
   /\ @Page.freeSpace samplePlatform fullPage2 < Rec.length sampleRec
   /\ faults fullFirstWorld = [] /\ pinned fullFirstWorld = 2 :: [1]
   /\ chain (frames fullFirstWorld) 2 ([] ++ fullPage2 :: [samplePage3])
   /\ (2 <= 2)%nat)
  /\ exists rid h' w' pgs',
       @InsertFileScan.insertRecord samplePlatform 2 sampleRec sampleHandle fullFirstWorld
         = Done (OK, Some rid, h', w')
       /\ pgs' = [] ++ [Page.setNextPage fullPage2 (pageNo rid);
                        Page.mk (pageNo rid) (-1) [Some sampleRec]]
       /\ chain (frames w') 2 pgs'
       /\ fileRids pgs' = fileRids [] ++ Page.liveRids fullPage2 ++ [rid]
       /\ forall r, r ∈ fileRids [samplePage3] -> r ∉ fileRids pgs'.
Proof.
  assert (Hfuel : (2 <= 2)%nat) by lia.
  assert (Hfull : @Page.freeSpace samplePlatform fullPage2 < Rec.length sampleRec)
    by (vm_compute; reflexivity).
  split; [split; [exact fullFirstWorld_onPage|split; [exact sampleRec_is_int|
          split; [exact sampleRec_fits|split; [exact Hfull|split; [reflexivity|
          split; [reflexivity|split; [exact fullFirstWorld_chain|exact Hfuel]]]]]]]|].
  exact (@insertRecord_grows_chain samplePlatform 2 sampleRec sampleHandle fullFirstWorld
           2 fullPage2 1 (mkHdr [] 2 3 2 2) [1] 2 [] [samplePage3]
           fullFirstWorld_onPage sampleRec_is_int sampleRec_fits Hfull eq_refl eq_refl
           fullFirstWorld_chain Hfuel).
Defined.

Lemma scanNext_filtered_file_sample :
  (HeapFile.curRec (HeapFileScan.base equalsSeven) = NULLRID
   /\ chain (frames sampleWorld) (HeapFile.curPageNo (HeapFileScan.base equalsSeven))
        [samplePage2; samplePage3]
   /\ faults sampleWorld = []
   /\ owns (HeapFileScan.base equalsSeven) sampleWorld
   /\ @evaluable samplePlatform equalsSeven [samplePage2; samplePage3])
  /\ @fileMatches samplePlatform equalsSeven [samplePage2; samplePage3]
     = [mkRID 2 0; mkRID 3 0]
  /\ (forall r,
        r ∈ @fileMatches samplePlatform equalsSeven [samplePage2; samplePage3] <->
        exists pg rec,
          pg ∈ [samplePage2; samplePage3] /\ pageNo r = Page.curPage pg
          /\ Page.getRecord pg r = (OK, Some rec)
          /\ @HeapFileScan.matchRec samplePlatform equalsSeven rec = Some true)
  /\ forall fuel, (scanFuel [samplePage2; samplePage3] <= fuel)%nat ->
       exists s' w',
         @scanMany samplePlatform fuel
           (S (List.length (@fileMatches samplePlatform equalsSeven
                              [samplePage2; samplePage3])))
           equalsSeven sampleWorld
           = Done (@fileMatches samplePlatform equalsSeven [samplePage2; samplePage3],
                   FILEEOF, s', w').
Proof.
  split; [split; [reflexivity|split; [exact sampleWorld_chain|split; [reflexivity|
          split; [reflexivity|exact equalsSeven_evaluable]]]]|].
  split; [vm_compute; reflexivity|].
  exact (@scanNext_filtered_file samplePlatform equalsSeven sampleWorld
           [samplePage2; samplePage3] eq_refl sampleWorld_chain eq_refl eq_refl
           equalsSeven_evaluable).
Defined.


Lemma sampleWorld_chain3 : chain (frames sampleWorld) 3 [samplePage3].
Proof.
  split; [discriminate|]. split; [reflexivity|]. split; reflexivity.
Qed.

Lemma resetScan_replays_sample :
  (chain (frames sampleWorld) (HeapFileScan.markedPageNo markedScan) [samplePage3]
   /\ faults sampleWorld = []
   /\ owns (HeapFileScan.base markedScan) sampleWorld
   /\ @evaluable samplePlatform markedScan [samplePage3]
   /\ (scanFuel [samplePage3] <= 3)%nat)
  /\ @remainingMatches samplePlatform markedScan (HeapFileScan.markedRec markedScan)
       [samplePage3] = [mkRID 3 0]
  /\ exists s1 w1,
       HeapFileScan.resetScan markedScan sampleWorld = (OK, s1, w1)
       /\ frames w1 = frames sampleWorld
       /\ HeapFile.curPageNo (HeapFileScan.base s1) = HeapFileScan.markedPageNo markedScan
       /\ HeapFile.curRec (HeapFileScan.base s1) = HeapFileScan.markedRec markedScan
       /\ (HeapFileScan.markedPageNo markedScan
             <> HeapFile.curPageNo (HeapFileScan.base markedScan) ->
           owns (HeapFileScan.base s1) w1
           /\ HeapFile.curDirtyFlag (HeapFileScan.base s1) = false)
       /\ exists s' w',
            @scanMany samplePlatform 3
              (S (List.length
                    (@remainingMatches samplePlatform markedScan
                       (HeapFileScan.markedRec markedScan) [samplePage3])))
              s1 w1
            = Done (@remainingMatches samplePlatform markedScan
                      (HeapFileScan.markedRec markedScan) [samplePage3],
                    FILEEOF, s', w').
Proof.
  assert (Hev : @evaluable samplePlatform markedScan [samplePage3])
    by (apply evaluable_unfiltered; reflexivity).
  assert (Hfuel : (scanFuel [samplePage3] <= 3)%nat) by (vm_compute; lia).
  split; [split; [exact sampleWorld_chain3|split; [reflexivity|split; [reflexivity|
          split; [exact Hev|exact Hfuel]]]]|].
  split; [vm_compute; reflexivity|].
  exact (@resetScan_replays samplePlatform markedScan sampleWorld samplePage3 [] 3
           sampleWorld_chain3 eq_refl eq_refl Hev Hfuel).
Defined.

Lemma scanNext_past_FILEEOF_sample :
  (HeapFile.curRec (HeapFileScan.base sampleScan) = NULLRID
   /\ chain (frames sampleWorld) (HeapFile.curPageNo (HeapFileScan.base sampleScan))
        [samplePage2; samplePage3]
   /\ last [samplePage2; samplePage3] = Some samplePage3
   /\ faults sampleWorld = []
   /\ owns (HeapFileScan.base sampleScan) sampleWorld
   /\ @evaluable samplePlatform sampleScan [samplePage2; samplePage3]
   /\ (scanFuel [samplePage2; samplePage3] <= 7)%nat)
  /\ @matchAfter samplePlatform sampleScan samplePage3 0 = [mkRID 3 0]
  /\ exists s1 w1 s2 w2,
       @scanMany samplePlatform 7
         (S (List.length (@fileMatches samplePlatform sampleScan
                            [samplePage2; samplePage3])))
         sampleScan sampleWorld
         = Done (@fileMatches samplePlatform sampleScan [samplePage2; samplePage3],
                 FILEEOF, s1, w1)
       /\ HeapFile.curPageNo (HeapFileScan.base s1) = Page.curPage samplePage3
       /\ HeapFile.curRec (HeapFileScan.base s1) = NULLRID
       /\ @scanMany samplePlatform 7
            (S (List.length (@matchAfter samplePlatform sampleScan samplePage3 0)))
            s1 w1
          = Done (@matchAfter samplePlatform sampleScan samplePage3 0, FILEEOF, s2, w2).
Proof.
  assert (Hev : @evaluable samplePlatform sampleScan [samplePage2; samplePage3])
    by (apply evaluable_unfiltered; reflexivity).
  assert (Hfuel : (scanFuel [samplePage2; samplePage3] <= 7)%nat) by (vm_compute; lia).
  split; [split; [reflexivity|split; [exact sampleWorld_chain|split; [reflexivity|
          split; [reflexivity|split; [reflexivity|split; [exact Hev|exact Hfuel]]]]]]|].
  split; [vm_compute; reflexivity|].
  exact (@scanNext_past_FILEEOF samplePlatform sampleScan sampleWorld
           [samplePage2; samplePage3] samplePage3 7
           eq_refl sampleWorld_chain eq_refl eq_refl eq_refl Hev Hfuel).
Defined.

Lemma deleteRecord_removes_cursor_record_sample :
  (onPage (HeapFileScan.base cursorScan) sampleWorld 2 samplePage2 1 (mkHdr [] 2 3 2 3)
   /\ pageNo (HeapFile.curRec (HeapFileScan.base cursorScan)) = 2
   /\ Page.getRecord samplePage2 (HeapFile.curRec (HeapFileScan.base cursorScan))
      = (OK, Some sampleRec)
   /\ chain (frames sampleWorld) 2 ([] ++ samplePage2 :: [samplePage3]))
  /\ exists s' w' pg' l1 l2,
       @HeapFileScan.deleteRecord cursorScan sampleWorld = Done (OK, s', w')
       /\ chain (frames w') 2 ([] ++ pg' :: [samplePage3])
       /\ fileRids ([] ++ samplePage2 :: [samplePage3])
          = l1 ++ HeapFile.curRec (HeapFileScan.base cursorScan) :: l2
       /\ fileRids ([] ++ pg' :: [samplePage3]) = l1 ++ l2
       /\ (HeapFile.curRec (HeapFileScan.base cursorScan)
             ∉ fileRids ([] ++ pg' :: [samplePage3]))
       /\ HeapFile.curRec (HeapFileScan.base s')
          = HeapFile.curRec (HeapFileScan.base cursorScan)
       /\ HeapFileScan.getRecord s' w' = Done (INVALIDSLOTNO, None)
       /\ @remainingMatches samplePlatform s'
            (HeapFile.curRec (HeapFileScan.base cursorScan)) (pg' :: [samplePage3])
          = @remainingMatches samplePlatform cursorScan
              (HeapFile.curRec (HeapFileScan.base cursorScan))
              (samplePage2 :: [samplePage3]).
Proof.
  assert (Hon : onPage (HeapFileScan.base cursorScan) sampleWorld 2 samplePage2 1
                  (mkHdr [] 2 3 2 3))
    by (apply sampleWorld_onPage; reflexivity).
  split; [split; [exact Hon|split; [reflexivity|split; [reflexivity|
          exact sampleWorld_chain]]]|].
  exact (@deleteRecord_removes_cursor_record samplePlatform cursorScan sampleWorld
           2 samplePage2 1 (mkHdr [] 2 3 2 3) 2 [] [samplePage3] sampleRec
           Hon eq_refl eq_refl sampleWorld_chain).
Defined.

Lemma scanNext_read_only_sample :
  exists st rid s' w',
    (HeapFile.curDirtyFlag (HeapFileScan.base equalsSeven) = false
     /\ @HeapFileScan.scanNext samplePlatform 3 equalsSeven sampleWorld
        = Done (st, rid, s', w'))
    /\ frames w' = frames sampleWorld
    /\ HeapFile.curDirtyFlag (HeapFileScan.base s') = false
    /\ HeapFile.hdrDirtyFlag (HeapFileScan.base s')
         = HeapFile.hdrDirtyFlag (HeapFileScan.base equalsSeven)
    /\ exists evs, log w' = evs ++ log sampleWorld /\ Forall readOnlyCall evs.
Proof.
  destruct (@HeapFileScan.scanNext samplePlatform 3 equalsSeven sampleWorld)
    as [[[[st rid] s'] w']| |] eqn:Erun; try (vm_compute in Erun; discriminate).
  exists st, rid, s', w'. split; [split; reflexivity|].
  exact (@scanNext_read_only samplePlatform 3 equalsSeven sampleWorld st rid s' w'
           eq_refl Erun).
Defined.

Lemma HeapFile_dtor_ignores_failures_sample :
  (derefHdr (HeapFile.headerPage sampleHandle) failingRead = Some (mkHdr [] 2 3 2 3)
   /\ HeapFile.curPage sampleHandle = Some 2)
  /\ exists h' w' st1 st2 pins1 pins2,
       HeapFile.dtor sampleHandle failingRead = Done (h', w')
       /\ log w'
          = [mkEvent (UnPinPage (HeapFile.headerPageNo sampleHandle)
                        (HeapFile.hdrDirtyFlag sampleHandle)) st2 pins2;
             mkEvent (UnPinPage (HeapFile.curPageNo sampleHandle)
                        (HeapFile.curDirtyFlag sampleHandle)) st1 pins1]
            ++ log failingRead
       /\ frames w' = frames failingRead
       /\ faults w' = drop 3 (faults failingRead)
       /\ HeapFile.curPage h' = None
       /\ HeapFile.curPageNo h' = 0
       /\ HeapFile.curDirtyFlag h' = false.
Proof.
  split; [split; reflexivity|].
  exact (HeapFile_dtor_ignores_failures sampleHandle failingRead (mkHdr [] 2 3 2 3) 2
           eq_refl eq_refl).
Defined.

Lemma InsertFileScan_dtor_writes_back_sample :
  (derefHdr (HeapFile.headerPage sampleHandle) sampleWorld = Some (mkHdr [] 2 3 2 3)
   /\ HeapFile.curPage sampleHandle = Some 2
   /\ owns sampleHandle sampleWorld
   /\ faults sampleWorld = [])
  /\ exists h' w',
       InsertFileScan.dtor sampleHandle sampleWorld = Done (h', w')
       /\ log w'
          = [mkEvent (UnPinPage (HeapFile.headerPageNo sampleHandle)
                        (HeapFile.hdrDirtyFlag sampleHandle)) OK [];
             mkEvent (UnPinPage (HeapFile.curPageNo sampleHandle) true) OK
                     [HeapFile.headerPageNo sampleHandle]]
            ++ log sampleWorld
       /\ frames w' = frames sampleWorld
       /\ pinned w' = []
       /\ HeapFile.curPage h' = None.
Proof.
  split; [repeat split|].
  exact (InsertFileScan_dtor_writes_back sampleHandle sampleWorld (mkHdr [] 2 3 2 3) 2
           eq_refl eq_refl eq_refl eq_refl).
Defined.

Lemma deleteRecord_then_dtor_writes_back_sample :
  (onPage (HeapFileScan.base cursorScan) sampleWorld 2 samplePage2 1 (mkHdr [] 2 3 2 3)
   /\ HeapFile.headerPageNo (HeapFileScan.base cursorScan) = 1
   /\ owns (HeapFileScan.base cursorScan) sampleWorld
   /\ faults sampleWorld = [])
  /\ exists st s1 w1 s2 w2,
       @HeapFileScan.deleteRecord cursorScan sampleWorld = Done (st, s1, w1)
       /\ HeapFileScan.dtor s1 w1 = Done (s2, w2)
       /\ log w2
          = [mkEvent (UnPinPage 1 true) OK []; mkEvent (UnPinPage 2 true) OK [1]]
            ++ log sampleWorld
       /\ frames w2 = frames w1
       /\ pinned w2 = [].
Proof.
  assert (Hon : onPage (HeapFileScan.base cursorScan) sampleWorld 2 samplePage2 1
                  (mkHdr [] 2 3 2 3))
    by (apply sampleWorld_onPage; reflexivity).
  split; [split; [exact Hon|split; [reflexivity|split; reflexivity]]|].
  exact (deleteRecord_then_dtor_writes_back cursorScan sampleWorld 2 samplePage2 1
           (mkHdr [] 2 3 2 3) Hon eq_refl eq_refl eq_refl).
Defined.

Lemma create_insert_scan_round_trip_sample :
  (fileExists noFile = false /\ faults noFile = [] /\ pinned noFile = []
   /\ Z.of_nat (List.length (c_str [x66; x00; x67])) < @MAXNAMESIZE samplePlatform
   /\ 0 <= Rec.length sampleRec
        <= @PAGESIZE samplePlatform - @DPFIXED samplePlatform
   /\ is_int (Rec.length sampleRec))
  /\ exists w1 h2 w2 rid h3 w3 h4 w4 s5 w5 s6 w6,
       @createHeapFile samplePlatform [x66; x00; x67] noFile = Done (OK, w1)
       /\ InsertFileScan.ctor sampleHandle w1 = Done (OK, h2, w2)
       /\ @InsertFileScan.insertRecord samplePlatform 1 sampleRec h2 w2
          = Done (OK, Some rid, h3, w3)
       /\ InsertFileScan.dtor h3 w3 = Done (h4, w4)
       /\ pinned w4 = []
       /\ HeapFileScan.ctor equalsSeven w4 = Done (OK, s5, w5)
       /\ HeapFile.getRecCnt (HeapFileScan.base s5) w5 = Done 1
       /\ @scanMany samplePlatform 2 2
            (snd (HeapFileScan.startScan 0 0 STRING None LT s5)) w5
          = Done ([rid], FILEEOF, s6, w6)
       /\ HeapFileScan.getRecord
            (HeapFileScan.setBase
               (HeapFile.setCurRec rid (HeapFileScan.base s6)) s6) w6
          = Done (OK, Some sampleRec).
Proof.
  assert (Hlen : 0 <= Rec.length sampleRec
                   <= @PAGESIZE samplePlatform - @DPFIXED samplePlatform)
    by (vm_compute; split; discriminate).
  split; [split; [reflexivity|split; [reflexivity|split; [reflexivity|
          split; [exact sampleName_fits|split; [exact Hlen|exact sampleRec_is_int]]]]]|].
  exact (@create_insert_scan_round_trip samplePlatform [x66; x00; x67] sampleRec
           sampleHandle equalsSeven noFile 0 eq_refl eq_refl eq_refl sampleName_fits
           Hlen sampleRec_is_int).
Defined.

Lemma markDirty_then_scanNext_unpins_dirty_sample :
  exists st rid s' w',
    (HeapFile.curPage (HeapFileScan.base cursorScan) = Some 2
     /\ HeapFile.curPageNo (HeapFileScan.base cursorScan) <> -1
     /\ @HeapFileScan.scanNext samplePlatform 3 (snd (HeapFileScan.markDirty cursorScan))
          sampleWorld
        = Done (st, rid, s', w'))
    /\ fst (HeapFileScan.markDirty cursorScan) = OK
    /\ exists evs st1 pins,
         log w' = evs ++ [mkEvent (UnPinPage
                                     (HeapFile.curPageNo (HeapFileScan.base cursorScan))
                                     true) st1 pins] ++ log sampleWorld.
Proof.
  assert (Hno : HeapFile.curPageNo (HeapFileScan.base cursorScan) <> -1) by (cbn; lia).
  destruct (@HeapFileScan.scanNext samplePlatform 3 (snd (HeapFileScan.markDirty cursorScan))
              sampleWorld)
    as [[[[st rid] s'] w']| |] eqn:Erun; try (vm_compute in Erun; discriminate).
  exists st, rid, s', w'. split; [split; [reflexivity|split; [exact Hno|reflexivity]]|].
  exact (@markDirty_then_scanNext_unpins_dirty samplePlatform 3 cursorScan sampleWorld 2
           st rid s' w' eq_refl Hno Erun).
Defined.
